(** * Workload resolution of the business layer (business/workloads.go)

    A shallow embedding of [controllerPriority], [fetchWorkloads] and
    [fetchWorkload]: the controller index is a [gmap string string]
    (Go's [map[string]string]), the fetched Kubernetes lists are Rocq
    lists of records, the nine concurrent fetches are replayed along an
    explicit completion order, and the [range] over the controller index
    follows an explicit visiting order. *)

From stdpp Require Import gmap strings list fin_maps sorting.
From Stdlib Require Import ZArith Lia.

Open Scope Z_scope.

(** ** Kubernetes objects, as far as the resolver reads them *)

(** [meta_v1.OwnerReference]: [Controller] is a [*bool], [None] is nil. *)
Record OwnerReference := mkRef {
  ref_Name : string;
  ref_Kind : string;
  ref_Controller : option bool
}.

(** The test [ref.Controller != nil && *ref.Controller]. *)
Definition isController (ref : OwnerReference) : bool :=
  match ref_Controller ref with
  | Some true => true
  | _ => false
  end.

(** [core_v1.Pod]. [pod_SidecarContainers] is the container list decoded
    from the sidecar-status annotation (empty when the annotation is
    missing or does not decode). *)
Record Pod := mkPod {
  pod_Name : string;
  pod_Labels : gmap string string;
  pod_OwnerReferences : list OwnerReference;
  pod_SidecarContainers : list string
}.

(** The fields shared by Deployment, ReplicaSet, ReplicationController,
    DeploymentConfig, StatefulSet, DaemonSet, Job and CronJob:
    [obj_TemplateLabels] is [Spec.Template.Labels], and for a CronJob
    [Spec.JobTemplate.Spec.Template.Labels]. *)
Record Object := mkObject {
  obj_Name : string;
  obj_TemplateLabels : gmap string string;
  obj_OwnerReferences : list OwnerReference
}.

#[global] Instance OwnerReference_eq_dec : EqDecision OwnerReference.
Proof. solve_decision. Defined.

#[global] Instance Pod_eq_dec : EqDecision Pod.
Proof. solve_decision. Defined.

#[global] Instance Object_eq_dec : EqDecision Object.
Proof. solve_decision. Defined.

(** Modelled from the spec: the kind constants of package [kubernetes]
    ([kubernetes.DeploymentType] and the like) are not part of the
    sources at hand; they are the kind names of the rank table, which
    [fetchWorkloads] also writes as literals in its orphan loops. *)
Module kubernetes.

Definition DeploymentType : string := "Deployment".
Definition ReplicaSetType : string := "ReplicaSet".
Definition ReplicationControllerType : string := "ReplicationController".
Definition DeploymentConfigType : string := "DeploymentConfig".
Definition StatefulSetType : string := "StatefulSet".
Definition JobType : string := "Job".
Definition CronJobType : string := "CronJob".
Definition PodType : string := "Pod".
Definition DaemonSetType : string := "DaemonSet".

End kubernetes.

(** ** The rank table and the tie-break *)

Definition controllerOrder : gmap string Z :=
  list_to_map
    [ ("Deployment", 6); ("DeploymentConfig", 5); ("ReplicaSet", 4);
      ("ReplicationController", 3); ("StatefulSet", 2); ("Job", 1);
      ("DaemonSet", 0); ("Pod", -1) ].

(** Go's two-valued map read [v, ok := m[k]]: a missing key reads as the
    zero value of the element type. *)
Definition lookup2 (m : gmap string Z) (k : string) : Z * bool :=
  match m !! k with
  | Some v => (v, true)
  | None => (0, false)
  end.

(** The number [controllerPriority] compares for a kind. *)
Definition rank (kind : string) : Z := fst (lookup2 controllerOrder kind).

(** [controllerPriority]; the two [log.Errorf] calls for a kind missing
    from the table write to the log only and are left out. *)
Definition controllerPriority (type1 type2 : string) : string :=
  let '(w1, e1) := lookup2 controllerOrder type1 in
  let '(w2, e2) := lookup2 controllerOrder type2 in
  if w1 >=? w2 then type1 else type2.

Definition rankedKinds : list string :=
  [ "Deployment"; "DeploymentConfig"; "ReplicaSet"; "ReplicationController";
    "StatefulSet"; "Job"; "DaemonSet"; "Pod" ].

(** ** Errors *)

(** Go's [error] values, as far as the code tells them apart:
    [StatusNotFound] is the typed Not-Found status, every other failure
    is an [OtherError]. *)
Inductive error :=
| StatusNotFound (name group resource : string)
| OtherError (msg : string).

(** Modelled from the spec: [errors.IsNotFound] of the apimachinery
    library recognises the typed Not-Found status. *)
Definition IsNotFound (e : error) : bool :=
  match e with
  | StatusNotFound _ _ _ => true
  | OtherError _ => false
  end.

(** Modelled from the spec: [kubernetes.NewNotFound] is not part of the
    sources at hand; it builds the distinct, typed Not-Found condition. *)
Definition NewNotFound (name group resource : string) : error :=
  StatusNotFound name group resource.

(** ** The result model (package models) *)

Definition ProxyStatus := string.

(** [models.Pod], with the fields [Pod.Parse] fills and the proxy status
    the resolver attaches. *)
Record MPod := mkMPod {
  mp_Name : string;
  mp_Labels : gmap string string;
  mp_CreatedBy : list (string * string);
  mp_IstioContainers : list string;
  mp_ProxyStatus : option ProxyStatus
}.

(** [(pod *Pod) Parse]. *)
Definition Pod_Parse (p : Pod) : MPod :=
  {| mp_Name := pod_Name p;
     mp_Labels := pod_Labels p;
     mp_CreatedBy := map (fun ref => (ref_Name ref, ref_Kind ref)) (pod_OwnerReferences p);
     mp_IstioContainers := pod_SidecarContainers p;
     mp_ProxyStatus := None |}.

(** [(pods *Pods) Parse]: appends the parsed pods. *)
Definition Pods_Parse (pods : list MPod) (l : list Pod) : list MPod :=
  pods ++ map Pod_Parse l.

Definition HasIstioSidecar (p : MPod) : bool :=
  negb (Nat.eqb (length (mp_IstioContainers p)) 0).

Record Workload := mkWorkload {
  w_Name : string;
  w_Type : string;
  w_Labels : gmap string string;
  w_Pods : list MPod
}.

(** The workload [fetchWorkloads] starts from: empty [Pods]. *)
Definition emptyWorkload : Workload :=
  {| w_Name := ""; w_Type := ""; w_Labels := ∅; w_Pods := [] |}.

(** Modelled from the spec: the methods of [models.Workload] are not part
    of the sources at hand. [SetPods] stores the parsed pods; a typed
    [Parse...] populates the workload from the typed object (its name,
    its kind, its pod-template labels); [ParsePod] does so from the pod;
    [ParseReplicaSetParent] borrows the replica-set's metadata while
    keeping the given name and kind; [ParsePods] sets name and kind
    only. *)
Definition SetPods (w : Workload) (pods : list Pod) : Workload :=
  {| w_Name := w_Name w; w_Type := w_Type w; w_Labels := w_Labels w;
     w_Pods := Pods_Parse (w_Pods w) pods |}.

Definition parseObject (kind : string) (w : Workload) (o : Object) : Workload :=
  {| w_Name := obj_Name o; w_Type := kind;
     w_Labels := obj_TemplateLabels o; w_Pods := w_Pods w |}.

Definition ParseDeployment := parseObject "Deployment".
Definition ParseReplicaSet := parseObject "ReplicaSet".
Definition ParseReplicationController := parseObject "ReplicationController".
Definition ParseDeploymentConfig := parseObject "DeploymentConfig".
Definition ParseStatefulSet := parseObject "StatefulSet".
Definition ParseJob := parseObject "Job".
Definition ParseCronJob := parseObject "CronJob".
Definition ParseDaemonSet := parseObject "DaemonSet".

Definition ParsePod (w : Workload) (p : Pod) : Workload :=
  {| w_Name := pod_Name p; w_Type := "Pod";
     w_Labels := pod_Labels p; w_Pods := w_Pods w |}.

Definition ParseReplicaSetParent (w : Workload) (r : Object)
    (workloadName workloadType : string) : Workload :=
  {| w_Name := workloadName; w_Type := workloadType;
     w_Labels := obj_TemplateLabels r; w_Pods := w_Pods w |}.

Definition ParsePods (w : Workload) (controllerName controllerType : string)
    (pods : list Pod) : Workload :=
  {| w_Name := controllerName; w_Type := controllerType;
     w_Labels := w_Labels w; w_Pods := w_Pods w |}.

(** ** Selectors and pod filters *)

(** A [labels.Selector], as its [Matches] function on a label set. *)
Definition Selector := gmap string string -> bool.

(** Modelled from the spec: [labels.Set(l).AsSelector()] of the
    apimachinery library selects the label sets that carry every pair of
    [l] (so the empty set selects everything). *)
Definition AsSelector (l : gmap string string) : Selector :=
  fun labels => bool_decide (map_Forall (fun k v => labels !! k = Some v) l).

(** Modelled from the spec: [kubernetes.FilterPodsForSelector] and
    [kubernetes.FilterPodsForController] are not part of the sources at
    hand. The first keeps the pods whose labels the selector matches, the
    second the pods with a controller owner reference of the given name
    and kind. *)
Definition FilterPodsForSelector (selector : Selector) (allPods : list Pod) : list Pod :=
  filter (fun pod => selector (pod_Labels pod) = true) allPods.

Definition FilterPodsForController (controllerName controllerType : string)
    (allPods : list Pod) : list Pod :=
  filter (fun pod =>
            existsb (fun ref => isController ref
                                && bool_decide (ref_Name ref = controllerName)
                                && bool_decide (ref_Kind ref = controllerType))
                    (pod_OwnerReferences pod) = true) allPods.

(** ** The collaborators behind [Layer] *)

(** A lister returns its result together with Go's [error] ([None] is
    nil). The live client [layer.k8s] and the cache [kialiCache] offer
    the same calls. *)
Record Client := mkClient {
  GetPods : string -> string -> list Pod * option error;
  GetDeployments : string -> list Object * option error;
  GetReplicaSets : string -> list Object * option error;
  GetReplicationControllers : string -> list Object * option error;
  GetDeploymentConfigs : string -> list Object * option error;
  GetStatefulSets : string -> list Object * option error;
  GetCronJobs : string -> list Object * option error;
  GetJobs : string -> list Object * option error;
  GetDaemonSets : string -> list Object * option error;
  GetDeployment : string -> string -> option Object * option error;
  GetDeploymentConfig : string -> string -> option Object * option error;
  GetStatefulSet : string -> string -> option Object * option error;
  GetDaemonSet : string -> string -> option Object * option error;
  IsOpenShift : bool
}.

(** What the functions reach through [layer] and through the package
    globals [kialiCache] and [excludedWorkloads]. [labels_Parse] is the
    library parser of selector strings, [inr] its parse error. *)
Record Layer := mkLayer {
  k8s : Client;
  kialiCache : Client;
  IsNamespaceCached : string -> bool;
  excludedWorkloads : option (gmap string bool);
  Namespace_GetNamespace : string -> option error;
  ProxyStatus_GetPodProxyStatus : string -> string -> option ProxyStatus * option error;
  labels_Parse : string -> Selector + error
}.

Definition isWorkloadIncluded (layer : Layer) (workload : string) : bool :=
  match excludedWorkloads layer with
  | None => true
  | Some m => negb (default false (m !! workload))
  end.

(** The client a cached call goes to. *)
Definition source (layer : Layer) (namespace : string) : Client :=
  if IsNamespaceCached layer namespace then kialiCache layer else k8s layer.

(** ** The nine goroutines of [fetchWorkloads]

    Each goroutine is given as the value it leaves in its variable and
    the error it sends on [errChan] ([None]: nothing is sent). A variable
    that is never assigned stays nil, the empty list. *)

Inductive Task :=
| TPods | TDeployments | TReplicaSets | TReplicationControllers
| TDeploymentConfigs | TStatefulSets | TCronJobs | TJobs | TDaemonSets.

#[global] Instance Task_eq_dec : EqDecision Task.
Proof. solve_decision. Defined.

Definition allTasks : list Task :=
  [ TPods; TDeployments; TReplicaSets; TReplicationControllers;
    TDeploymentConfigs; TStatefulSets; TCronJobs; TJobs; TDaemonSets ].

Definition goPods (layer : Layer) (namespace labelSelector : string)
    : list Pod * option error :=
  GetPods (source layer namespace) namespace labelSelector.

Definition goDeployments (layer : Layer) (namespace : string)
    : list Object * option error :=
  GetDeployments (source layer namespace) namespace.

Definition goReplicaSets (layer : Layer) (namespace : string)
    : list Object * option error :=
  GetReplicaSets (source layer namespace) namespace.

Definition goReplicationControllers (layer : Layer) (namespace : string)
    : list Object * option error :=
  if isWorkloadIncluded layer kubernetes.ReplicationControllerType
  then GetReplicationControllers (k8s layer) namespace
  else ([], None).

Definition goDeploymentConfigs (layer : Layer) (namespace : string)
    : list Object * option error :=
  if IsOpenShift (k8s layer) && isWorkloadIncluded layer kubernetes.DeploymentConfigType
  then GetDeploymentConfigs (k8s layer) namespace
  else ([], None).

Definition goStatefulSets (layer : Layer) (namespace : string)
    : list Object * option error :=
  if isWorkloadIncluded layer kubernetes.StatefulSetType
  then GetStatefulSets (source layer namespace) namespace
  else ([], None).

Definition goCronJobs (layer : Layer) (namespace : string)
    : list Object * option error :=
  if isWorkloadIncluded layer kubernetes.CronJobType
  then GetCronJobs (k8s layer) namespace
  else ([], None).

Definition goJobs (layer : Layer) (namespace : string)
    : list Object * option error :=
  if isWorkloadIncluded layer kubernetes.JobType
  then GetJobs (k8s layer) namespace
  else ([], None).

(** The daemon-set goroutine logs its error and sends nothing. *)
Definition goDaemonSets (layer : Layer) (namespace : string)
    : list Object * option error :=
  if isWorkloadIncluded layer kubernetes.DaemonSetType
  then (fst (GetDaemonSets (source layer namespace) namespace), None)
  else ([], None).

(** The error a goroutine of [fetchWorkloads] sends on [errChan]. *)
Definition sent (layer : Layer) (namespace labelSelector : string) (t : Task)
    : option error :=
  match t with
  | TPods => snd (goPods layer namespace labelSelector)
  | TDeployments => snd (goDeployments layer namespace)
  | TReplicaSets => snd (goReplicaSets layer namespace)
  | TReplicationControllers => snd (goReplicationControllers layer namespace)
  | TDeploymentConfigs => snd (goDeploymentConfigs layer namespace)
  | TStatefulSets => snd (goStatefulSets layer namespace)
  | TCronJobs => snd (goCronJobs layer namespace)
  | TJobs => snd (goJobs layer namespace)
  | TDaemonSets => snd (goDaemonSets layer namespace)
  end.

(** The error the listing call of a kind returned inside its goroutine
    ([None] when the call succeeded or was not made). *)
Definition fetchError (layer : Layer) (namespace labelSelector : string) (t : Task)
    : option error :=
  let included kind := isWorkloadIncluded layer kind in
  match t with
  | TPods => snd (GetPods (source layer namespace) namespace labelSelector)
  | TDeployments => snd (GetDeployments (source layer namespace) namespace)
  | TReplicaSets => snd (GetReplicaSets (source layer namespace) namespace)
  | TReplicationControllers =>
      if included kubernetes.ReplicationControllerType
      then snd (GetReplicationControllers (k8s layer) namespace) else None
  | TDeploymentConfigs =>
      if IsOpenShift (k8s layer) && included kubernetes.DeploymentConfigType
      then snd (GetDeploymentConfigs (k8s layer) namespace) else None
  | TStatefulSets =>
      if included kubernetes.StatefulSetType
      then snd (GetStatefulSets (source layer namespace) namespace) else None
  | TCronJobs =>
      if included kubernetes.CronJobType
      then snd (GetCronJobs (k8s layer) namespace) else None
  | TJobs =>
      if included kubernetes.JobType
      then snd (GetJobs (k8s layer) namespace) else None
  | TDaemonSets =>
      if included kubernetes.DaemonSetType
      then snd (GetDaemonSets (source layer namespace) namespace) else None
  end.

(** The buffered channel after [wg.Wait()]: the sends in the order in
    which the goroutines ran, [sched], which the scheduler chooses. *)
Definition errChan (layer : Layer) (namespace labelSelector : string)
    (sched : list Task) : list error :=
  omap (sent layer namespace labelSelector) sched.

(** ** The controller index: key is the controller name, value its kind *)

(** The block that records an owner reference, which the source repeats
    at each of its four uses:
    [if _, exist := controllers[ref.Name]; !exist { controllers[ref.Name] = ref.Kind }
     else if controllers[ref.Name] != ref.Kind { ... = controllerPriority(...) }]. *)
Definition mergeController (controllers : gmap string string) (ref : OwnerReference)
    : gmap string string :=
  match controllers !! ref_Name ref with
  | None => <[ref_Name ref := ref_Kind ref]> controllers
  | Some kind =>
      if bool_decide (kind <> ref_Kind ref)
      then <[ref_Name ref := controllerPriority kind (ref_Kind ref)]> controllers
      else controllers
  end.

(** Body of the loop "Find controllers from pods". *)
Definition scanPod (controllers : gmap string string) (pod : Pod) : gmap string string :=
  if negb (Nat.eqb (length (pod_OwnerReferences pod)) 0)
  then foldl (fun c ref => if isController ref then mergeController c ref else c)
             controllers (pod_OwnerReferences pod)
  else match controllers !! pod_Name pod with
       | None => <[pod_Name pod := "Pod"]> controllers
       | Some _ => controllers
       end.

Definition findControllers (pods : list Pod) : gmap string string :=
  foldl scanPod ∅ pods.

(** The search loops [for i, x := range l { if x.Name == cname { ...; break } }]:
    the first object of that name. *)
Definition findByName (cname : string) (l : list Object) : option Object :=
  List.find (fun o => bool_decide (obj_Name o = cname)) l.

Definition findPodByName (cname : string) (l : list Pod) : option Pod :=
  List.find (fun p => bool_decide (pod_Name p = cname)) l.

(** Child of kind ReplicaSet or ReplicationController: every controller
    reference of the live object is recorded and the child is deleted.
    The guard [found && len(OwnerReferences) > 0] is the loop over an
    empty list. *)
Definition resolveChild (children : list Object) (cname : string)
    (controllers : gmap string string) : gmap string string :=
  match findByName cname children with
  | Some child =>
      foldl (fun c ref =>
               if isController ref
               then delete cname (mergeController c ref)
               else c)
            controllers (obj_OwnerReferences child)
  | None => controllers
  end.

(** Child of kind Job: the child is deleted only when a cron-job of the
    referenced name is among the fetched cron-jobs. *)
Definition resolveJob (jbs conjbs : list Object) (cname : string)
    (controllers : gmap string string) : gmap string string :=
  match findByName cname jbs with
  | Some child =>
      foldl (fun c ref =>
               if isController ref
               then
                 let c' := mergeController c ref in
                 let cnExist :=
                   existsb (fun cnj => bool_decide (obj_Name cnj = ref_Name ref)) conjbs in
                 if cnExist then delete cname c' else c'
               else c)
            controllers (obj_OwnerReferences child)
  | None => controllers
  end.

(** One iteration of [for cname, ctype := range controllers] for the key
    [cname]; [ctype] is the value of the key when it is reached, and a
    key that is not in the map then is not visited. *)
Definition resolveStep (repset repcon jbs conjbs : list Object)
    (controllers : gmap string string) (cname : string) : gmap string string :=
  match controllers !! cname with
  | None => controllers
  | Some ctype =>
      let c1 := if bool_decide (ctype = kubernetes.ReplicaSetType)
                then resolveChild repset cname controllers else controllers in
      let c2 := if bool_decide (ctype = kubernetes.ReplicationControllerType)
                then resolveChild repcon cname c1 else c1 in
      if bool_decide (ctype = kubernetes.JobType)
      then resolveJob jbs conjbs cname c2 else c2
  end.

(** The loop over the index. Go visits the keys of a map in an order of
    its choosing, leaves out a key deleted before it is reached, and may
    or may not visit a key added on the way: [order] is the sequence of
    keys the runtime walks. *)
Definition resolveControllers (repset repcon jbs conjbs : list Object)
    (order : list string) (controllers : gmap string string) : gmap string string :=
  foldl (resolveStep repset repcon jbs conjbs) controllers order.

(** ** Controllers without pods *)

(** The selector the orphan loops check: nil when [labelSelector] is
    empty or does not parse (the parse error is only logged). *)
Definition parseSelector (layer : Layer) (labelSelector : string) : option Selector :=
  if bool_decide (labelSelector <> "")
  then match labels_Parse layer labelSelector with
       | inl selector => Some selector
       | inr selErr => None
       end
  else None.

Definition selectorCheck (selector : option Selector) (o : Object) : bool :=
  match selector with
  | Some s => s (obj_TemplateLabels o)
  | None => true
  end.

(** Loop body for deployments, deployment-configs, stateful-sets and
    daemon-sets: [if _, exist := controllers[d.Name]; !exist && selectorCheck]. *)
Definition addOrphan (selector : option Selector) (kind : string)
    (controllers : gmap string string) (o : Object) : gmap string string :=
  if bool_decide (controllers !! obj_Name o = None) && selectorCheck selector o
  then <[obj_Name o := kind]> controllers
  else controllers.

(** Loop body for replica-sets and replication-controllers:
    [!exist && len(rs.OwnerReferences) == 0 && selectorCheck]. *)
Definition addOrphanUnowned (selector : option Selector) (kind : string)
    (controllers : gmap string string) (o : Object) : gmap string string :=
  if bool_decide (controllers !! obj_Name o = None)
     && Nat.eqb (length (obj_OwnerReferences o)) 0
     && selectorCheck selector o
  then <[obj_Name o := kind]> controllers
  else controllers.

Definition orphanCompletion (selector : option Selector)
    (dep repset depcon repcon fulset daeset : list Object)
    (controllers : gmap string string) : gmap string string :=
  let c1 := foldl (addOrphan selector "Deployment") controllers dep in
  let c2 := foldl (addOrphanUnowned selector "ReplicaSet") c1 repset in
  let c3 := foldl (addOrphan selector "DeploymentConfig") c2 depcon in
  let c4 := foldl (addOrphanUnowned selector "ReplicationController") c3 repcon in
  let c5 := foldl (addOrphan selector "StatefulSet") c4 fulset in
  foldl (addOrphan selector "DaemonSet") c5 daeset.

(** ** Building the workloads *)

(** Modelled from the spec: [castProxyStatus] is not part of the sources
    at hand; the snapshot is attached as fetched. *)
Definition castProxyStatus (ps : option ProxyStatus) : option ProxyStatus := ps.

(** "Add the Proxy Status to the workload": a failing lookup is logged
    and its result attached all the same. *)
Definition attachProxyStatus (layer : Layer) (namespace : string) (w : Workload)
    : Workload :=
  {| w_Name := w_Name w; w_Type := w_Type w; w_Labels := w_Labels w;
     w_Pods :=
       map (fun pod =>
              if HasIstioSidecar pod
              then {| mp_Name := mp_Name pod; mp_Labels := mp_Labels pod;
                      mp_CreatedBy := mp_CreatedBy pod;
                      mp_IstioContainers := mp_IstioContainers pod;
                      mp_ProxyStatus :=
                        castProxyStatus
                          (fst (ProxyStatus_GetPodProxyStatus layer namespace (mp_Name pod))) |}
              else pod)
           (w_Pods w) |}.

(** A [case] of a kind with a pod template: find the object by name,
    select the pods by its template labels, parse it; [cnFound] is false
    when no object has that name. *)
Definition fromSelector (parse : Workload -> Object -> Workload) (l : list Object)
    (pods : list Pod) (cname : string) (w : Workload) : Workload * bool :=
  match findByName cname l with
  | Some o =>
      let selector := AsSelector (obj_TemplateLabels o) in
      (parse (SetPods w (FilterPodsForSelector selector pods)) o, true)
  | None => (w, false)
  end.

(** The [case kubernetes.PodType]. *)
Definition fromPod (pods : list Pod) (cname : string) (w : Workload) : Workload * bool :=
  match findPodByName cname pods with
  | Some pod => (ParsePod (SetPods w [pod]) pod, true)
  | None => (w, false)
  end.

(** The [default] case, for a custom controller: [ctype] is the kind in
    the index, and the pods are those owned by [cname] with the child
    kind. *)
Definition fromCustom (repset : list Object) (pods : list Pod)
    (cname ctype : string) (w : Workload) : Workload * bool :=
  let childType :=
    if bool_decide (controllerOrder !! ctype = None)
    then kubernetes.ReplicaSetType else ctype in
  let cPods := FilterPodsForController cname childType pods in
  let w1 := SetPods w cPods in
  match List.find (fun rs => String.prefix cname (obj_Name rs)) repset with
  | Some rs => (ParseReplicaSetParent w1 rs cname ctype, true)
  | None => (ParsePods w1 cname ctype cPods, true)
  end.

(** The fetched lists of [fetchWorkloads]. *)
Record Fetched := mkFetched {
  pods : list Pod;
  dep : list Object;
  repset : list Object;
  repcon : list Object;
  depcon : list Object;
  fulset : list Object;
  conjbs : list Object;
  jbs : list Object;
  daeset : list Object
}.

(** The [switch ctype] of [fetchWorkloads]. *)
Definition switchWorkloads (f : Fetched) (cname ctype : string) (w : Workload)
    : Workload * bool :=
  if bool_decide (ctype = kubernetes.DeploymentType)
  then fromSelector ParseDeployment (dep f) (pods f) cname w
  else if bool_decide (ctype = kubernetes.ReplicaSetType)
  then fromSelector ParseReplicaSet (repset f) (pods f) cname w
  else if bool_decide (ctype = kubernetes.ReplicationControllerType)
  then fromSelector ParseReplicationController (repcon f) (pods f) cname w
  else if bool_decide (ctype = kubernetes.DeploymentConfigType)
  then fromSelector ParseDeploymentConfig (depcon f) (pods f) cname w
  else if bool_decide (ctype = kubernetes.StatefulSetType)
  then fromSelector ParseStatefulSet (fulset f) (pods f) cname w
  else if bool_decide (ctype = kubernetes.PodType)
  then fromPod (pods f) cname w
  else if bool_decide (ctype = kubernetes.JobType)
  then fromSelector ParseJob (jbs f) (pods f) cname w
  else if bool_decide (ctype = kubernetes.CronJobType)
  then fromSelector ParseCronJob (conjbs f) (pods f) cname w
  else if bool_decide (ctype = kubernetes.DaemonSetType)
  then fromSelector ParseDaemonSet (daeset f) (pods f) cname w
  else fromCustom (repset f) (pods f) cname ctype w.

(** One iteration of "Build workloads from controllers": the workload of
    [cname], when [cnFound]. *)
Definition buildWorkload (layer : Layer) (namespace : string) (f : Fetched)
    (controllers : gmap string string) (cname : string) : option Workload :=
  let ctype := default "" (controllers !! cname) in
  let '(w, cnFound) := switchWorkloads f cname ctype emptyWorkload in
  let w' := attachProxyStatus layer namespace w in
  if cnFound then Some w' else None.

Definition string_le (a b : string) : Prop := Is_true (String.leb a b).

#[global] Instance string_le_dec (a b : string) : Decision (string_le a b).
Proof. unfold string_le. apply _. Defined.

(** [cnames]: the keys of the index after [sort.Strings]. *)
Definition sortedNames (controllers : gmap string string) : list string :=
  merge_sort string_le (map fst (map_to_list controllers)).

(** The index [fetchWorkloads] builds from the fetched lists. *)
Definition controllerIndex (selector : option Selector) (order : list string)
    (f : Fetched) : gmap string string :=
  let controllers := findControllers (pods f) in
  let controllers := resolveControllers (repset f) (repcon f) (jbs f) (conjbs f)
                       order controllers in
  orphanCompletion selector (dep f) (repset f) (depcon f) (repcon f)
                   (fulset f) (daeset f) controllers.

(** What the nine goroutines leave in the variables of [fetchWorkloads]. *)
Definition fetched (layer : Layer) (namespace labelSelector : string) : Fetched :=
  {| pods := fst (goPods layer namespace labelSelector);
     dep := fst (goDeployments layer namespace);
     repset := fst (goReplicaSets layer namespace);
     repcon := fst (goReplicationControllers layer namespace);
     depcon := fst (goDeploymentConfigs layer namespace);
     fulset := fst (goStatefulSets layer namespace);
     conjbs := fst (goCronJobs layer namespace);
     jbs := fst (goJobs layer namespace);
     daeset := fst (goDaemonSets layer namespace) |}.

(** [fetchWorkloads]. [sched] is the order in which the goroutines ran,
    [order] the order in which the index is walked. A nil slice and an
    empty one both read as the empty list. *)
Definition fetchWorkloads (layer : Layer) (sched : list Task) (order : list string)
    (namespace labelSelector : string) : list Workload * option error :=
  match Namespace_GetNamespace layer namespace with
  | Some err => ([], Some err)
  | None =>
      match errChan layer namespace labelSelector sched with
      | err :: _ => ([], Some err)
      | [] =>
          let f := fetched layer namespace labelSelector in
          let controllers :=
            controllerIndex (parseSelector layer labelSelector) order f in
          (omap (buildWorkload layer namespace f controllers) (sortedNames controllers),
           None)
      end
  end.

(** ** [fetchWorkload]: one workload by name, with an optional kind hint *)

(** The variables of [fetchWorkload]: single objects are pointers, [None]
    is nil. *)
Record Fetched1 := mkFetched1 {
  pods1 : list Pod;
  dep1 : option Object;
  repset1 : list Object;
  repcon1 : list Object;
  depcon1 : option Object;
  fulset1 : option Object;
  conjbs1 : list Object;
  jbs1 : list Object;
  ds1 : option Object
}.

(** The guard [workloadType != "" && workloadType != kind] that makes a
    goroutine return at once. *)
Definition skipped (workloadType kind : string) : bool :=
  bool_decide (workloadType <> "") && bool_decide (workloadType <> kind).

Definition go1Pods (layer : Layer) (namespace : string) : list Pod * option error :=
  GetPods (source layer namespace) namespace "".

(** A Not-Found answer leaves [dep] nil and sends nothing. *)
Definition go1Deployment (layer : Layer) (namespace workloadName workloadType : string)
    : option Object * option error :=
  if skipped workloadType kubernetes.DeploymentType then (None, None)
  else
    let '(d, err) := GetDeployment (source layer namespace) namespace workloadName in
    match err with
    | Some e => if IsNotFound e then (None, None) else (d, Some e)
    | None => (d, None)
    end.

Definition go1ReplicaSets (layer : Layer) (namespace workloadType : string)
    : list Object * option error :=
  let knownWorkloadType := snd (lookup2 controllerOrder workloadType) in
  if skipped workloadType kubernetes.ReplicaSetType && knownWorkloadType
  then ([], None)
  else GetReplicaSets (source layer namespace) namespace.

Definition go1ReplicationControllers (layer : Layer) (namespace workloadType : string)
    : list Object * option error :=
  if skipped workloadType kubernetes.ReplicationControllerType then ([], None)
  else if isWorkloadIncluded layer kubernetes.ReplicationControllerType
  then GetReplicationControllers (k8s layer) namespace
  else ([], None).

(** Any error leaves [depcon] nil and sends nothing. *)
Definition go1DeploymentConfig (layer : Layer) (namespace workloadName workloadType : string)
    : option Object * option error :=
  if skipped workloadType kubernetes.DeploymentConfigType then (None, None)
  else if IsOpenShift (k8s layer) && isWorkloadIncluded layer kubernetes.DeploymentConfigType
  then
    let '(d, err) := GetDeploymentConfig (k8s layer) namespace workloadName in
    match err with Some _ => (None, None) | None => (d, None) end
  else (None, None).

Definition go1StatefulSet (layer : Layer) (namespace workloadName workloadType : string)
    : option Object * option error :=
  if skipped workloadType kubernetes.StatefulSetType then (None, None)
  else if isWorkloadIncluded layer kubernetes.StatefulSetType
  then
    let '(d, err) := GetStatefulSet (source layer namespace) namespace workloadName in
    match err with Some _ => (None, None) | None => (d, None) end
  else (None, None).

Definition go1CronJobs (layer : Layer) (namespace workloadType : string)
    : list Object * option error :=
  if skipped workloadType kubernetes.CronJobType then ([], None)
  else if isWorkloadIncluded layer kubernetes.CronJobType
  then GetCronJobs (k8s layer) namespace
  else ([], None).

Definition go1Jobs (layer : Layer) (namespace workloadType : string)
    : list Object * option error :=
  if skipped workloadType kubernetes.JobType then ([], None)
  else if isWorkloadIncluded layer kubernetes.JobType
  then GetJobs (k8s layer) namespace
  else ([], None).

Definition go1DaemonSet (layer : Layer) (namespace workloadName workloadType : string)
    : option Object * option error :=
  if skipped workloadType kubernetes.DaemonSetType then (None, None)
  else if isWorkloadIncluded layer kubernetes.DaemonSetType
  then
    let '(d, err) := GetDaemonSet (k8s layer) namespace workloadName in
    match err with Some _ => (None, None) | None => (d, None) end
  else (None, None).

Definition sent1 (layer : Layer) (namespace workloadName workloadType : string)
    (t : Task) : option error :=
  match t with
  | TPods => snd (go1Pods layer namespace)
  | TDeployments => snd (go1Deployment layer namespace workloadName workloadType)
  | TReplicaSets => snd (go1ReplicaSets layer namespace workloadType)
  | TReplicationControllers => snd (go1ReplicationControllers layer namespace workloadType)
  | TDeploymentConfigs => snd (go1DeploymentConfig layer namespace workloadName workloadType)
  | TStatefulSets => snd (go1StatefulSet layer namespace workloadName workloadType)
  | TCronJobs => snd (go1CronJobs layer namespace workloadType)
  | TJobs => snd (go1Jobs layer namespace workloadType)
  | TDaemonSets => snd (go1DaemonSet layer namespace workloadName workloadType)
  end.

Definition errChan1 (layer : Layer) (namespace workloadName workloadType : string)
    (sched : list Task) : list error :=
  omap (sent1 layer namespace workloadName workloadType) sched.

Definition fetched1 (layer : Layer) (namespace workloadName workloadType : string)
    : Fetched1 :=
  {| pods1 := fst (go1Pods layer namespace);
     dep1 := fst (go1Deployment layer namespace workloadName workloadType);
     repset1 := fst (go1ReplicaSets layer namespace workloadType);
     repcon1 := fst (go1ReplicationControllers layer namespace workloadType);
     depcon1 := fst (go1DeploymentConfig layer namespace workloadName workloadType);
     fulset1 := fst (go1StatefulSet layer namespace workloadName workloadType);
     conjbs1 := fst (go1CronJobs layer namespace workloadType);
     jbs1 := fst (go1Jobs layer namespace workloadType);
     ds1 := fst (go1DaemonSet layer namespace workloadName workloadType) |}.

(** [if x != nil { if _, exist := controllers[x.Name]; !exist { ... } }]. *)
Definition addSingle (kind : string) (o : option Object)
    (controllers : gmap string string) : gmap string string :=
  match o with
  | Some x =>
      if bool_decide (controllers !! obj_Name x = None)
      then <[obj_Name x := kind]> controllers else controllers
  | None => controllers
  end.

(** [if _, exist := controllers[rs.Name]; !exist && len(rs.OwnerReferences) == 0]. *)
Definition addUnowned (kind : string) (controllers : gmap string string) (o : Object)
    : gmap string string :=
  if bool_decide (controllers !! obj_Name o = None)
     && Nat.eqb (length (obj_OwnerReferences o)) 0
  then <[obj_Name o := kind]> controllers
  else controllers.

Definition controllerIndex1 (order : list string) (f : Fetched1) : gmap string string :=
  let controllers := findControllers (pods1 f) in
  let controllers := resolveControllers (repset1 f) (repcon1 f) (jbs1 f) (conjbs1 f)
                       order controllers in
  let c1 := addSingle kubernetes.DeploymentType (dep1 f) controllers in
  let c2 := foldl (addUnowned kubernetes.ReplicaSetType) c1 (repset1 f) in
  let c3 := addSingle kubernetes.DeploymentConfigType (depcon1 f) c2 in
  let c4 := foldl (addUnowned kubernetes.ReplicationControllerType) c3 (repcon1 f) in
  let c5 := addSingle kubernetes.StatefulSetType (fulset1 f) c4 in
  addSingle kubernetes.DaemonSetType (ds1 f) c5.

(** The corner case of a kind hint that differs from the kind found. *)
Definition controllerType (ctype workloadType : string) : string :=
  if bool_decide (workloadType <> "") && bool_decide (ctype <> workloadType)
  then workloadType else ctype.

(** A [case] on a single fetched object: [x != nil && x.Name == workloadName]. *)
Definition fromSingle (parse : Workload -> Object -> Workload) (o : option Object)
    (pods : list Pod) (workloadName : string) (w : Workload) : Workload * bool :=
  match o with
  | Some x =>
      if bool_decide (obj_Name x = workloadName)
      then (parse (SetPods w (FilterPodsForSelector (AsSelector (obj_TemplateLabels x)) pods)) x,
            true)
      else (w, false)
  | None => (w, false)
  end.

(** The materialization branches of [fetchWorkload]. *)
Inductive Branch :=
| BDeployment | BReplicaSet | BReplicationController | BDeploymentConfig
| BStatefulSet | BPod | BJob | BCronJob | BDaemonSet | BDefault.

(** Which [case] of [switch controllerType] a kind selects. *)
Definition branchOf (kind : string) : Branch :=
  if bool_decide (kind = kubernetes.DeploymentType) then BDeployment
  else if bool_decide (kind = kubernetes.ReplicaSetType) then BReplicaSet
  else if bool_decide (kind = kubernetes.ReplicationControllerType) then BReplicationController
  else if bool_decide (kind = kubernetes.DeploymentConfigType) then BDeploymentConfig
  else if bool_decide (kind = kubernetes.StatefulSetType) then BStatefulSet
  else if bool_decide (kind = kubernetes.PodType) then BPod
  else if bool_decide (kind = kubernetes.JobType) then BJob
  else if bool_decide (kind = kubernetes.CronJobType) then BCronJob
  else if bool_decide (kind = kubernetes.DaemonSetType) then BDaemonSet
  else BDefault.

(** The body of each [case]; the [default] case works from [ctype], the
    kind found in the index, not from the hint. *)
Definition runBranch (f : Fetched1) (workloadName ctype : string) (b : Branch)
    (w : Workload) : Workload * bool :=
  match b with
  | BDeployment => fromSingle ParseDeployment (dep1 f) (pods1 f) workloadName w
  | BReplicaSet => fromSelector ParseReplicaSet (repset1 f) (pods1 f) workloadName w
  | BReplicationController =>
      fromSelector ParseReplicationController (repcon1 f) (pods1 f) workloadName w
  | BDeploymentConfig => fromSingle ParseDeploymentConfig (depcon1 f) (pods1 f) workloadName w
  | BStatefulSet => fromSingle ParseStatefulSet (fulset1 f) (pods1 f) workloadName w
  | BPod => fromPod (pods1 f) workloadName w
  | BJob => fromSelector ParseJob (jbs1 f) (pods1 f) workloadName w
  | BCronJob => fromSelector ParseCronJob (conjbs1 f) (pods1 f) workloadName w
  | BDaemonSet => fromSingle ParseDaemonSet (ds1 f) (pods1 f) workloadName w
  | BDefault => fromCustom (repset1 f) (pods1 f) workloadName ctype w
  end.

(** "Build workload from controllers": the workload returned with a nil
    error; [None] falls through to the Not-Found return. *)
Definition buildWorkload1 (layer : Layer) (namespace : string) (f : Fetched1)
    (controllers : gmap string string) (workloadName workloadType : string)
    : option Workload :=
  match controllers !! workloadName with
  | Some ctype =>
      let '(w, cnFound) :=
        runBranch f workloadName ctype (branchOf (controllerType ctype workloadType))
                  emptyWorkload in
      let w' := attachProxyStatus layer namespace w in
      if cnFound then Some w' else None
  | None => None
  end.

(** [fetchWorkload]. The first component is the returned pointer
    ([None] is nil). *)
Definition fetchWorkload (layer : Layer) (sched : list Task) (order : list string)
    (namespace workloadName workloadType : string) : option Workload * option error :=
  match Namespace_GetNamespace layer namespace with
  | Some err => (None, Some err)
  | None =>
      match errChan1 layer namespace workloadName workloadType sched with
      | err :: _ => (Some emptyWorkload, Some err)
      | [] =>
          let f := fetched1 layer namespace workloadName workloadType in
          let controllers := controllerIndex1 order f in
          match buildWorkload1 layer namespace f controllers workloadName workloadType with
          | Some w => (Some w, None)
          | None => (Some emptyWorkload, Some (NewNotFound workloadName "Kiali" "Workload"))
          end
      end
  end.

(** ** Sample clusters *)

(** A client that answers every listing with the lists of [f] and no
    error, and a single-object call with the first object of that name
    or the Not-Found status. *)
Definition getByName (l : list Object) (name : string) : option Object * option error :=
  match findByName name l with
  | Some o => (Some o, None)
  | None => (None, Some (StatusNotFound name "apps" "objects"))
  end.

Definition clusterClient (f : Fetched) : Client :=
  {| GetPods := fun _ _ => (pods f, None);
     GetDeployments := fun _ => (dep f, None);
     GetReplicaSets := fun _ => (repset f, None);
     GetReplicationControllers := fun _ => (repcon f, None);
     GetDeploymentConfigs := fun _ => (depcon f, None);
     GetStatefulSets := fun _ => (fulset f, None);
     GetCronJobs := fun _ => (conjbs f, None);
     GetJobs := fun _ => (jbs f, None);
     GetDaemonSets := fun _ => (daeset f, None);
     GetDeployment := fun _ => getByName (dep f);
     GetDeploymentConfig := fun _ => getByName (depcon f);
     GetStatefulSet := fun _ => getByName (fulset f);
     GetDaemonSet := fun _ => getByName (daeset f);
     IsOpenShift := true |}.

(** A layer over the cluster [f]: no namespace is cached, no kind is
    excluded, the namespace check passes, selector strings do not parse. *)
Definition clusterLayer (f : Fetched) : Layer :=
  {| k8s := clusterClient f;
     kialiCache := clusterClient f;
     IsNamespaceCached := fun _ => false;
     excludedWorkloads := None;
     Namespace_GetNamespace := fun _ => None;
     ProxyStatus_GetPodProxyStatus := fun _ _ => (None, None);
     labels_Parse := fun _ => inr (OtherError "selector") |}.

(** A controller owner reference. *)
Definition ownedBy (name kind : string) : OwnerReference :=
  mkRef name kind (Some true).

(** The empty cluster, and a layer over it whose daemon-set listing
    fails while every other listing succeeds. *)
Definition emptyCluster : Fetched :=
  {| pods := []; dep := []; repset := []; repcon := []; depcon := [];
     fulset := []; conjbs := []; jbs := []; daeset := [] |}.

Definition daemonSetOutage : Layer :=
  let c := clusterClient emptyCluster in
  let failing :=
    {| GetPods := GetPods c; GetDeployments := GetDeployments c;
       GetReplicaSets := GetReplicaSets c;
       GetReplicationControllers := GetReplicationControllers c;
       GetDeploymentConfigs := GetDeploymentConfigs c;
       GetStatefulSets := GetStatefulSets c;
       GetCronJobs := GetCronJobs c; GetJobs := GetJobs c;
       GetDaemonSets := fun _ => ([], Some (OtherError "daemonsets unavailable"));
       GetDeployment := GetDeployment c;
       GetDeploymentConfig := GetDeploymentConfig c;
       GetStatefulSet := GetStatefulSet c;
       GetDaemonSet := GetDaemonSet c;
       IsOpenShift := true |} in
  {| k8s := failing;
     kialiCache := failing;
     IsNamespaceCached := fun _ => false;
     excludedWorkloads := None;
     Namespace_GetNamespace := fun _ => None;
     ProxyStatus_GetPodProxyStatus := fun _ _ => (None, None);
     labels_Parse := fun _ => inr (OtherError "selector") |}.

(** Does [l] hold an object named [n] that passes [P]? *)
Definition hasNamed (P : Object -> bool) (n : string) (l : list Object) : bool :=
  existsb (fun o => bool_decide (obj_Name o = n) && P o) l.

Definition unowned (o : Object) : bool :=
  Nat.eqb (length (obj_OwnerReferences o)) 0.

Definition rankTable : list (string * Z) :=
  [ ("Deployment", 6); ("DeploymentConfig", 5); ("ReplicaSet", 4);
    ("ReplicationController", 3); ("StatefulSet", 2); ("Job", 1);
    ("DaemonSet", 0); ("Pod", -1) ].

(** Does the fetched data hold, under the requested name, the object a
    branch of [fetchWorkload] looks for? The default branch looks for
    nothing. *)
Definition matched (f : Fetched1) (b : Branch) (workloadName : string) : bool :=
  let single (o : option Object) :=
    match o with
    | Some x => bool_decide (obj_Name x = workloadName)
    | None => false
    end in
  let listed (l : list Object) :=
    existsb (fun o => bool_decide (obj_Name o = workloadName)) l in
  match b with
  | BDeployment => single (dep1 f)
  | BReplicaSet => listed (repset1 f)
  | BReplicationController => listed (repcon1 f)
  | BDeploymentConfig => single (depcon1 f)
  | BStatefulSet => single (fulset1 f)
  | BPod => existsb (fun p => bool_decide (pod_Name p = workloadName)) (pods1 f)
  | BJob => listed (jbs1 f)
  | BCronJob => listed (conjbs1 f)
  | BDaemonSet => single (ds1 f)
  | BDefault => true
  end.

(** The requested name resolves: it is a key of the index, and the
    branch its kind (or the hint) selects finds its object. *)
Definition resolves (f : Fetched1) (controllers : gmap string string)
    (workloadName workloadType : string) : bool :=
  match controllers !! workloadName with
  | Some ctype => matched f (branchOf (controllerType ctype workloadType)) workloadName
  | None => false
  end.

(** Is [n] the name in a controller owner reference of the list? *)
Definition refersTo (n : string) (refs : list OwnerReference) : bool :=
  existsb (fun ref => isController ref && bool_decide (ref_Name ref = n)) refs.

(** Does some object (some pod) of the list carry a controller owner
    reference to the name [n]? *)
Definition namedBy (n : string) (l : list Object) : bool :=
  existsb (fun o => refersTo n (obj_OwnerReferences o)) l.

Definition namedByPod (n : string) (l : list Pod) : bool :=
  existsb (fun p => refersTo n (pod_OwnerReferences p)) l.

(** Is [n] the name of an object of the list? *)
Definition hasName (n : string) (l : list Object) : bool :=
  existsb (fun o => bool_decide (obj_Name o = n)) l.

(** The workloads of a successful [fetchWorkloads]. *)
Definition workloads (layer : Layer) (sched : list Task) (order : list string)
    (namespace labelSelector : string) : list Workload :=
  fst (fetchWorkloads layer sched order namespace labelSelector).

(** The cluster of the scenario: deployment [app1] owns replica-set
    [app1-abc123], which owns two pods; [orphan-pod] stands alone. *)
Definition orphanPod : Pod := mkPod "orphan-pod" ∅ [] [].

Definition app1ReplicaSet : Object :=
  mkObject "app1-abc123" {[ "app" := "app1" ]} [ownedBy "app1" "Deployment"].

Definition sampleCluster : Fetched :=
  {| pods := [ mkPod "app1-abc123-x1" {[ "app" := "app1" ]}
                 [ownedBy "app1-abc123" "ReplicaSet"] [];
               mkPod "app1-abc123-x2" {[ "app" := "app1" ]}
                 [ownedBy "app1-abc123" "ReplicaSet"] [];
               orphanPod ];
     dep := [ mkObject "app1" {[ "app" := "app1" ]} [] ];
     repset := [ app1ReplicaSet ];
     repcon := []; depcon := []; fulset := []; conjbs := []; jbs := [];
     daeset := [] |}.

(** A walk over the index built from the pods of [sampleCluster]. *)
Definition sampleOrder : list string := [ "app1-abc123"; "orphan-pod" ].

(** A cluster whose only pod has an owner reference that is not a
    controller reference. *)
Definition looselyOwnedPod : Pod :=
  mkPod "p1" ∅ [mkRef "node-1" "Node" None] [].

Definition looselyOwnedCluster : Fetched :=
  {| pods := [ looselyOwnedPod ];
     dep := []; repset := []; repcon := []; depcon := []; fulset := [];
     conjbs := []; jbs := []; daeset := [] |}.

(** No orphan loop can record the name [n]: no fetched deployment,
    deployment-config, stateful-set, daemon-set or replication-controller
    has that name, and every fetched replica-set of that name has owner
    references. *)
Definition noOrphanNamed (n : string) (f : Fetched) : bool :=
  negb (hasName n (dep f)) && negb (hasName n (depcon f))
  && negb (hasName n (fulset f)) && negb (hasName n (daeset f))
  && negb (hasName n (repcon f)) && negb (hasNamed unowned n (repset f)).

(** [sampleCluster] after its deployment is gone: the replica-set keeps
    its owner reference to [app1]. *)
Definition headlessCluster : Fetched :=
  {| pods := pods sampleCluster; dep := []; repset := repset sampleCluster;
     repcon := []; depcon := []; fulset := []; conjbs := []; jbs := [];
     daeset := [] |}.



(** A job whose cron-job is among the fetched cron-jobs, and one whose
    cron-job is gone. *)
Definition nightlyJob : Object :=
  mkObject "nightly-1" {[ "job-name" := "nightly-1" ]} [ownedBy "nightly" "CronJob"].

Definition strayJob : Object :=
  mkObject "stray-1" {[ "job-name" := "stray-1" ]} [ownedBy "stray" "CronJob"].

Definition jobCluster : Fetched :=
  {| pods := [ mkPod "nightly-1-x" {[ "job-name" := "nightly-1" ]}
                 [ownedBy "nightly-1" "Job"] [];
               mkPod "stray-1-x" {[ "job-name" := "stray-1" ]}
                 [ownedBy "stray-1" "Job"] [] ];
     dep := []; repset := []; repcon := []; depcon := []; fulset := [];
     conjbs := [ mkObject "nightly" {[ "job-name" := "nightly" ]} [] ];
     jbs := [ nightlyJob; strayJob ];
     daeset := [] |}.

Definition jobOrder : list string := [ "nightly-1"; "stray-1" ].

(** Every fetched controller object, of whatever kind. *)
Definition allControllers (f : Fetched) : list Object :=
  dep f ++ repset f ++ repcon f ++ depcon f ++ fulset f ++ jbs f ++ conjbs f
  ++ daeset f.

(** Do the pod-template labels of a fetched controller that is not named
    [n] select the pod? *)
Definition selectedByOther (n : string) (p : Pod) (f : Fetched) : bool :=
  existsb (fun o => negb (bool_decide (obj_Name o = n))
                    && AsSelector (obj_TemplateLabels o) (pod_Labels p))
          (allControllers f).

(** The pod has owner references, and its controller references all name
    [n]. *)
Definition ownedOnlyBy (n : string) (p : Pod) : bool :=
  negb (Nat.eqb (length (pod_OwnerReferences p)) 0)
  && forallb (fun ref => negb (isController ref) || bool_decide (ref_Name ref = n))
             (pod_OwnerReferences p).

(** [headlessCluster] next to a second deployment whose pod template
    carries the same label. *)
Definition canaryCluster : Fetched :=
  {| pods := pods sampleCluster;
     dep := [ mkObject "app1-canary" {[ "app" := "app1" ]} [] ];
     repset := repset sampleCluster;
     repcon := []; depcon := []; fulset := []; conjbs := []; jbs := [];
     daeset := [] |}.

(** A pod without owner references that shares its name with a
    stateful-set owning another pod. *)
Definition barePodDb : Pod := mkPod "db" ∅ [] [].

Definition sharedPodNameCluster : Fetched :=
  {| pods := [ barePodDb;
               mkPod "db-0" {[ "app" := "db" ]} [ownedBy "db" "StatefulSet"] [] ];
     dep := []; repset := []; repcon := []; depcon := [];
     fulset := [ mkObject "db" {[ "app" := "db" ]} [] ];
     conjbs := []; jbs := []; daeset := [] |}.

(** The walks Go may take over the index built from the pods of
    [sampleCluster] (and of the clusters that share its pods): the two
    keys present at the start in either order, with or without a visit of
    the key [app1] that the step on the replica-set adds. *)
Definition sampleWalks : list (list string) :=
  [ [ "app1-abc123"; "orphan-pod" ];
    [ "orphan-pod"; "app1-abc123" ];
    [ "app1-abc123"; "app1"; "orphan-pod" ];
    [ "app1-abc123"; "orphan-pod"; "app1" ];
    [ "orphan-pod"; "app1-abc123"; "app1" ] ].


(** A custom controller: the rollout [canary1] owns replica-set
    [canary1-796d9], which owns a pod. *)
Definition rolloutCluster : Fetched :=
  {| pods := [ mkPod "canary1-796d9-x1" {[ "app" := "canary1" ]}
                 [ownedBy "canary1-796d9" "ReplicaSet"] [] ];
     dep := [];
     repset := [ mkObject "canary1-796d9" {[ "app" := "canary1" ]}
                   [ownedBy "canary1" "Rollout"] ];
     repcon := []; depcon := []; fulset := []; conjbs := []; jbs := [];
     daeset := [] |}.

(** The owner references the index is built from: those of the pods and
    those of the fetched replica-sets, replication-controllers and jobs. *)
Definition ownerRefs (f : Fetched) : list OwnerReference :=
  flat_map pod_OwnerReferences (pods f)
  ++ flat_map obj_OwnerReferences (repset f ++ repcon f ++ jbs f).

(** The kinds the orphan loops record, each with the list it is recorded
    for. *)
Definition orphanLists (f : Fetched) : list (string * list Object) :=
  [ ("Deployment", dep f); ("ReplicaSet", repset f); ("DeploymentConfig", depcon f);
    ("ReplicationController", repcon f); ("StatefulSet", fulset f);
    ("DaemonSet", daeset f) ].

(** Where the kind [k] of the name [n] can come from: a pod of that name
    without owner references (kind "Pod"), a controller owner reference
    with that name and kind, or a fetched controller of that name in the
    list of an orphan loop. *)
Definition kindSource (f : Fetched) (n k : string) : Prop :=
  (k = "Pod" /\ exists p, p ∈ pods f /\ pod_Name p = n /\ pod_OwnerReferences p = [])
  \/ (exists ref, ref ∈ ownerRefs f /\ isController ref = true
                  /\ ref_Name ref = n /\ ref_Kind ref = k)
  \/ (exists l, (k, l) ∈ orphanLists f /\ hasName n l = true).

(** The kinds the [switch] of [fetchWorkloads] and [fetchWorkload] has a
    [case] for. *)
Definition switchKinds : list string :=
  [ kubernetes.DeploymentType; kubernetes.ReplicaSetType;
    kubernetes.ReplicationControllerType; kubernetes.DeploymentConfigType;
    kubernetes.StatefulSetType; kubernetes.PodType; kubernetes.JobType;
    kubernetes.CronJobType; kubernetes.DaemonSetType ].

(** Is [n] the name of a pod of the list that has no owner references? *)
Definition bareName (n : string) (l : list Pod) : bool :=
  existsb (fun p => bool_decide (pod_Name p = n)
                    && Nat.eqb (length (pod_OwnerReferences p)) 0) l.


(** ** [updateWorkload]: patching a workload *)

(** [layer.k8s.UpdateWorkload(namespace, workloadName, wkType, jsonPatch)]:
    what the cluster answers to the patch of one kind. *)
Definition Patcher := string -> string -> string -> string -> option error.

(** The slice [workloadTypes] of [updateWorkload], in its order. *)
Definition workloadTypes : list string :=
  [ kubernetes.DeploymentType; kubernetes.ReplicaSetType;
    kubernetes.ReplicationControllerType; kubernetes.DeploymentConfigType;
    kubernetes.StatefulSetType; kubernetes.JobType; kubernetes.CronJobType;
    kubernetes.PodType; kubernetes.DaemonSetType ].

(** The kinds a goroutine is started for: the hinted kind when the hint
    is one of [workloadTypes], all of them otherwise. *)
Definition updateTargets (workloadType : string) : list string :=
  if bool_decide (workloadType <> "")
  then
    let found := existsb (fun wt => bool_decide (workloadType = wt)) workloadTypes in
    if found then [workloadType] else workloadTypes
  else workloadTypes.

(** One goroutine of [updateWorkload]: the error it sends on [errChan]. *)
Definition updateOne (layer : Layer) (patch : Patcher)
    (namespace workloadName jsonPatch wkType : string) : option error :=
  let err := if isWorkloadIncluded layer wkType
             then patch namespace workloadName wkType jsonPatch
             else None in
  match err with
  | Some e => if negb (IsNotFound e) then Some e else None
  | None => None
  end.

(** [updateWorkload]. [sched] is the order in which the goroutines ran,
    a permutation of [updateTargets workloadType]. *)
Definition updateWorkload (layer : Layer) (patch : Patcher) (sched : list string)
    (namespace workloadName workloadType jsonPatch : string) : option error :=
  match Namespace_GetNamespace layer namespace with
  | Some err => Some err
  | None =>
      match omap (updateOne layer patch namespace workloadName jsonPatch) sched with
      | err :: _ => Some err
      | [] => None
      end
  end.

(** A patcher that finds the workload under no kind, and a layer that
    excludes jobs. *)
Definition nowhere : Patcher :=
  fun _ workloadName wkType _ => Some (StatusNotFound workloadName "apps" wkType).

Definition noJobsLayer : Layer :=
  let l := clusterLayer emptyCluster in
  {| k8s := k8s l; kialiCache := kialiCache l;
     IsNamespaceCached := IsNamespaceCached l;
     excludedWorkloads := Some {[ "Job" := true ]};
     Namespace_GetNamespace := Namespace_GetNamespace l;
     ProxyStatus_GetPodProxyStatus := ProxyStatus_GetPodProxyStatus l;
     labels_Parse := labels_Parse l |}.

(** ** Applications (package business, apps) *)

(** One turn of the loop of [joinMap]. [m1[k]] reads nil for a missing
    key, and [append] to nil starts the list. *)
Definition joinEntry (m1 : gmap string (list string)) (entry : string * string)
    : gmap string (list string) :=
  let '(k, v2) := entry in
  let dup := existsb (fun v1 => bool_decide (v1 = v2)) (default [] (m1 !! k)) in
  if negb dup then <[k := default [] (m1 !! k) ++ [v2]]> m1 else m1.

(** [joinMap]. [range] is the order in which the loop visits the entries
    of [m2], a permutation of them. *)
Definition joinMap (m1 : gmap string (list string)) (range : list (string * string))
    : gmap string (list string) :=
  foldl joinEntry m1 range.

(** [buildFinalLabels]: [sort.Strings] then [strings.Join(list, ",")]. No
    turn of the loop reads what another wrote, so the order of the loop
    does not show. *)
Definition buildFinalLabels (m : gmap string (list string)) : gmap string string :=
  (fun list => String.concat "," (merge_sort string_le list)) <$> m.

(** The labels of an application item in [GetAppList]: [joinMap] over the
    labels of its services, then of its workloads, then
    [buildFinalLabels]. [ranges] holds the entries of each label map in
    the order its loop visits them. *)
Definition appLabels (ranges : list (list (string * string))) : gmap string string :=
  buildFinalLabels (foldl joinMap ∅ ranges).

(** What the labels of an application item are built from: the pairs of
    the label maps. *)
Definition labelled (srcs : list (gmap string string)) (k v : string) : Prop :=
  exists m, m ∈ srcs /\ m !! k = Some v.

(** [core_v1.Service], with the fields the application code reads. *)
Record Service := mkService {
  svc_Name : string;
  svc_Labels : gmap string string;
  svc_Selector : gmap string string
}.

Record appDetails := mkAppDetails {
  app : string;
  Services : list Service;
  Workloads : list Workload
}.

(** First loop of [castAppDetails]. The map holds pointers; the update
    through the pointer is written as a store under the same key. *)
Definition castService (appLabel : string) (allEntities : gmap string appDetails)
    (service : Service) : gmap string appDetails :=
  match svc_Selector service !! appLabel with
  | Some a =>
      match allEntities !! a with
      | Some appEntities =>
          <[a := {| app := app appEntities;
                    Services := Services appEntities ++ [service];
                    Workloads := Workloads appEntities |}]> allEntities
      | None =>
          <[a := {| app := a; Services := [service]; Workloads := [] |}]> allEntities
      end
  | None => allEntities
  end.

(** Second loop of [castAppDetails]. *)
Definition castWorkload (appLabel : string) (allEntities : gmap string appDetails)
    (w : Workload) : gmap string appDetails :=
  match w_Labels w !! appLabel with
  | Some a =>
      match allEntities !! a with
      | Some appEntities =>
          <[a := {| app := app appEntities;
                    Services := Services appEntities;
                    Workloads := Workloads appEntities ++ [w] |}]> allEntities
      | None =>
          <[a := {| app := a; Services := []; Workloads := [w] |}]> allEntities
      end
  | None => allEntities
  end.

(** [castAppDetails]; [appLabel] is [config.Get().IstioLabels.AppLabelName]. *)
Definition castAppDetails (appLabel : string) (services : list Service)
    (ws : list Workload) : gmap string appDetails :=
  foldl (castWorkload appLabel) (foldl (castService appLabel) ∅ services) ws.

(** The services and the workloads of one application. *)
Definition servicesOf (appLabel a : string) (services : list Service) : list Service :=
  filter (fun s => svc_Selector s !! appLabel = Some a) services.

Definition workloadsOf (appLabel a : string) (ws : list Workload) : list Workload :=
  filter (fun w => w_Labels w !! appLabel = Some a) ws.

(** The invariant of the label lists: under each key the distinct values
    some source gives it. *)
Definition holds (m : gmap string (list string)) (R : string -> string -> Prop) : Prop :=
  forall k,
    match m !! k with
    | Some l => NoDup l /\ (exists v, R k v) /\ forall v, v ∈ l <-> R k v
    | None => forall v, ~ R k v
    end.


(** ** Pod logs *)

(** [time.Duration] and [time.Time]. An instant is a number whose meaning
    is left to the operations of the library below. *)
Definition time_Duration := Z.
Definition time_Time := Z.

(** The fields of the access log of the engarde parser that
    [getParsedLogs] reads or clears. *)
Record AccessLog := mkAccessLog {
  al_Timestamp : string;
  al_MixerStatus : string;
  al_OriginalMessage : string;
  al_ParseError : string
}.

(** The library calls of the log code: packages time, strconv, strings,
    fmt, regexp and the engarde parser. A pair of a value and an error is
    what the call returns. *)
Record Lib := mkLib {
  time_ParseDuration : string -> time_Duration * option error;
  strconv_ParseInt : string -> Z * option error;
  time_Unix : Z -> time_Time;
  time_Parse : string -> time_Time * option error;
  Time_Add : time_Time -> time_Duration -> time_Time;
  Time_After : time_Time -> time_Time -> bool;
  Time_Unix : time_Time -> Z;
  Time_Sprintf : time_Time -> string;
  Duration_String : time_Duration -> string;
  error_Error : error -> string;
  strings_TrimSpace : string -> string;
  strings_Trim : string -> string -> string;
  strings_ToUpper : string -> string;
  severityRegexp_FindString : string -> string;
  engardeParser_Parse : string -> AccessLog * option error
}.

(** The separators of the log code: newline, space, dot; and the sign of
    a number. *)
Definition byte_newline : Ascii.ascii := Ascii.ascii_of_nat 10.
Definition byte_space : Ascii.ascii := Ascii.ascii_of_nat 32.
Definition byte_dot : Ascii.ascii := Ascii.ascii_of_nat 46.
Definition byte_minus : Ascii.ascii := Ascii.ascii_of_nat 45.

(** [strings.Split(s, sep)] and [strings.SplitN(s, sep, 2)] for a
    separator of one byte. *)
Fixpoint Split (s : string) (sep : Ascii.ascii) : list string :=
  match s with
  | EmptyString => [EmptyString]
  | String c s' =>
      if Ascii.eqb c sep then EmptyString :: Split s' sep
      else match Split s' sep with
           | h :: t => String c h :: t
           | [] => [String c EmptyString]
           end
  end.

Fixpoint SplitN2 (s : string) (sep : Ascii.ascii) : list string :=
  match s with
  | EmptyString => [EmptyString]
  | String c s' =>
      if Ascii.eqb c sep then [EmptyString; s']
      else match SplitN2 s' sep with
           | h :: t => String c h :: t
           | [] => [String c EmptyString]
           end
  end.

Record PodLogOptions := mkPodLogOptions {
  plo_Container : string;
  plo_Timestamps : bool;
  plo_SinceTime : option time_Time;
  plo_TailLines : option Z
}.

Record LogOptions := mkLogOptions {
  lo_Duration : option time_Duration;
  lo_IsProxy : bool;
  lo_PodLogOptions : PodLogOptions
}.

(** [fmt.Errorf("Invalid <what> [%s]: %v", arg, err)]. *)
Definition Errorf (lib : Lib) (what arg : string) (err : error) : error :=
  OtherError ("Invalid " ++ what ++ " [" ++ arg ++ "]: " ++ error_Error lib err).

(** [BuildLogOptionsCriteria]. In the block of the duration the name
    [duration] is redeclared, so the message of its error prints the
    parsed value, not the text that was given. *)
Definition BuildLogOptionsCriteria (lib : Lib)
    (container duration isProxy sinceTime tailLines : string)
    : option LogOptions * option error :=
  let Container := if bool_decide (container <> "") then container else "" in
  let parsedDuration :=
    if bool_decide (duration <> "")
    then match time_ParseDuration lib duration with
         | (d, Some err) => inr (Errorf lib "duration" (Duration_String lib d) err)
         | (d, None) => inl (Some d)
         end
    else inl None in
  match parsedDuration with
  | inr err => (None, Some err)
  | inl Duration =>
      let IsProxy := bool_decide (isProxy = "true") in
      let parsedSinceTime :=
        if bool_decide (sinceTime <> "")
        then match strconv_ParseInt lib sinceTime with
             | (numTime, Some err) => inr (Errorf lib "sinceTime" sinceTime err)
             | (numTime, None) => inl (Some (time_Unix lib numTime))
             end
        else inl None in
      match parsedSinceTime with
      | inr err => (None, Some err)
      | inl SinceTime =>
          let parsedTailLines :=
            if bool_decide (tailLines <> "")
            then match strconv_ParseInt lib tailLines with
                 | (numLines, None) =>
                     if numLines >? 0 then inl (Some numLines) else inl None
                 | (numLines, Some err) => inr (Errorf lib "tailLines" tailLines err)
                 end
            else inl None in
          match parsedTailLines with
          | inr err => (None, Some err)
          | inl TailLines =>
              (Some {| lo_Duration := Duration;
                       lo_IsProxy := IsProxy;
                       lo_PodLogOptions :=
                         {| plo_Container := Container;
                            plo_Timestamps := true;
                            plo_SinceTime := SinceTime;
                            plo_TailLines := TailLines |} |},
               None)
          end
      end
  end.

Record LogEntry := mkLogEntry {
  le_Message : string;
  le_Severity : string;
  le_Timestamp : string;
  le_TimestampUnix : Z;
  le_AccessLog : option AccessLog
}.

Record PodLog := mkPodLog { Entries : list LogEntry }.

(** The variables the loop of [getParsedLogs] carries from line to line. *)
Record LogLoop := mkLogLoop {
  ll_entries : list LogEntry;
  ll_startTime : option time_Time;
  ll_endTime : option time_Time
}.

(** How a turn of the loop ends: it falls through or [continue]s, or it
    [break]s. *)
Inductive Flow :=
| Next (st : LogLoop)
| Break (st : LogLoop).

(** One turn of the loop of [getParsedLogs]. [startTime] points at the
    variable [parsedTimestamp] of the turn that sets it, so it ends up
    with the last value that turn gives the variable. *)
Definition logLine (lib : Lib) (opts : LogOptions) (st : LogLoop) (line : string) : Flow :=
  match SplitN2 line byte_space with
  | [s0; s1] =>
      let splittedTimestamp := Split s0 byte_dot in
      let Timestamp :=
        if Nat.eqb (length splittedTimestamp) 1
        then hd EmptyString splittedTimestamp
        else (hd EmptyString splittedTimestamp ++ "Z")%string in
      let Message := strings_TrimSpace lib s1 in
      if bool_decide (Message = EmptyString) then Next st
      else
        match time_Parse lib Timestamp with
        | (parsedTimestamp, None) =>
            let fresh := bool_decide (ll_startTime st = None) in
            let endTime :=
              match lo_Duration opts, ll_endTime st with
              | Some d, None => Some (Time_Add lib parsedTimestamp d)
              | _, e => e
              end in
            let past :=
              match lo_Duration opts, endTime with
              | Some _, Some e => Time_After lib parsedTimestamp e
              | _, _ => false
              end in
            if past
            then Break {| ll_entries := ll_entries st;
                          ll_startTime := if fresh then Some parsedTimestamp
                                          else ll_startTime st;
                          ll_endTime := endTime |}
            else
              let severity := severityRegexp_FindString lib line in
              let Severity := if bool_decide (severity <> EmptyString)
                              then strings_ToUpper lib severity else "INFO" in
              let '(accessLog, parsedTimestamp) :=
                if lo_IsProxy opts
                then match engardeParser_Parse lib Message with
                     | (al, None) =>
                         (Some {| al_Timestamp := al_Timestamp al;
                                  al_MixerStatus := "";
                                  al_OriginalMessage := "";
                                  al_ParseError := "" |},
                          match time_Parse lib (al_Timestamp al) with
                          | (t, None) => t
                          | (_, Some _) => parsedTimestamp
                          end)
                     | (_, Some _) =>
                         let tokens := SplitN2 Message byte_space in
                         let timestampToken :=
                           strings_Trim lib (hd EmptyString tokens) "[]" in
                         (None,
                          match time_Parse lib timestampToken with
                          | (t, None) => t
                          | (_, Some _) => parsedTimestamp
                          end)
                     end
                else (None, parsedTimestamp) in
              let entry := {| le_Message := Message;
                              le_Severity := Severity;
                              le_Timestamp := Time_Sprintf lib parsedTimestamp;
                              le_TimestampUnix := Time_Unix lib parsedTimestamp;
                              le_AccessLog := accessLog |} in
              Next {| ll_entries := ll_entries st ++ [entry];
                      ll_startTime := if fresh then Some parsedTimestamp
                                      else ll_startTime st;
                      ll_endTime := endTime |}
        | (_, Some _) => Next st
        end
  | _ => Next st
  end.

Fixpoint logLines (lib : Lib) (opts : LogOptions) (st : LogLoop) (lines : list string)
    : LogLoop :=
  match lines with
  | [] => st
  | line :: lines =>
      match logLine lib opts st line with
      | Next st => logLines lib opts st lines
      | Break st => st
      end
  end.

(** A call returns or panics. *)
Inductive Outcome (A : Type) :=
| Returns (a : A)
| Panics.

Arguments Returns {A} a.
Arguments Panics {A}.

(** The slice expression [entries[low:]], which panics when [low] is out
    of range. *)
Definition sliceFrom {A} (entries : list A) (low : Z) : Outcome (list A) :=
  if (low <? 0) || (Z.of_nat (length entries) <? low)
  then Panics
  else Returns (drop (Z.to_nat low) entries).

(** [in.k8s.GetPodLogs(namespace, name, &k8sOpts)]: the text of the log. *)
Definition LogReader := string -> string -> PodLogOptions -> string * option error.

(** [getParsedLogs]. Taking [tailLines] from [len(entries)] leaves the
    range of [int] only for a negative [tailLines], where the slice
    expression panics with the wrapped value as with the exact one. *)
Definition getParsedLogs (lib : Lib) (GetPodLogs : LogReader)
    (namespace name : string) (opts : LogOptions)
    : Outcome (option PodLog * option error) :=
  let k8sOpts := lo_PodLogOptions opts in
  let isBounded := bool_decide (lo_Duration opts <> None) in
  let tailLines := plo_TailLines k8sOpts in
  let k8sOpts :=
    if isBounded
    then {| plo_Container := plo_Container k8sOpts;
            plo_Timestamps := plo_Timestamps k8sOpts;
            plo_SinceTime := plo_SinceTime k8sOpts;
            plo_TailLines := None |}
    else k8sOpts in
  match GetPodLogs namespace name k8sOpts with
  | (_, Some err) => Returns (None, Some err)
  | (logs, None) =>
      let lines := Split logs byte_newline in
      let st := logLines lib opts
                  {| ll_entries := [];
                     ll_startTime := plo_SinceTime k8sOpts;
                     ll_endTime := None |} lines in
      let entries := ll_entries st in
      let sliced :=
        match tailLines with
        | Some n =>
            if isBounded && (Z.of_nat (length entries) >? n)
            then sliceFrom entries (Z.of_nat (length entries) - n)
            else Returns entries
        | None => Returns entries
        end in
      match sliced with
      | Returns entries => Returns (Some {| Entries := entries |}, None)
      | Panics => Panics
      end
  end.

(** [GetPodLogs]. *)
Definition GetPodLogs (lib : Lib) (reader : LogReader)
    (namespace name : string) (opts : LogOptions)
    : Outcome (option PodLog * option error) :=
  getParsedLogs lib reader namespace name opts.

(** The options with another [TailLines]. *)
Definition withTailLines (tailLines : option Z) (opts : LogOptions) : LogOptions :=
  {| lo_Duration := lo_Duration opts;
     lo_IsProxy := lo_IsProxy opts;
     lo_PodLogOptions :=
       {| plo_Container := plo_Container (lo_PodLogOptions opts);
          plo_Timestamps := plo_Timestamps (lo_PodLogOptions opts);
          plo_SinceTime := plo_SinceTime (lo_PodLogOptions opts);
          plo_TailLines := tailLines |} |}.

(** A small library for the examples: numbers are written in decimal,
    an instant and a duration are a count of seconds. *)
Definition digit (c : Ascii.ascii) : option Z :=
  let n := Z.of_nat (Ascii.nat_of_ascii c) in
  if (48 <=? n) && (n <=? 57) then Some (n - 48) else None.

Fixpoint decimal (acc : Z) (s : string) : option Z :=
  match s with
  | EmptyString => Some acc
  | String c s' =>
      match digit c with
      | Some d => decimal (10 * acc + d) s'
      | None => None
      end
  end.

Definition parseDecimal (s : string) : Z * option error :=
  match s with
  | EmptyString => (0, Some (OtherError "invalid syntax"))
  | String c s' =>
      if Ascii.eqb c byte_minus
      then match s', decimal 0 s' with
           | String _ _, Some n => (- n, None)
           | _, _ => (0, Some (OtherError "invalid syntax"))
           end
      else match decimal 0 s with
           | Some n => (n, None)
           | None => (0, Some (OtherError "invalid syntax"))
           end
  end.

Definition secondsLib : Lib :=
  {| time_ParseDuration := parseDecimal;
     strconv_ParseInt := parseDecimal;
     time_Unix := fun n => n;
     time_Parse := parseDecimal;
     Time_Add := fun t d => t + d;
     Time_After := fun t u => u <? t;
     Time_Unix := fun t => t;
     Time_Sprintf := fun _ => "";
     Duration_String := fun _ => "";
     error_Error := fun _ => "";
     strings_TrimSpace := fun s => s;
     strings_Trim := fun s _ => s;
     strings_ToUpper := fun s => s;
     severityRegexp_FindString := fun _ => "";
     engardeParser_Parse := fun _ =>
       ({| al_Timestamp := ""; al_MixerStatus := "";
           al_OriginalMessage := ""; al_ParseError := "" |},
        Some (OtherError "no match")) |}.

(** A pod that logged three lines, at the seconds 1, 2 and 9. *)
Definition threeLines : LogReader :=
  fun _ _ _ => ("1 started" ++ String byte_newline "2 ready" ++ String byte_newline "9 stopped", None)%string.

(** An entry with a message. *)
Definition nonEmptyMessage (e : LogEntry) : Prop := le_Message e <> "".

(** ** The earlier revision of the resolver

    The file also holds an earlier revision of [fetchWorkloads] and
    [fetchWorkload]. It takes the client itself, lists pods and
    deployments only, and checks no namespace. *)
Module Older.

Inductive Task :=
| TPods
| TDeployments.

(** The error a goroutine of [fetchWorkloads] sends on [errChan]. *)
Definition sent (k8s : Client) (namespace labelSelector : string) (t : Task)
    : option error :=
  match t with
  | TPods => snd (GetPods k8s namespace labelSelector)
  | TDeployments => snd (GetDeployments k8s namespace)
  end.

(** "Find controllers from pods": only a pod without owner references is
    recorded. *)
Definition scanPod (controllers : gmap string string) (pod : Pod) : gmap string string :=
  if Nat.eqb (length (pod_OwnerReferences pod)) 0
  then match controllers !! pod_Name pod with
       | None => <[pod_Name pod := "Pod"]> controllers
       | Some _ => controllers
       end
  else controllers.

(** [labels_Parse] is the library parser of selector strings. *)
Definition parseSelector (labels_Parse : string -> Selector + error)
    (labelSelector : string) : option Selector :=
  if bool_decide (labelSelector <> "")
  then match labels_Parse labelSelector with
       | inl selector => Some selector
       | inr selErr => None
       end
  else None.

Definition controllerIndex (selector : option Selector) (pods : list Pod)
    (dep : list Object) : gmap string string :=
  foldl (addOrphan selector "Deployment") (foldl scanPod ∅ pods) dep.

(** The [default] case of the switch. *)
Definition fromController (pods : list Pod) (cname ctype : string) (w : Workload)
    : Workload * bool :=
  let cPods := FilterPodsForController cname ctype pods in
  (ParsePods (SetPods w cPods) cname ctype cPods, true).

Definition switchWorkloads (pods : list Pod) (dep : list Object)
    (cname ctype : string) (w : Workload) : Workload * bool :=
  if bool_decide (ctype = "Deployment")
  then fromSelector ParseDeployment dep pods cname w
  else if bool_decide (ctype = "Pod")
  then fromPod pods cname w
  else fromController pods cname ctype w.

Definition buildWorkload (pods : list Pod) (dep : list Object)
    (controllers : gmap string string) (cname : string) : option Workload :=
  let ctype := default "" (controllers !! cname) in
  let '(w, cnFound) := switchWorkloads pods dep cname ctype emptyWorkload in
  if cnFound then Some w else None.

(** [fetchWorkloads] of the earlier revision. [sched] is the order in
    which the two goroutines ran. *)
Definition fetchWorkloads (k8s : Client) (labels_Parse : string -> Selector + error)
    (sched : list Task) (namespace labelSelector : string)
    : list Workload * option error :=
  match omap (sent k8s namespace labelSelector) sched with
  | err :: _ => ([], Some err)
  | [] =>
      let pods := fst (GetPods k8s namespace labelSelector) in
      let dep := fst (GetDeployments k8s namespace) in
      let controllers :=
        controllerIndex (parseSelector labels_Parse labelSelector) pods dep in
      (omap (buildWorkload pods dep controllers) (sortedNames controllers), None)
  end.

(** The first controller owner reference of the pod that names the
    workload: the inner loop of the search of [fetchWorkload]. *)
Definition controllerNamed (workloadName : string) (pod : Pod) : option OwnerReference :=
  List.find (fun ref => isController ref && bool_decide (ref_Name ref = workloadName))
            (pod_OwnerReferences pod).

(** The search loop of [fetchWorkload]: [ctype], and the pod at
    [iFound] when [found]. *)
Fixpoint scan (workloadName : string) (pods : list Pod) : string * option Pod :=
  match pods with
  | [] => ("", None)
  | pod :: rest =>
      if bool_decide (pod_Name pod = workloadName)
      then ("Pod", Some pod)
      else
        let ctype := match controllerNamed workloadName pod with
                     | Some ref => ref_Kind ref
                     | None => ""
                     end in
        if bool_decide (ctype <> "") then (ctype, None) else scan workloadName rest
  end.

(** [fetchWorkload] of the earlier revision. Only the goroutine of the
    pods sends its error; a failing [GetDeployment] leaves [dp] nil. *)
Definition fetchWorkload (k8s : Client) (namespace workloadName : string)
    : Workload * option error :=
  let wl := emptyWorkload in
  let '(pods, err) := GetPods k8s namespace "" in
  let dp := match GetDeployment k8s namespace workloadName with
            | (dp, None) => dp
            | (_, Some _) => None
            end in
  match err with
  | Some err => (wl, Some err)
  | None =>
      match dp with
      | Some dp =>
          let selector := AsSelector (obj_TemplateLabels dp) in
          (ParseDeployment (SetPods wl (FilterPodsForSelector selector pods)) dp, None)
      | None =>
          match scan workloadName pods with
          | (ctype, Some pod) =>
              if bool_decide (ctype = "Pod")
              then (SetPods (ParsePod wl pod) [pod], None)
              else if bool_decide (ctype <> "")
              then let cPods := FilterPodsForController workloadName ctype pods in
                   (SetPods (ParsePods wl workloadName ctype cPods) cPods, None)
              else (wl, Some (NewNotFound "kiali" "workload" workloadName))
          | (ctype, None) =>
              if bool_decide (ctype <> "")
              then let cPods := FilterPodsForController workloadName ctype pods in
                   (SetPods (ParsePods wl workloadName ctype cPods) cPods, None)
              else (wl, Some (NewNotFound "kiali" "workload" workloadName))
          end
      end
  end.

(** A pod leads the search to the workload: it has its name, or its
    first controller reference to that name carries a kind. *)
Definition leadsTo (workloadName : string) (pod : Pod) : Prop :=
  pod_Name pod = workloadName
  \/ exists ref, controllerNamed workloadName pod = Some ref /\ ref_Kind ref <> "".

End Older.

(** The kinds whose listing [fetchWorkloads] skips when
    [isWorkloadIncluded] answers false. *)
Definition excludableKinds : list string :=
  [ kubernetes.ReplicationControllerType; kubernetes.DeploymentConfigType;
    kubernetes.StatefulSetType; kubernetes.CronJobType; kubernetes.JobType;
    kubernetes.DaemonSetType ].

(** The layer with the configuration excluding the kinds [m] marks. *)
Definition excluding (m : gmap string bool) (l : Layer) : Layer :=
  {| k8s := k8s l; kialiCache := kialiCache l;
     IsNamespaceCached := IsNamespaceCached l;
     excludedWorkloads := Some m;
     Namespace_GetNamespace := Namespace_GetNamespace l;
     ProxyStatus_GetPodProxyStatus := ProxyStatus_GetPodProxyStatus l;
     labels_Parse := labels_Parse l |}.

(** The index covers the owner references [seen]: for every controller
    reference it holds the name, with a kind of at least the reference's
    rank. *)
Definition covers (controllers : gmap string string) (seen : list OwnerReference) : Prop :=
  forall ref, ref ∈ seen -> isController ref = true ->
    exists k, controllers !! ref_Name ref = Some k /\ rank (ref_Kind ref) <= rank k.

(** * Properties *)

(** ** The scenarios of the specification *)

(** One deployment with its replica-set and two pods, and a pod that
    stands alone: one workload each. *)
Example fetchWorkloads_sampleCluster :
  map (fun w => (w_Name w, w_Type w, map mp_Name (w_Pods w)))
      (workloads (clusterLayer sampleCluster) allTasks sampleOrder "ns1" "")
  = [ ("app1", "Deployment", ["app1-abc123-x1"; "app1-abc123-x2"]);
      ("orphan-pod", "Pod", ["orphan-pod"]) ].
Proof. by vm_compute. Qed.

(** A custom controller keeps its kind and borrows the labels of the
    replica-set whose name starts with its name. *)
Example fetchWorkloads_rolloutCluster :
  map (fun w => (w_Name w, w_Type w, w_Labels w))
      (workloads (clusterLayer rolloutCluster) allTasks ["canary1-796d9"] "ns1" "")
  = [ ("canary1", "Rollout", {[ "app" := "canary1" ]}) ].
Proof. by vm_compute. Qed.

(** A name that names nothing. *)
Example fetchWorkload_missing :
  fetchWorkload (clusterLayer sampleCluster) allTasks sampleOrder "ns1" "nope" ""
  = (Some emptyWorkload, Some (StatusNotFound "nope" "Kiali" "Workload")).
Proof. by vm_compute. Qed.

(** ** The rank table *)

Lemma controllerOrder_lookup k z :
  controllerOrder !! k = Some z <-> (k, z) ∈ rankTable.
Proof.
  unfold controllerOrder. fold rankTable.
  rewrite <- elem_of_list_to_map; [done|].
  apply (bool_decide_unpack _). by vm_compute.
Qed.

Lemma rank_unranked u : controllerOrder !! u = None -> rank u = 0.
Proof. unfold rank, lookup2. by intros ->. Qed.

Lemma rank_ranked k z : controllerOrder !! k = Some z -> rank k = z.
Proof. unfold rank, lookup2. by intros ->. Qed.

Lemma controllerPriority_unfold a b :
  controllerPriority a b = if rank b <=? rank a then a else b.
Proof.
  unfold controllerPriority, rank.
  destruct (lookup2 controllerOrder a), (lookup2 controllerOrder b).
  by rewrite Z.geb_leb.
Qed.

Lemma rank_bounds k : -1 <= rank k <= 6.
Proof.
  destruct (controllerOrder !! k) as [z|] eqn:E.
  - rewrite (rank_ranked _ _ E). apply controllerOrder_lookup in E.
    unfold rankTable in E.
    repeat (apply elem_of_cons in E as [E|E]; [simplify_eq; lia|]).
    by apply elem_of_nil in E.
  - rewrite (rank_unranked _ E). lia.
Qed.

Lemma rank_Deployment : rank "Deployment" = 6.
Proof. reflexivity. Qed.

(** A name of rank 6 is "Deployment". *)
Lemma rank_6 k : rank k = 6 -> k = "Deployment".
Proof.
  destruct (controllerOrder !! k) as [z|] eqn:E.
  - rewrite (rank_ranked _ _ E). intros ->. apply controllerOrder_lookup in E.
    unfold rankTable in E.
    repeat (apply elem_of_cons in E as [E|E]; [by simplify_eq|]).
    by apply elem_of_nil in E.
  - rewrite (rank_unranked _ E). lia.
Qed.

(** Nothing beats a deployment, whichever side it is on. *)
Lemma controllerPriority_Deployment_l k :
  controllerPriority "Deployment" k = "Deployment".
Proof.
  rewrite controllerPriority_unfold, rank_Deployment.
  pose proof (rank_bounds k). by destruct (Z.leb_spec (rank k) 6); [|lia].
Qed.

Lemma controllerPriority_Deployment_r k :
  controllerPriority k "Deployment" = "Deployment".
Proof.
  rewrite controllerPriority_unfold, rank_Deployment.
  destruct (Z.leb_spec 6 (rank k)); [|done].
  pose proof (rank_bounds k). apply rank_6. lia.
Qed.

(** C4, as stated, fails: an unranked kind is compared with rank 0, so it
    beats "Pod" (rank -1). *)
Lemma controllerPriority_unranked_not_lowest :
  ~ (forall u r, controllerOrder !! u = None -> r ∈ rankedKinds ->
       controllerPriority u r = r /\ controllerPriority r u = r).
Proof.
  intros H. destruct (H "Rollout" "Pod") as [H1 _].
  - reflexivity.
  - apply (bool_decide_unpack _). by vm_compute.
  - vm_compute in H1. discriminate.
Qed.

(** C4, amended: [controllerOrder] is exactly the table Deployment=6,
    DeploymentConfig=5, ReplicaSet=4, ReplicationController=3,
    StatefulSet=2, Job=1, DaemonSet=0, Pod=-1; [controllerPriority]
    returns one of its arguments, one of highest rank; a kind missing
    from the table is compared with rank 0: against a kind of positive
    rank the ranked kind wins in both orders, against "DaemonSet" the
    first argument wins, and against "Pod" the unranked kind wins in both
    orders. *)
Theorem controllerPriority_rank_table :
  (forall k z, controllerOrder !! k = Some z <-> (k, z) ∈ rankTable)
  /\ (forall a b, (controllerPriority a b = a \/ controllerPriority a b = b)
                  /\ rank (controllerPriority a b) = Z.max (rank a) (rank b))
  /\ (forall u, controllerOrder !! u = None ->
        rank u = 0
        /\ (forall r, 0 < rank r ->
              controllerPriority u r = r /\ controllerPriority r u = r)
        /\ (controllerPriority u "DaemonSet" = u
            /\ controllerPriority "DaemonSet" u = "DaemonSet")
        /\ (controllerPriority u "Pod" = u /\ controllerPriority "Pod" u = u)).
Proof.
  split; [apply controllerOrder_lookup|]. split.
  - intros a b. rewrite controllerPriority_unfold.
    destruct (Z.leb_spec (rank b) (rank a)); (split; [auto|lia]).
  - intros u Hu. pose proof (rank_unranked u Hu) as Hr.
    split; [done|]. split; [|split].
    + intros r Hpos. rewrite !controllerPriority_unfold, Hr.
      destruct (Z.leb_spec (rank r) 0); [lia|].
      by destruct (Z.leb_spec 0 (rank r)); [|lia].
    + rewrite !controllerPriority_unfold, Hr. by change (rank "DaemonSet") with 0.
    + rewrite !controllerPriority_unfold, Hr. by change (rank "Pod") with (-1).
Qed.


(** ** The fetch phase of [fetchWorkloads] *)

(** Eight of the nine goroutines send the error of their listing call. *)
Lemma sent_fetchError layer namespace labelSelector t :
  t <> TDaemonSets ->
  sent layer namespace labelSelector t = fetchError layer namespace labelSelector t.
Proof.
  intros Ht. destruct t; try done; simpl;
    unfold goReplicationControllers, goDeploymentConfigs, goStatefulSets,
      goCronJobs, goJobs;
    by repeat case_match.
Qed.

(** The daemon-set goroutine sends nothing, whatever its call returned. *)
Lemma sent_DaemonSets layer namespace labelSelector :
  sent layer namespace labelSelector TDaemonSets = None.
Proof. simpl. unfold goDaemonSets. by case_match. Qed.

(** When the namespace check passes and a goroutine other than the
    daemon-set one meets an error, [fetchWorkloads] returns an error it
    was sent and the empty list. *)
Lemma fetchWorkloads_all_or_nothing layer sched order namespace labelSelector t e :
  Namespace_GetNamespace layer namespace = None ->
  t ∈ sched -> t <> TDaemonSets ->
  fetchError layer namespace labelSelector t = Some e ->
  exists t' e', t' ∈ sched
    /\ fetchError layer namespace labelSelector t' = Some e'
    /\ fetchWorkloads layer sched order namespace labelSelector = ([], Some e').
Proof.
  intros Hns Hin Ht He. unfold fetchWorkloads. rewrite Hns.
  rewrite <- sent_fetchError in He by done.
  destruct (errChan layer namespace labelSelector sched) as [|e' es] eqn:Ech.
  - assert (e ∈ errChan layer namespace labelSelector sched) as Hmem
      by (apply list_elem_of_omap; eauto).
    rewrite Ech in Hmem. by apply elem_of_nil in Hmem.
  - assert (e' ∈ errChan layer namespace labelSelector sched) as Hmem
      by (rewrite Ech; apply elem_of_cons; auto).
    apply list_elem_of_omap in Hmem as (t' & Ht' & Hs).
    exists t', e'. split; [done|]. split; [|done].
    destruct (decide (t' = TDaemonSets)) as [->|Hne].
    + by rewrite sent_DaemonSets in Hs.
    + by rewrite <- sent_fetchError.
Qed.

(** C6 at the failing input: the daemon-set listing returns an error,
    nothing reaches [errChan], and [fetchWorkloads] returns a nil error
    with the workloads it built. *)
Theorem fetchWorkloads_daemonset_error_not_forwarded :
  fetchError daemonSetOutage "ns1" "" TDaemonSets
    = Some (OtherError "daemonsets unavailable")
  /\ errChan daemonSetOutage "ns1" "" allTasks = []
  /\ fetchWorkloads daemonSetOutage allTasks [] "ns1" "" = ([], None).
Proof. by vm_compute. Qed.

(** ** Controllers without pods *)

Lemma foldl_pointwise {A B} (f g : A -> B -> A) (l : list B) (a : A) :
  (forall a b, f a b = g a b) -> foldl f a l = foldl g a l.
Proof.
  intros Hfg. revert a. induction l as [|b l IH]; intros a; simpl; [done|].
  by rewrite Hfg, IH.
Qed.

(** A loop that adds the kind for every object whose name is not yet a
    key and that passes [P] leaves old entries alone and adds a name
    exactly when some object of that name passes [P]. *)
Lemma foldl_add_lookup (P : Object -> bool) (kind : string) l
    (c : gmap string string) n :
  foldl (fun c o => if bool_decide (c !! obj_Name o = None) && P o
                    then <[obj_Name o := kind]> c else c) c l !! n
  = match c !! n with
    | Some k => Some k
    | None => if hasNamed P n l then Some kind else None
    end.
Proof.
  revert c. induction l as [|o l IH]; intros c; simpl.
  - by destruct (c !! n).
  - rewrite IH. clear IH.
    destruct (decide (obj_Name o = n)) as [<-|Hne].
    + rewrite (bool_decide_true (obj_Name o = obj_Name o)) by done. simpl.
      case_bool_decide as E; simpl.
      * destruct (P o); simpl.
        -- by rewrite lookup_insert_eq, E.
        -- by rewrite E.
      * by destruct (c !! obj_Name o).
    + rewrite (bool_decide_false (obj_Name o = n)) by done. simpl.
      destruct (bool_decide (c !! obj_Name o = None) && P o); [|done].
      by rewrite lookup_insert_ne.
Qed.

Lemma addOrphan_lookup selector kind l (c : gmap string string) n :
  foldl (addOrphan selector kind) c l !! n
  = match c !! n with
    | Some k => Some k
    | None => if hasNamed (selectorCheck selector) n l then Some kind else None
    end.
Proof. apply (foldl_add_lookup (selectorCheck selector)). Qed.

Lemma addOrphanUnowned_lookup selector kind l (c : gmap string string) n :
  foldl (addOrphanUnowned selector kind) c l !! n
  = match c !! n with
    | Some k => Some k
    | None => if hasNamed (fun o => unowned o && selectorCheck selector o) n l
              then Some kind else None
    end.
Proof.
  rewrite <- (foldl_add_lookup (fun o => unowned o && selectorCheck selector o)).
  f_equal. apply foldl_pointwise. intros a o.
  unfold addOrphanUnowned, unowned. by rewrite andb_assoc.
Qed.

(** The index after the six orphan loops, key by key. *)
Lemma orphanCompletion_lookup selector dep repset depcon repcon fulset daeset
    (c : gmap string string) n :
  orphanCompletion selector dep repset depcon repcon fulset daeset c !! n
  = match c !! n with
    | Some k => Some k
    | None =>
        let owned o := unowned o && selectorCheck selector o in
        if hasNamed (selectorCheck selector) n dep then Some "Deployment"
        else if hasNamed owned n repset then Some "ReplicaSet"
        else if hasNamed (selectorCheck selector) n depcon then Some "DeploymentConfig"
        else if hasNamed owned n repcon then Some "ReplicationController"
        else if hasNamed (selectorCheck selector) n fulset then Some "StatefulSet"
        else if hasNamed (selectorCheck selector) n daeset then Some "DaemonSet"
        else None
    end.
Proof.
  unfold orphanCompletion.
  rewrite addOrphan_lookup, addOrphan_lookup, addOrphanUnowned_lookup,
    addOrphan_lookup, addOrphanUnowned_lookup, addOrphan_lookup.
  destruct (c !! n); simpl; [done|].
  repeat (match goal with
          | |- context [hasNamed ?P n ?l] => destruct (hasNamed P n l); simpl; try done
          end).
Qed.

Lemma hasNamed_true P n l :
  hasNamed P n l = true <-> exists o, o ∈ l /\ obj_Name o = n /\ P o = true.
Proof.
  unfold hasNamed. rewrite existsb_exists. split.
  - intros (o & Hin & Ho). apply andb_true_iff in Ho as [Hn HP].
    apply bool_decide_eq_true in Hn. exists o. by rewrite list_elem_of_In.
  - intros (o & Hin & Hn & HP). exists o. rewrite <- list_elem_of_In.
    split; [done|]. by rewrite bool_decide_true, HP.
Qed.

Lemma unowned_true o : unowned o = true <-> obj_OwnerReferences o = [].
Proof.
  unfold unowned. rewrite Nat.eqb_eq. by destruct (obj_OwnerReferences o).
Qed.

Lemma hasNamed_unowned_true selector n l :
  hasNamed (fun o => unowned o && selectorCheck selector o) n l = true
  <-> exists o, o ∈ l /\ obj_Name o = n /\ obj_OwnerReferences o = []
                /\ selectorCheck selector o = true.
Proof.
  rewrite hasNamed_true. split.
  - intros (o & Hin & Hn & HP). apply andb_true_iff in HP as [Hu Hs].
    apply unowned_true in Hu. eauto.
  - intros (o & Hin & Hn & Hu & Hs). exists o. split; [done|]. split; [done|].
    apply andb_true_iff. by rewrite unowned_true.
Qed.

Lemma hasNamed_false P n l o :
  hasNamed P n l = false -> o ∈ l -> obj_Name o = n -> P o = false.
Proof.
  intros Hf Hin Hn. destruct (P o) eqn:HP; [|done].
  assert (hasNamed P n l = true) as Ht by (apply hasNamed_true; eauto).
  congruence.
Qed.

(** C7: for a name [n] that is not a key of the index when orphan
    completion starts, the kind "ReplicaSet" (or "ReplicationController")
    is recorded only for a fetched replica-set (replication-controller)
    of that name with zero owner references that passes the selector
    check; such an object always gets the name recorded; a deployment,
    deployment-config, stateful-set or daemon-set of that name gets it
    recorded as soon as it passes the selector check, whatever its owner
    references; and nothing else is recorded. *)
Theorem orphanCompletion_owner_requirement
    selector dep repset depcon repcon fulset daeset (c : gmap string string) n :
  c !! n = None ->
  let c' := orphanCompletion selector dep repset depcon repcon fulset daeset c in
  (c' !! n = Some "ReplicaSet" ->
     exists rs, rs ∈ repset /\ obj_Name rs = n /\ obj_OwnerReferences rs = []
                /\ selectorCheck selector rs = true)
  /\ (c' !! n = Some "ReplicationController" ->
        exists rc, rc ∈ repcon /\ obj_Name rc = n /\ obj_OwnerReferences rc = []
                   /\ selectorCheck selector rc = true)
  /\ (forall o, o ∈ repset \/ o ∈ repcon -> obj_Name o = n ->
        obj_OwnerReferences o = [] -> selectorCheck selector o = true ->
        is_Some (c' !! n))
  /\ (forall o, o ∈ dep \/ o ∈ depcon \/ o ∈ fulset \/ o ∈ daeset ->
        obj_Name o = n -> selectorCheck selector o = true ->
        is_Some (c' !! n))
  /\ (is_Some (c' !! n) ->
        exists o, obj_Name o = n /\ selectorCheck selector o = true
          /\ ((o ∈ dep \/ o ∈ depcon \/ o ∈ fulset \/ o ∈ daeset)
              \/ ((o ∈ repset \/ o ∈ repcon) /\ obj_OwnerReferences o = []))).
Proof.
  intros Hc c'. subst c'. rewrite orphanCompletion_lookup, Hc. simpl.
  destruct (hasNamed (selectorCheck selector) n dep) eqn:Hdep;
  destruct (hasNamed (fun o => unowned o && selectorCheck selector o) n repset) eqn:Hrs;
  destruct (hasNamed (selectorCheck selector) n depcon) eqn:Hdc;
  destruct (hasNamed (fun o => unowned o && selectorCheck selector o) n repcon) eqn:Hrc;
  destruct (hasNamed (selectorCheck selector) n fulset) eqn:Hfs;
  destruct (hasNamed (selectorCheck selector) n daeset) eqn:Hds;
  (split; [intros [=]; try (by apply hasNamed_unowned_true)|]);
  (split; [intros [=]; try (by apply hasNamed_unowned_true)|]);
  (split; [intros o Hin Hn Hu Hs; try (by eexists);
           exfalso;
           assert (unowned o && selectorCheck selector o = false) as Hf
             by (destruct Hin as [Hin|Hin];
                 [exact (hasNamed_false _ n repset o Hrs Hin Hn)
                 |exact (hasNamed_false _ n repcon o Hrc Hin Hn)]);
           apply unowned_true in Hu; rewrite Hu, Hs in Hf; discriminate|]);
  (split; [intros o Hin Hn Hs; try (by eexists);
           exfalso;
           assert (selectorCheck selector o = false) as Hf
             by (destruct Hin as [Hin|[Hin|[Hin|Hin]]];
                 [exact (hasNamed_false _ n dep o Hdep Hin Hn)
                 |exact (hasNamed_false _ n depcon o Hdc Hin Hn)
                 |exact (hasNamed_false _ n fulset o Hfs Hin Hn)
                 |exact (hasNamed_false _ n daeset o Hds Hin Hn)]);
           congruence|]);
  intros Hsome; try (by destruct Hsome);
  first
    [ apply hasNamed_true in Hdep as (o & ? & ? & ?); exists o; by eauto 10
    | apply hasNamed_unowned_true in Hrs as (o & ? & ? & ? & ?); exists o; by eauto 10
    | apply hasNamed_true in Hdc as (o & ? & ? & ?); exists o; by eauto 10
    | apply hasNamed_unowned_true in Hrc as (o & ? & ? & ? & ?); exists o; by eauto 10
    | apply hasNamed_true in Hfs as (o & ? & ? & ?); exists o; by eauto 10
    | apply hasNamed_true in Hds as (o & ? & ? & ?); exists o; by eauto 10 ].
Qed.

(** ** [fetchWorkload] *)

Lemma find_existsb {A} (P : A -> bool) (l : list A) :
  existsb P l = bool_decide (is_Some (List.find P l)).
Proof.
  induction l as [|a l IH]; simpl; [done|].
  destruct (P a); simpl; done.
Qed.

Lemma findByName_Some cname l o :
  findByName cname l = Some o -> o ∈ l /\ obj_Name o = cname.
Proof.
  intros H. apply find_some in H as [Hin Hn].
  apply bool_decide_eq_true in Hn. by rewrite list_elem_of_In.
Qed.

Lemma findPodByName_Some cname l p :
  findPodByName cname l = Some p -> p ∈ l /\ pod_Name p = cname.
Proof.
  intros H. apply find_some in H as [Hin Hn].
  apply bool_decide_eq_true in Hn. by rewrite list_elem_of_In.
Qed.

Lemma fromSelector_found kind l pods cname w :
  snd (fromSelector (parseObject kind) l pods cname w)
  = existsb (fun o => bool_decide (obj_Name o = cname)) l.
Proof.
  rewrite find_existsb. unfold fromSelector, findByName.
  by destruct (List.find _ l).
Qed.

Lemma fromSelector_name kind l pods cname w :
  snd (fromSelector (parseObject kind) l pods cname w) = true ->
  w_Name (fst (fromSelector (parseObject kind) l pods cname w)) = cname
  /\ w_Type (fst (fromSelector (parseObject kind) l pods cname w)) = kind.
Proof.
  unfold fromSelector. destruct (findByName cname l) as [o|] eqn:E; simpl; [|done].
  intros _. by apply findByName_Some in E as [_ ->].
Qed.

Lemma fromSingle_name kind o pods cname w :
  snd (fromSingle (parseObject kind) o pods cname w) = true ->
  w_Name (fst (fromSingle (parseObject kind) o pods cname w)) = cname.
Proof.
  unfold fromSingle. destruct o as [x|]; simpl; [|done].
  case_bool_decide; simpl; done.
Qed.

Lemma fromPod_name pods cname w :
  snd (fromPod pods cname w) = true ->
  w_Name (fst (fromPod pods cname w)) = cname
  /\ w_Type (fst (fromPod pods cname w)) = "Pod".
Proof.
  unfold fromPod. destruct (findPodByName cname pods) as [p|] eqn:E; simpl; [|done].
  intros _. by apply findPodByName_Some in E as [_ ->].
Qed.

Lemma fromCustom_name repset pods cname ctype w :
  snd (fromCustom repset pods cname ctype w) = true
  /\ w_Name (fst (fromCustom repset pods cname ctype w)) = cname
  /\ w_Type (fst (fromCustom repset pods cname ctype w)) = ctype.
Proof. unfold fromCustom. by destruct (List.find _ repset). Qed.

Lemma runBranch_found f workloadName ctype b w :
  snd (runBranch f workloadName ctype b w) = matched f b workloadName.
Proof.
  destruct b; simpl;
    try apply fromSelector_found;
    try (unfold fromSingle;
         match goal with |- context [match ?o with _ => _ end] => destruct o end;
         simpl; [by case_bool_decide|done]).
  - rewrite find_existsb. unfold fromPod, findPodByName.
    by destruct (List.find _ (pods1 f)).
  - apply fromCustom_name.
Qed.

Lemma runBranch_name f workloadName ctype b w :
  snd (runBranch f workloadName ctype b w) = true ->
  w_Name (fst (runBranch f workloadName ctype b w)) = workloadName.
Proof.
  destruct b; simpl; intros H;
    try (by apply fromSelector_name in H as [? ?]);
    try (by apply fromSingle_name in H).
  - by apply fromPod_name in H as [? ?].
  - apply fromCustom_name.
Qed.

Lemma buildWorkload1_resolves layer namespace f controllers workloadName workloadType :
  match buildWorkload1 layer namespace f controllers workloadName workloadType with
  | Some w => resolves f controllers workloadName workloadType = true
              /\ w_Name w = workloadName
  | None => resolves f controllers workloadName workloadType = false
  end.
Proof.
  unfold buildWorkload1, resolves.
  destruct (controllers !! workloadName) as [ctype|]; [|done].
  pose proof (runBranch_found f workloadName ctype
                (branchOf (controllerType ctype workloadType)) emptyWorkload) as Hf.
  pose proof (runBranch_name f workloadName ctype
                (branchOf (controllerType ctype workloadType)) emptyWorkload) as Hn.
  destruct (runBranch f workloadName ctype _ emptyWorkload) as [w [|]];
    simpl in *; [|done].
  split; [done|]. by apply Hn.
Qed.

(** C8: once the namespace check and the fetches have passed, a name
    that does not resolve (it is no key of the index, or the branch
    selected for it finds no object of that name) makes [fetchWorkload]
    return the typed Not-Found status, which [IsNotFound] tells apart
    from any other error; and a nil error comes only with a workload of
    the requested name for a name that resolves. *)
Theorem fetchWorkload_not_found layer sched order namespace workloadName workloadType :
  Namespace_GetNamespace layer namespace = None ->
  errChan1 layer namespace workloadName workloadType sched = [] ->
  let f := fetched1 layer namespace workloadName workloadType in
  let controllers := controllerIndex1 order f in
  let result := fetchWorkload layer sched order namespace workloadName workloadType in
  (resolves f controllers workloadName workloadType = false ->
     snd result = Some (NewNotFound workloadName "Kiali" "Workload")
     /\ IsNotFound (NewNotFound workloadName "Kiali" "Workload") = true
     /\ forall msg, IsNotFound (OtherError msg) = false)
  /\ (snd result = None ->
        resolves f controllers workloadName workloadType = true
        /\ exists w, fst result = Some w /\ w_Name w = workloadName).
Proof.
  intros Hns Herr f controllers result. subst result.
  unfold fetchWorkload. rewrite Hns, Herr. fold f. fold controllers.
  pose proof (buildWorkload1_resolves layer namespace f controllers
                workloadName workloadType) as Hb.
  destruct (buildWorkload1 layer namespace f controllers workloadName workloadType)
    as [w|]; simpl.
  - destruct Hb as [Hr Hn]. split; [congruence|]. eauto.
  - split; [done|]. discriminate.
Qed.


(** ** The controller index *)

Lemma mergeController_ne (c : gmap string string) ref n :
  ref_Name ref <> n -> mergeController c ref !! n = c !! n.
Proof.
  intros Hne. unfold mergeController.
  destruct (c !! ref_Name ref); [case_bool_decide|]; by rewrite ?lookup_insert_ne.
Qed.

(** An entry of kind "Deployment" survives every merge. *)
Lemma mergeController_Deployment (c : gmap string string) ref d :
  c !! d = Some "Deployment" -> mergeController c ref !! d = Some "Deployment".
Proof.
  intros Hd. destruct (decide (ref_Name ref = d)) as [<-|Hne].
  - unfold mergeController. rewrite Hd. case_bool_decide; [|done].
    by rewrite lookup_insert_eq, controllerPriority_Deployment_l.
  - by rewrite mergeController_ne.
Qed.

(** Merging a reference to a deployment records a deployment. *)
Lemma mergeController_adds_Deployment (c : gmap string string) ref :
  ref_Kind ref = "Deployment" ->
  mergeController c ref !! ref_Name ref = Some "Deployment".
Proof.
  intros Hk. unfold mergeController.
  destruct (c !! ref_Name ref) as [k|] eqn:E.
  - case_bool_decide as Hd.
    + by rewrite lookup_insert_eq, Hk, controllerPriority_Deployment_r.
    + rewrite E. f_equal. rewrite <- Hk. by destruct (decide (k = ref_Kind ref)).
  - by rewrite lookup_insert_eq, Hk.
Qed.

(** A merge never removes a key. *)
Lemma mergeController_is_Some (c : gmap string string) ref n :
  is_Some (c !! n) -> is_Some (mergeController c ref !! n).
Proof.
  intros Hn. unfold mergeController.
  destruct (c !! ref_Name ref) eqn:E; [case_bool_decide|];
    try done; by rewrite lookup_insert_is_Some'; right.
Qed.

Lemma refersTo_false n refs ref :
  refersTo n refs = false -> ref ∈ refs -> isController ref = true ->
  ref_Name ref <> n.
Proof.
  intros Hf Hin Hc Hn.
  assert (refersTo n refs = true) as Ht; [|congruence].
  apply existsb_exists. exists ref. rewrite <- list_elem_of_In.
  split; [done|]. by rewrite Hc, bool_decide_true.
Qed.

Lemma namedBy_false n l o :
  namedBy n l = false -> o ∈ l -> refersTo n (obj_OwnerReferences o) = false.
Proof.
  intros Hf Hin. destruct (refersTo n (obj_OwnerReferences o)) eqn:E; [|done].
  assert (namedBy n l = true) as Ht; [|congruence].
  apply existsb_exists. exists o. by rewrite <- list_elem_of_In.
Qed.

Lemma namedByPod_false n l p :
  namedByPod n l = false -> p ∈ l -> refersTo n (pod_OwnerReferences p) = false.
Proof.
  intros Hf Hin. destruct (refersTo n (pod_OwnerReferences p)) eqn:E; [|done].
  assert (namedByPod n l = true) as Ht; [|congruence].
  apply existsb_exists. exists p. by rewrite <- list_elem_of_In.
Qed.

Lemma refersTo_cons n ref refs :
  refersTo n (ref :: refs) = false ->
  (isController ref = true -> ref_Name ref <> n) /\ refersTo n refs = false.
Proof.
  unfold refersTo. simpl. intros H. apply orb_false_iff in H as [H1 H2].
  split; [|done]. intros Hc Hn. by rewrite Hc, bool_decide_true in H1.
Qed.

Lemma foldl_merge_ne n refs (c : gmap string string) :
  refersTo n refs = false ->
  foldl (fun c ref => if isController ref then mergeController c ref else c) c refs !! n
  = c !! n.
Proof.
  revert c. induction refs as [|ref refs IH]; intros c Hr; simpl; [done|].
  apply refersTo_cons in Hr as [Hne Hr]. rewrite IH by done.
  destruct (isController ref); [|done]. by rewrite mergeController_ne by auto.
Qed.

(** The entry of a name that no controller reference of the pods names:
    it is "Pod" exactly when a pod of that name has no owner references. *)
Lemma foldl_scanPod_lookup n l (c : gmap string string) :
  namedByPod n l = false ->
  foldl scanPod c l !! n
  = match c !! n with
    | Some k => Some k
    | None =>
        if existsb (fun p => bool_decide (pod_Name p = n)
                             && Nat.eqb (length (pod_OwnerReferences p)) 0) l
        then Some "Pod" else None
    end.
Proof.
  revert c. induction l as [|p l IH]; intros c Hn; simpl.
  - by destruct (c !! n).
  - simpl in Hn. apply orb_false_iff in Hn as [Hp Hl]. rewrite IH by done.
    clear IH. unfold scanPod.
    destruct (Nat.eqb (length (pod_OwnerReferences p)) 0) eqn:Hlen; simpl.
    + rewrite andb_true_r.
      destruct (c !! pod_Name p) eqn:E.
      * case_bool_decide as Hpn; simpl; [|done]. subst n. by rewrite E.
      * case_bool_decide as Hpn; simpl.
        -- subst n. by rewrite lookup_insert_eq, E.
        -- by rewrite lookup_insert_ne.
    + rewrite andb_false_r. simpl. by rewrite foldl_merge_ne.
Qed.

Lemma foldl_resolveChild_ne n cname refs (c : gmap string string) :
  cname <> n -> refersTo n refs = false ->
  foldl (fun c ref => if isController ref
                      then delete cname (mergeController c ref) else c) c refs !! n
  = c !! n.
Proof.
  intros Hcn. revert c. induction refs as [|ref refs IH]; intros c Hr; simpl; [done|].
  apply refersTo_cons in Hr as [Hne Hr]. rewrite IH by done.
  destruct (isController ref); [|done].
  by rewrite lookup_delete_ne, mergeController_ne by auto.
Qed.

Lemma resolveChild_ne n cname l (c : gmap string string) :
  cname <> n -> namedBy n l = false -> resolveChild l cname c !! n = c !! n.
Proof.
  intros Hcn Hl. unfold resolveChild.
  destruct (findByName cname l) as [o|] eqn:E; [|done].
  apply findByName_Some in E as [Hin _].
  apply foldl_resolveChild_ne; [done|]. by eapply namedBy_false.
Qed.

Lemma foldl_resolveJob_ne n cname conjbs refs (c : gmap string string) :
  cname <> n -> refersTo n refs = false ->
  foldl (fun c ref =>
           if isController ref
           then
             let c' := mergeController c ref in
             let cnExist :=
               existsb (fun cnj => bool_decide (obj_Name cnj = ref_Name ref)) conjbs in
             if cnExist then delete cname c' else c'
           else c) c refs !! n
  = c !! n.
Proof.
  intros Hcn. revert c. induction refs as [|ref refs IH]; intros c Hr; simpl; [done|].
  apply refersTo_cons in Hr as [Hne Hr]. rewrite IH by done.
  destruct (isController ref); [|done].
  destruct (existsb _ conjbs);
    by rewrite ?lookup_delete_ne, mergeController_ne by auto.
Qed.

Lemma resolveJob_ne n cname jbs conjbs (c : gmap string string) :
  cname <> n -> namedBy n jbs = false -> resolveJob jbs conjbs cname c !! n = c !! n.
Proof.
  intros Hcn Hl. unfold resolveJob.
  destruct (findByName cname jbs) as [o|] eqn:E; [|done].
  apply findByName_Some in E as [Hin _].
  apply foldl_resolveJob_ne; [done|]. by eapply namedBy_false.
Qed.

(** A step for another key leaves alone the entry of a name that no
    fetched replica-set, replication-controller or job refers to. *)
Lemma resolveStep_ne n cname repset repcon jbs conjbs (c : gmap string string) :
  cname <> n ->
  namedBy n repset = false -> namedBy n repcon = false -> namedBy n jbs = false ->
  resolveStep repset repcon jbs conjbs c cname !! n = c !! n.
Proof.
  intros Hcn Hrs Hrc Hjb. unfold resolveStep.
  destruct (c !! cname) as [ctype|]; [|done].
  repeat case_bool_decide;
    by rewrite ?resolveJob_ne, ?resolveChild_ne, ?resolveChild_ne by done.
Qed.

(** A step on a key that is missing, or whose kind is none of
    "ReplicaSet", "ReplicationController", "Job", changes nothing. *)
Lemma resolveStep_inert repset repcon jbs conjbs (c : gmap string string) cname :
  (forall k, c !! cname = Some k ->
     k <> "ReplicaSet" /\ k <> "ReplicationController" /\ k <> "Job") ->
  resolveStep repset repcon jbs conjbs c cname = c.
Proof.
  intros Hk. unfold resolveStep.
  destruct (c !! cname) as [ctype|]; [|done].
  destruct (Hk ctype eq_refl) as (H1 & H2 & H3).
  unfold kubernetes.ReplicaSetType, kubernetes.ReplicationControllerType,
    kubernetes.JobType.
  by rewrite !bool_decide_false.
Qed.

Lemma resolveControllers_keep n repset repcon jbs conjbs order (c : gmap string string) :
  namedBy n repset = false -> namedBy n repcon = false -> namedBy n jbs = false ->
  (forall k, c !! n = Some k ->
     k <> "ReplicaSet" /\ k <> "ReplicationController" /\ k <> "Job") ->
  resolveControllers repset repcon jbs conjbs order c !! n = c !! n.
Proof.
  intros Hrs Hrc Hjb. unfold resolveControllers.
  revert c. induction order as [|cname order IH]; intros c Hk; simpl; [done|].
  destruct (decide (cname = n)) as [->|Hne].
  - rewrite resolveStep_inert by done. by apply IH.
  - rewrite IH.
    + by apply resolveStep_ne.
    + intros k. rewrite resolveStep_ne by done. apply Hk.
Qed.

(** ** The workloads built from the index *)

Lemma elem_of_sortedNames (c : gmap string string) n :
  n ∈ sortedNames c <-> is_Some (c !! n).
Proof.
  unfold sortedNames. rewrite merge_sort_Permutation.
  rewrite list_elem_of_fmap. split.
  - intros ([k v] & -> & Hin). apply elem_of_map_to_list in Hin. by eexists.
  - intros [v Hv]. exists (n, v). split; [done|]. by apply elem_of_map_to_list.
Qed.

Lemma NoDup_sortedNames (c : gmap string string) : NoDup (sortedNames c).
Proof.
  unfold sortedNames. rewrite merge_sort_Permutation.
  apply NoDup_fst_map_to_list.
Qed.

Lemma fetchWorkloads_ok layer sched order namespace labelSelector :
  Namespace_GetNamespace layer namespace = None ->
  errChan layer namespace labelSelector sched = [] ->
  fetchWorkloads layer sched order namespace labelSelector
  = (let f := fetched layer namespace labelSelector in
     let controllers := controllerIndex (parseSelector layer labelSelector) order f in
     omap (buildWorkload layer namespace f controllers) (sortedNames controllers),
     None).
Proof. intros Hns Herr. unfold fetchWorkloads. by rewrite Hns, Herr. Qed.

Lemma switchWorkloads_name f cname ctype w :
  snd (switchWorkloads f cname ctype w) = true ->
  w_Name (fst (switchWorkloads f cname ctype w)) = cname
  /\ w_Type (fst (switchWorkloads f cname ctype w)) = ctype.
Proof.
  unfold switchWorkloads.
  repeat (case_bool_decide as Hk; [subst ctype; first
            [apply fromSelector_name | apply fromPod_name]|clear Hk]).
  intros _. apply fromCustom_name.
Qed.

Lemma buildWorkload_name layer namespace f (c : gmap string string) cname w :
  buildWorkload layer namespace f c cname = Some w ->
  w_Name w = cname /\ w_Type w = default "" (c !! cname).
Proof.
  unfold buildWorkload.
  pose proof (switchWorkloads_name f cname (default "" (c !! cname)) emptyWorkload) as H.
  destruct (switchWorkloads f cname _ emptyWorkload) as [w0 [|]]; [|done].
  intros [= <-]. simpl in *. by apply H.
Qed.

(** The workloads returned are those built from the keys of the index. *)
Lemma elem_of_workloads layer sched order namespace labelSelector w :
  Namespace_GetNamespace layer namespace = None ->
  errChan layer namespace labelSelector sched = [] ->
  let f := fetched layer namespace labelSelector in
  let controllers := controllerIndex (parseSelector layer labelSelector) order f in
  w ∈ workloads layer sched order namespace labelSelector
  <-> is_Some (controllers !! w_Name w)
      /\ buildWorkload layer namespace f controllers (w_Name w) = Some w.
Proof.
  intros Hns Herr f controllers. unfold workloads.
  rewrite fetchWorkloads_ok by done. simpl. fold f. fold controllers.
  rewrite list_elem_of_omap. split.
  - intros (cname & Hin & Hb). apply elem_of_sortedNames in Hin.
    apply buildWorkload_name in Hb as Hn. destruct Hn as [<- _]. done.
  - intros [Hin Hb]. exists (w_Name w). by rewrite elem_of_sortedNames.
Qed.

(** Each name is the name of at most one workload. *)
Lemma omap_filter_name (build : string -> option Workload) (names : list string) n w :
  NoDup names ->
  (forall cname w', build cname = Some w' -> w_Name w' = cname) ->
  n ∈ names -> build n = Some w ->
  filter (fun w' => w_Name w' = n) (omap build names) = [w].
Proof.
  intros Hnd Hname. revert Hnd. induction names as [|x names IH]; intros Hnd Hin Hb.
  - by apply elem_of_nil in Hin.
  - apply NoDup_cons in Hnd as [Hx Hnd]. simpl.
    assert (forall l, n ∉ l ->
              filter (fun w' => w_Name w' = n) (omap build l) = []) as Hnone.
    { clear -Hname. induction l as [|y l IHl]; intros Hn; simpl; [done|].
      apply not_elem_of_cons in Hn as [Hy Hl].
      destruct (build y) as [wy|] eqn:Ey; [|by apply IHl].
      rewrite filter_cons_False; [by apply IHl|].
      rewrite (Hname _ _ Ey). congruence. }
    apply elem_of_cons in Hin as [->|Hin].
    + rewrite Hb. rewrite filter_cons_True by (by apply (Hname x)).
      by rewrite Hnone.
    + assert (x <> n) as Hxn by (intros ->; done).
      destruct (build x) as [wx|] eqn:Ex; [|by apply IH].
      rewrite filter_cons_False; [by apply IH|].
      rewrite (Hname _ _ Ex). done.
Qed.

(** ** Pods without a controller *)

Lemma buildWorkload_Pod layer namespace f (c : gmap string string) cname p :
  c !! cname = Some "Pod" -> findPodByName cname (pods f) = Some p ->
  buildWorkload layer namespace f c cname
  = Some (attachProxyStatus layer namespace (ParsePod (SetPods emptyWorkload [p]) p)).
Proof.
  intros Hc Hp. unfold buildWorkload. rewrite Hc. simpl.
  unfold switchWorkloads. simpl. unfold fromPod. by rewrite Hp.
Qed.

(** C3, as stated, fails. A pod without owner references that shares its
    name with a controller named in another pod's controller reference
    loses the index entry of that name to the controller, and no workload
    of kind "Pod" is built; and a pod whose owner references are all
    non-controller references has no controller owner reference, yet no
    workload is built for it. *)
Lemma fetchWorkloads_pod_without_workload :
  (barePodDb ∈ pods (fetched (clusterLayer sharedPodNameCluster) "ns1" "")
   /\ pod_OwnerReferences barePodDb = []
   /\ map (fun w => (w_Name w, w_Type w, map mp_Name (w_Pods w)))
          (workloads (clusterLayer sharedPodNameCluster) allTasks ["db"] "ns1" "")
      = [ ("db", "StatefulSet", ["db-0"]) ])
  /\ (looselyOwnedPod ∈ pods (fetched (clusterLayer looselyOwnedCluster) "ns1" "")
      /\ existsb isController (pod_OwnerReferences looselyOwnedPod) = false
      /\ workloads (clusterLayer looselyOwnedCluster) allTasks [] "ns1" "" = []).
Proof.
  split; (split; [|split]); try (by vm_compute).
  - apply (bool_decide_unpack _). by vm_compute.
  - apply (bool_decide_unpack _). by vm_compute.
Qed.

(** C3, amended: for a fetched pod that has no owner references at all,
    that is the first fetched pod of its name, and whose name no
    controller owner reference of a fetched pod, replica-set,
    replication-controller or job names, the returned list holds exactly
    one workload of that name; its kind is "Pod" and its pods are exactly
    that pod. *)
Theorem fetchWorkloads_bare_pod layer sched order namespace labelSelector p :
  Namespace_GetNamespace layer namespace = None ->
  errChan layer namespace labelSelector sched = [] ->
  let f := fetched layer namespace labelSelector in
  findPodByName (pod_Name p) (pods f) = Some p ->
  pod_OwnerReferences p = [] ->
  namedByPod (pod_Name p) (pods f) = false ->
  namedBy (pod_Name p) (repset f) = false ->
  namedBy (pod_Name p) (repcon f) = false ->
  namedBy (pod_Name p) (jbs f) = false ->
  exists w,
    filter (fun w' => w_Name w' = pod_Name p)
           (workloads layer sched order namespace labelSelector) = [w]
    /\ w_Type w = "Pod"
    /\ w_Pods w = w_Pods (attachProxyStatus layer namespace
                            (SetPods emptyWorkload [p]))
    /\ map mp_Name (w_Pods w) = [pod_Name p].
Proof.
  intros Hns Herr f Hfirst Hrefs Hpods Hrs Hrc Hjb.
  set (controllers := controllerIndex (parseSelector layer labelSelector) order f).
  assert (controllers !! pod_Name p = Some "Pod") as Hidx.
  { unfold controllers, controllerIndex.
    rewrite orphanCompletion_lookup, resolveControllers_keep; try done.
    - unfold findControllers. rewrite foldl_scanPod_lookup by done.
      rewrite lookup_empty.
      assert (existsb (fun q => bool_decide (pod_Name q = pod_Name p)
                                && Nat.eqb (length (pod_OwnerReferences q)) 0)
                      (pods f) = true) as ->; [|done].
      apply existsb_exists. exists p.
      apply findPodByName_Some in Hfirst as [Hin _].
      rewrite <- list_elem_of_In. split; [done|].
      by rewrite bool_decide_true, Hrefs.
    - unfold findControllers. rewrite foldl_scanPod_lookup by done.
      rewrite lookup_empty. intros k. case_match; [|done].
      by intros [= <-]. }
  exists (attachProxyStatus layer namespace (ParsePod (SetPods emptyWorkload [p]) p)).
  split; [|split; [done|split; [done|]]].
  - unfold workloads. rewrite fetchWorkloads_ok by done. simpl.
    fold f. fold controllers.
    apply omap_filter_name.
    + apply NoDup_sortedNames.
    + intros cname w' Hb. by apply buildWorkload_name in Hb as [? _].
    + apply elem_of_sortedNames. by rewrite Hidx.
    + by apply buildWorkload_Pod.
  - simpl. by destruct (HasIstioSidecar (Pod_Parse p)).
Qed.

Lemma fetchWorkloads_bare_pod_witness :
  exists w,
    filter (fun w' => w_Name w' = "orphan-pod")
           (workloads (clusterLayer sampleCluster) allTasks sampleOrder "ns1" "") = [w]
    /\ w_Type w = "Pod"
    /\ w_Pods w = w_Pods (attachProxyStatus (clusterLayer sampleCluster) "ns1"
                            (SetPods emptyWorkload [orphanPod]))
    /\ map mp_Name (w_Pods w) = ["orphan-pod"].
Proof.
  apply (fetchWorkloads_bare_pod (clusterLayer sampleCluster) allTasks sampleOrder
           "ns1" "" orphanPod); reflexivity.
Defined.

(** ** Replica-sets and their parents *)

(** The loop over the references of a found child ends without the
    child once it has met a controller reference. *)
Lemma foldl_resolveChild_deletes cname refs (c : gmap string string) :
  c !! cname = None \/ existsb isController refs = true ->
  foldl (fun c ref => if isController ref
                      then delete cname (mergeController c ref) else c) c refs !! cname
  = None.
Proof.
  revert c. induction refs as [|ref refs IH]; intros c H; simpl.
  - by destruct H.
  - apply IH. simpl in H. destruct (isController ref); simpl in *.
    + left. apply lookup_delete_eq.
    + done.
Qed.

Lemma foldl_resolveChild_Deployment cname d refs (c : gmap string string) :
  cname <> d ->
  c !! d = Some "Deployment"
  \/ (exists ref, ref ∈ refs /\ isController ref = true
                   /\ ref_Name ref = d /\ ref_Kind ref = "Deployment") ->
  foldl (fun c ref => if isController ref
                      then delete cname (mergeController c ref) else c) c refs !! d
  = Some "Deployment".
Proof.
  intros Hne. revert c. induction refs as [|ref refs IH]; intros c H; simpl.
  - destruct H as [H|(ref & Hin & _)]; [done|by apply elem_of_nil in Hin].
  - apply IH. destruct H as [H|(r & Hin & Hc & Hn & Hk)].
    + left. destruct (isController ref); [|done].
      by rewrite lookup_delete_ne, mergeController_Deployment.
    + apply elem_of_cons in Hin as [<-|Hin]; [|by eauto 10].
      left. rewrite Hc, lookup_delete_ne by done.
      rewrite <- Hn. by apply mergeController_adds_Deployment.
Qed.

Lemma foldl_resolveJob_Deployment cname d conjbs refs (c : gmap string string) :
  cname <> d -> c !! d = Some "Deployment" ->
  foldl (fun c ref =>
           if isController ref
           then
             let c' := mergeController c ref in
             let cnExist :=
               existsb (fun cnj => bool_decide (obj_Name cnj = ref_Name ref)) conjbs in
             if cnExist then delete cname c' else c'
           else c) c refs !! d
  = Some "Deployment".
Proof.
  intros Hne. revert c. induction refs as [|ref refs IH]; intros c H; simpl; [done|].
  apply IH. destruct (isController ref); [|done].
  destruct (existsb _ conjbs);
    by rewrite ?lookup_delete_ne, mergeController_Deployment.
Qed.

(** No step of the loop touches an entry of kind "Deployment". *)
Lemma resolveStep_Deployment repset repcon jbs conjbs (c : gmap string string) cname d :
  c !! d = Some "Deployment" ->
  resolveStep repset repcon jbs conjbs c cname !! d = Some "Deployment".
Proof.
  intros Hd. destruct (decide (cname = d)) as [->|Hne].
  - rewrite resolveStep_inert; [done|].
    intros k. rewrite Hd. by intros [= <-].
  - unfold resolveStep. destruct (c !! cname) as [ctype|]; [|done].
    assert (forall l c', c' !! d = Some "Deployment" ->
              resolveChild l cname c' !! d = Some "Deployment") as Hch.
    { intros l c' Hc'. unfold resolveChild. destruct (findByName cname l); [|done].
      apply foldl_resolveChild_Deployment; auto. }
    assert (forall c', c' !! d = Some "Deployment" ->
              resolveJob jbs conjbs cname c' !! d = Some "Deployment") as Hjb.
    { intros c' Hc'. unfold resolveJob. destruct (findByName cname jbs); [|done].
      by apply foldl_resolveJob_Deployment. }
    repeat case_bool_decide; auto.
Qed.

Lemma resolveControllers_Deployment repset repcon jbs conjbs order
    (c : gmap string string) d :
  c !! d = Some "Deployment" ->
  resolveControllers repset repcon jbs conjbs order c !! d = Some "Deployment".
Proof.
  unfold resolveControllers. revert c.
  induction order as [|cname order IH]; intros c Hd; simpl; [done|].
  apply IH. by apply resolveStep_Deployment.
Qed.

(** The step on a replica-set entry whose live object has a controller
    reference: the entry is gone afterwards. *)
Lemma resolveStep_ReplicaSet_deleted repset repcon jbs conjbs
    (c : gmap string string) cname rs :
  c !! cname = Some "ReplicaSet" ->
  findByName cname repset = Some rs ->
  existsb isController (obj_OwnerReferences rs) = true ->
  resolveStep repset repcon jbs conjbs c cname !! cname = None.
Proof.
  intros Hc Hrs Hctl. unfold resolveStep. rewrite Hc. simpl.
  unfold resolveChild. rewrite Hrs.
  by apply foldl_resolveChild_deletes; right.
Qed.

Lemma resolveStep_ReplicaSet_parent repset repcon jbs conjbs
    (c : gmap string string) cname rs ref :
  c !! cname = Some "ReplicaSet" ->
  findByName cname repset = Some rs ->
  ref ∈ obj_OwnerReferences rs -> isController ref = true ->
  ref_Kind ref = "Deployment" -> ref_Name ref <> cname ->
  resolveStep repset repcon jbs conjbs c cname !! ref_Name ref = Some "Deployment".
Proof.
  intros Hc Hrs Hin Hctl Hk Hne. unfold resolveStep. rewrite Hc. simpl.
  unfold resolveChild. rewrite Hrs.
  apply foldl_resolveChild_Deployment; [done|]. right. by exists ref.
Qed.

(** After the loop, a replica-set entry whose live object has a
    controller reference is gone, and each deployment it refers to is
    recorded: provided the loop visits the entry, and no fetched
    replica-set, replication-controller or job refers to its name. *)
Lemma resolveControllers_ReplicaSet repset repcon jbs conjbs order
    (c : gmap string string) n rs :
  c !! n = Some "ReplicaSet" ->
  findByName n repset = Some rs ->
  existsb isController (obj_OwnerReferences rs) = true ->
  n ∈ order ->
  namedBy n repset = false -> namedBy n repcon = false -> namedBy n jbs = false ->
  resolveControllers repset repcon jbs conjbs order c !! n = None
  /\ forall ref, ref ∈ obj_OwnerReferences rs -> isController ref = true ->
       ref_Kind ref = "Deployment" ->
       resolveControllers repset repcon jbs conjbs order c !! ref_Name ref
       = Some "Deployment".
Proof.
  intros Hc Hrs Hctl Hin Hnrs Hnrc Hnjb.
  assert (forall ref, ref ∈ obj_OwnerReferences rs -> isController ref = true ->
            ref_Name ref <> n) as Hne.
  { intros ref Hr Hcr. apply (refersTo_false n (obj_OwnerReferences rs)); [|done..].
    apply (namedBy_false n repset); [done|]. by apply findByName_Some in Hrs as [? _]. }
  revert c Hc Hin. induction order as [|x order IH]; intros c Hc Hin.
  - by apply elem_of_nil in Hin.
  - unfold resolveControllers. simpl.
    fold (resolveControllers repset repcon jbs conjbs order
            (resolveStep repset repcon jbs conjbs c x)).
    destruct (decide (x = n)) as [->|Hxn].
    + split.
      * rewrite resolveControllers_keep; try done.
        -- by eapply resolveStep_ReplicaSet_deleted.
        -- intros k. by erewrite resolveStep_ReplicaSet_deleted.
      * intros ref Hr Hcr Hk. apply resolveControllers_Deployment.
        eapply resolveStep_ReplicaSet_parent; eauto.
    + apply IH.
      * by rewrite resolveStep_ne.
      * apply elem_of_cons in Hin as [->|Hin]; done.
Qed.

Lemma hasNamed_hasName P n l : hasName n l = false -> hasNamed P n l = false.
Proof.
  unfold hasName, hasNamed. induction l as [|o l IH]; simpl; [done|].
  intros H. apply orb_false_iff in H as [-> H]. by rewrite IH.
Qed.

Lemma hasNamed_owned selector n l :
  hasNamed unowned n l = false ->
  hasNamed (fun o => unowned o && selectorCheck selector o) n l = false.
Proof.
  unfold hasNamed. induction l as [|o l IH]; simpl; [done|].
  intros H. apply orb_false_iff in H as [H1 H]. rewrite IH by done.
  apply andb_false_iff in H1 as [->| ->]; [done|]. simpl. by rewrite andb_false_r.
Qed.

(** A name that no orphan loop can record keeps the entry it has. *)
Lemma orphanCompletion_noOrphanNamed selector f (c : gmap string string) n :
  noOrphanNamed n f = true ->
  orphanCompletion selector (dep f) (repset f) (depcon f) (repcon f)
                   (fulset f) (daeset f) c !! n = c !! n.
Proof.
  unfold noOrphanNamed. rewrite !andb_true_iff, !negb_true_iff.
  intros (((((H1 & H2) & H3) & H4) & H5) & H6).
  rewrite orphanCompletion_lookup. destruct (c !! n); [done|]. simpl.
  rewrite !(hasNamed_hasName (selectorCheck selector)) by done.
  rewrite (hasNamed_owned selector n (repset f)) by done.
  by rewrite (hasNamed_hasName _ n (repcon f)) by done.
Qed.

Lemma orphanCompletion_keeps selector dep repset depcon repcon fulset daeset
    (c : gmap string string) n k :
  c !! n = Some k ->
  orphanCompletion selector dep repset depcon repcon fulset daeset c !! n = Some k.
Proof. intros Hc. by rewrite orphanCompletion_lookup, Hc. Qed.

Lemma buildWorkload_selected layer namespace f (c : gmap string string) cname ctype :
  c !! cname = Some ctype ->
  forall parse l o,
    switchWorkloads f cname ctype emptyWorkload
    = fromSelector parse l (pods f) cname emptyWorkload ->
    findByName cname l = Some o ->
    buildWorkload layer namespace f c cname
    = Some (attachProxyStatus layer namespace
              (parse (SetPods emptyWorkload
                        (FilterPodsForSelector (AsSelector (obj_TemplateLabels o)) (pods f)))
                     o)).
Proof.
  intros Hc parse l o Hsw Ho. unfold buildWorkload. rewrite Hc. simpl.
  rewrite Hsw. unfold fromSelector. by rewrite Ho.
Qed.

(** C1, as stated, fails: when the deployment a replica-set refers to is
    not among the fetched deployments, no workload is returned for it,
    whichever way the index is walked. *)
Lemma fetchWorkloads_parent_deployment_missing :
  findControllers (pods headlessCluster) !! "app1-abc123" = Some "ReplicaSet"
  /\ findByName "app1-abc123" (repset headlessCluster) = Some app1ReplicaSet
  /\ obj_OwnerReferences app1ReplicaSet = [ownedBy "app1" "Deployment"]
  /\ Forall (fun order =>
               filter (fun w => w_Name w = "app1")
                      (workloads (clusterLayer headlessCluster) allTasks order "ns1" "")
               = [])
            sampleWalks.
Proof.
  split; [by vm_compute|]. split; [by vm_compute|]. split; [done|].
  repeat constructor; by vm_compute.
Qed.

(** C1, amended: for a name [n] that the pods' owner references record
    as "ReplicaSet", whose fetched replica-set has a controller owner
    reference to a deployment that is among the fetched deployments, the
    returned list holds no workload named [n] and holds a workload of
    kind "Deployment" named after the parent; provided no controller
    owner reference of a fetched replica-set, replication-controller or
    job names [n], and no orphan loop can record [n] (no other fetched
    controller is named [n]). The walk [order] visits [n], as Go's
    [range] visits every key that is in the map when the loop starts and
    is not deleted before its turn. *)
Theorem fetchWorkloads_replicaset_absorbed
    layer sched order namespace labelSelector n rs ref dp :
  Namespace_GetNamespace layer namespace = None ->
  errChan layer namespace labelSelector sched = [] ->
  let f := fetched layer namespace labelSelector in
  findControllers (pods f) !! n = Some "ReplicaSet" ->
  findByName n (repset f) = Some rs ->
  ref ∈ obj_OwnerReferences rs -> isController ref = true ->
  ref_Kind ref = "Deployment" ->
  findByName (ref_Name ref) (dep f) = Some dp ->
  n ∈ order ->
  namedBy n (repset f) = false -> namedBy n (repcon f) = false ->
  namedBy n (jbs f) = false ->
  noOrphanNamed n f = true ->
  (forall w, w ∈ workloads layer sched order namespace labelSelector -> w_Name w <> n)
  /\ (exists w, w ∈ workloads layer sched order namespace labelSelector
                /\ w_Name w = ref_Name ref /\ w_Type w = "Deployment").
Proof.
  intros Hns Herr f Hidx Hrs Hin Hctl Hkind Hdp Hord Hnrs Hnrc Hnjb Hfree.
  set (controllers := controllerIndex (parseSelector layer labelSelector) order f).
  assert (existsb isController (obj_OwnerReferences rs) = true) as Hex.
  { apply existsb_exists. exists ref. by rewrite <- list_elem_of_In. }
  destruct (resolveControllers_ReplicaSet (repset f) (repcon f) (jbs f) (conjbs f)
              order (findControllers (pods f)) n rs) as [Hgone Hparent]; try done.
  assert (controllers !! n = None) as Hn.
  { unfold controllers, controllerIndex. by rewrite orphanCompletion_noOrphanNamed. }
  assert (controllers !! ref_Name ref = Some "Deployment") as Hd.
  { unfold controllers, controllerIndex. apply orphanCompletion_keeps. by apply Hparent. }
  split.
  - intros w Hw Hname. apply elem_of_workloads in Hw as [Hsome _]; [|done..].
    fold f in Hsome. fold controllers in Hsome.
    rewrite Hname, Hn in Hsome. by destruct Hsome.
  - eexists. split; [|split].
    + apply elem_of_workloads; [done..|]. fold f. fold controllers.
      cut (buildWorkload layer namespace f controllers (ref_Name ref)
           = Some (attachProxyStatus layer namespace
                     (ParseDeployment
                        (SetPods emptyWorkload
                           (FilterPodsForSelector (AsSelector (obj_TemplateLabels dp))
                                                  (pods f))) dp))).
      { intros Hb. apply buildWorkload_name in Hb as Hnm. destruct Hnm as [Hnm _].
        rewrite Hnm. split; [by rewrite Hd|]. exact Hb. }
      by apply (buildWorkload_selected _ _ _ _ _ "Deployment" Hd ParseDeployment (dep f)).
    + simpl. by apply findByName_Some in Hdp as [_ ?].
    + done.
Qed.

Lemma fetchWorkloads_replicaset_absorbed_witness :
  (forall w, w ∈ workloads (clusterLayer sampleCluster) allTasks sampleOrder "ns1" "" ->
             w_Name w <> "app1-abc123")
  /\ (exists w, w ∈ workloads (clusterLayer sampleCluster) allTasks sampleOrder "ns1" ""
                /\ w_Name w = "app1" /\ w_Type w = "Deployment").
Proof.
  apply (fetchWorkloads_replicaset_absorbed (clusterLayer sampleCluster) allTasks
           sampleOrder "ns1" "" "app1-abc123" app1ReplicaSet
           (ownedBy "app1" "Deployment")
           (mkObject "app1" {[ "app" := "app1" ]} []));
    try reflexivity.
  - apply list_elem_of_singleton. reflexivity.
  - apply (bool_decide_unpack _). reflexivity.
Defined.

(** ** Instances of the orphan-loop and single-workload properties *)

Lemma orphanCompletion_owner_requirement_witness :
  is_Some (orphanCompletion None [] [app1ReplicaSet; mkObject "rs-free" ∅ []]
             [] [] [] [] ∅ !! "rs-free").
Proof.
  destruct (orphanCompletion_owner_requirement None []
              [app1ReplicaSet; mkObject "rs-free" ∅ []] [] [] [] [] ∅ "rs-free")
    as (_ & _ & H & _).
  - reflexivity.
  - apply (H (mkObject "rs-free" ∅ [])); try reflexivity.
    left. apply (bool_decide_unpack _). reflexivity.
Defined.

Lemma fetchWorkload_not_found_witness :
  snd (fetchWorkload (clusterLayer sampleCluster) allTasks sampleOrder "ns1" "nope" "")
  = Some (NewNotFound "nope" "Kiali" "Workload").
Proof.
  destruct (fetchWorkload_not_found (clusterLayer sampleCluster) allTasks sampleOrder
              "ns1" "nope" "") as [H _].
  - reflexivity.
  - reflexivity.
  - apply H. reflexivity.
Defined.


(** ** Jobs and their cron-jobs *)






(** The orphan loops record none of the kinds they do not handle. *)
Lemma orphanCompletion_kind selector dep repset depcon repcon fulset daeset
    (c : gmap string string) n k :
  orphanCompletion selector dep repset depcon repcon fulset daeset c !! n = Some k ->
  c !! n = Some k
  \/ (c !! n = None
      /\ k ∈ ["Deployment"; "ReplicaSet"; "DeploymentConfig";
               "ReplicationController"; "StatefulSet"; "DaemonSet"]).
Proof.
  rewrite orphanCompletion_lookup. destruct (c !! n); [by left|]. simpl.
  intros H. right. split; [done|].
  repeat (match type of H with
          | context [hasNamed ?P n ?l] => destruct (hasNamed P n l); simpl in H
          end);
    try discriminate; injection H as <-;
    apply (bool_decide_unpack _); reflexivity.
Qed.




(** ** Where the pods of a workload come from *)

Lemma attachProxyStatus_pods layer namespace w mp :
  mp ∈ w_Pods (attachProxyStatus layer namespace w) ->
  exists mp0, mp0 ∈ w_Pods w /\ mp_Name mp = mp_Name mp0.
Proof.
  simpl. intros H. apply list_elem_of_fmap in H as (mp0 & -> & Hin).
  exists mp0. split; [done|]. by destruct (HasIstioSidecar mp0).
Qed.

Lemma fromSelector_pods kind l pods cname mp :
  mp ∈ w_Pods (fst (fromSelector (parseObject kind) l pods cname emptyWorkload)) ->
  exists o q, o ∈ l /\ obj_Name o = cname /\ q ∈ pods
              /\ AsSelector (obj_TemplateLabels o) (pod_Labels q) = true
              /\ mp_Name mp = pod_Name q.
Proof.
  unfold fromSelector. destruct (findByName cname l) as [o|] eqn:E; simpl.
  - intros H. apply list_elem_of_fmap in H as (q & -> & Hq).
    apply list_elem_of_filter in Hq as [Hsel Hq].
    apply findByName_Some in E as [Hin Hn]. by exists o, q.
  - intros H. by apply elem_of_nil in H.
Qed.

Lemma fromPod_pods pods cname mp :
  mp ∈ w_Pods (fst (fromPod pods cname emptyWorkload)) ->
  mp_Name mp = cname.
Proof.
  unfold fromPod. destruct (findPodByName cname pods) as [q|] eqn:E; simpl.
  - intros H. apply list_elem_of_singleton in H as ->.
    by apply findPodByName_Some in E as [_ ?].
  - intros H. by apply elem_of_nil in H.
Qed.

Lemma fromCustom_pods repset pods cname ctype mp :
  mp ∈ w_Pods (fst (fromCustom repset pods cname ctype emptyWorkload)) ->
  exists q, q ∈ pods /\ refersTo cname (pod_OwnerReferences q) = true
            /\ mp_Name mp = pod_Name q.
Proof.
  unfold fromCustom.
  set (childType := if bool_decide (controllerOrder !! ctype = None)
                    then kubernetes.ReplicaSetType else ctype).
  assert (mp ∈ map Pod_Parse (FilterPodsForController cname childType pods) ->
          exists q, q ∈ pods /\ refersTo cname (pod_OwnerReferences q) = true
                    /\ mp_Name mp = pod_Name q) as Hmain.
  { intros H. apply list_elem_of_fmap in H as (q & -> & Hq).
    apply list_elem_of_filter in Hq as [Href Hq].
    exists q. split; [done|]. split; [|done].
    apply existsb_exists in Href as (ref & Hin & Hr).
    apply andb_true_iff in Hr as [Hr _].
    apply existsb_exists. by exists ref. }
  by destruct (List.find _ repset).
Qed.

(** A pod of a built workload is a fetched pod that the template labels
    of a fetched controller of the workload's name select, or the pod of
    the workload's name in a workload of kind "Pod", or a pod with a
    controller reference to the workload's name. *)
Lemma buildWorkload_pods layer namespace f (c : gmap string string) cname w mp :
  buildWorkload layer namespace f c cname = Some w ->
  mp ∈ w_Pods w ->
  (exists o q, o ∈ allControllers f /\ obj_Name o = cname /\ q ∈ pods f
               /\ AsSelector (obj_TemplateLabels o) (pod_Labels q) = true
               /\ mp_Name mp = pod_Name q)
  \/ (c !! cname = Some "Pod" /\ mp_Name mp = cname)
  \/ (exists q, q ∈ pods f /\ refersTo cname (pod_OwnerReferences q) = true
                 /\ mp_Name mp = pod_Name q).
Proof.
  unfold buildWorkload.
  destruct (switchWorkloads f cname (default "" (c !! cname)) emptyWorkload)
    as [w0 found] eqn:Esw.
  destruct found; [|done]. intros [= <-] Hmp.
  apply attachProxyStatus_pods in Hmp as (mp0 & Hmp0 & ->).
  assert (w0 = fst (switchWorkloads f cname (default "" (c !! cname)) emptyWorkload))
    as -> by (by rewrite Esw).
  clear Esw. unfold switchWorkloads in Hmp0. unfold allControllers.
  repeat (case_bool_decide as Hk;
          [first
             [ apply fromSelector_pods in Hmp0 as (o & q & Ho & Hn & Hq & Hs & Hm);
               left; exists o, q; rewrite !elem_of_app; by eauto 20
             | right; left; split;
               [ by destruct (c !! cname); simpl in Hk; subst
               | by apply fromPod_pods in Hmp0 ] ]
          | clear Hk ]).
  right; right. by apply fromCustom_pods in Hmp0.
Qed.

(** ** A replica-set whose parent was not fetched *)

Lemma resolveStep_ReplicationController_deleted repset repcon jbs conjbs
    (c : gmap string string) cname rc :
  c !! cname = Some "ReplicationController" ->
  findByName cname repcon = Some rc ->
  existsb isController (obj_OwnerReferences rc) = true ->
  resolveStep repset repcon jbs conjbs c cname !! cname = None.
Proof.
  intros Hc Hrc Hctl. unfold resolveStep. rewrite Hc. simpl.
  unfold resolveChild. rewrite Hrc.
  by apply foldl_resolveChild_deletes; right.
Qed.

Lemma hasName_false n l : hasName n l = false -> findByName n l = None.
Proof.
  unfold hasName, findByName. induction l as [|o l IH]; simpl; [done|].
  intros H. apply orb_false_iff in H as [-> H]. by apply IH.
Qed.

Lemma buildWorkload_Deployment_missing layer namespace f (c : gmap string string) d :
  c !! d = Some "Deployment" -> hasName d (dep f) = false ->
  buildWorkload layer namespace f c d = None.
Proof.
  intros Hc Hd. unfold buildWorkload. rewrite Hc. simpl.
  unfold switchWorkloads. simpl. unfold fromSelector.
  by rewrite (hasName_false _ _ Hd).
Qed.

Lemma ownedOnlyBy_true n p :
  ownedOnlyBy n p = true ->
  Nat.eqb (length (pod_OwnerReferences p)) 0 = false
  /\ forall ref, ref ∈ pod_OwnerReferences p -> isController ref = true ->
       ref_Name ref = n.
Proof.
  unfold ownedOnlyBy. rewrite andb_true_iff, negb_true_iff, forallb_forall.
  intros [Hlen Hall]. split; [done|]. intros ref Hin Hc.
  apply list_elem_of_In in Hin. specialize (Hall ref Hin).
  rewrite Hc in Hall. simpl in Hall. by apply bool_decide_eq_true in Hall.
Qed.

Lemma refersTo_true n refs :
  refersTo n refs = true ->
  exists ref, ref ∈ refs /\ isController ref = true /\ ref_Name ref = n.
Proof.
  unfold refersTo. rewrite existsb_exists. intros (ref & Hin & H).
  apply andb_true_iff in H as [Hc Hn]. apply bool_decide_eq_true in Hn.
  exists ref. by rewrite list_elem_of_In.
Qed.

(** The index holds no entry of kind "Pod" for the name of a pod that has
    owner references, is the only fetched pod of its name, and is named
    by no controller reference. *)
Lemma controllerIndex_owned_pod selector order f p :
  filter (fun q => pod_Name q = pod_Name p) (pods f) = [p] ->
  Nat.eqb (length (pod_OwnerReferences p)) 0 = false ->
  namedByPod (pod_Name p) (pods f) = false ->
  namedBy (pod_Name p) (repset f) = false ->
  namedBy (pod_Name p) (repcon f) = false ->
  namedBy (pod_Name p) (jbs f) = false ->
  controllerIndex selector order f !! pod_Name p <> Some "Pod".
Proof.
  intros Honly Hlen Hpods Hrs Hrc Hjb Hidx.
  assert (findControllers (pods f) !! pod_Name p = None) as Hfc.
  { unfold findControllers. rewrite foldl_scanPod_lookup by done.
    rewrite lookup_empty.
    assert (existsb (fun q => bool_decide (pod_Name q = pod_Name p)
                              && Nat.eqb (length (pod_OwnerReferences q)) 0)
                    (pods f) = false) as ->; [|done].
    apply not_true_is_false. intros Hex.
    apply existsb_exists in Hex as (q & Hq & Hcond).
    apply andb_true_iff in Hcond as [Hn Hl]. apply bool_decide_eq_true in Hn.
    assert (q ∈ filter (fun q => pod_Name q = pod_Name p) (pods f)) as Hin
      by (apply list_elem_of_filter; by rewrite list_elem_of_In).
    rewrite Honly in Hin. apply list_elem_of_singleton in Hin. subst q. congruence. }
  unfold controllerIndex in Hidx.
  apply orphanCompletion_kind in Hidx as [Hk|[_ Hk]].
  - rewrite resolveControllers_keep in Hk; try done; [congruence|].
    intros k. by rewrite Hfc.
  - by apply (bool_decide_pack _) in Hk.
Qed.

(** C10, as stated, fails: the parent deployment was not fetched, yet the
    replica-set's pods appear in the returned list, under a second
    deployment whose pod-template labels select them, whichever way the
    index is walked. *)
Lemma fetchWorkloads_pods_selected_by_other :
  findControllers (pods canaryCluster) !! "app1-abc123" = Some "ReplicaSet"
  /\ findByName "app1-abc123" (repset canaryCluster) = Some app1ReplicaSet
  /\ obj_OwnerReferences app1ReplicaSet = [ownedBy "app1" "Deployment"]
  /\ hasName "app1" (dep canaryCluster) = false
  /\ Forall (fun order =>
               map (fun w => (w_Name w, map mp_Name (w_Pods w)))
                   (workloads (clusterLayer canaryCluster) allTasks order "ns1" "")
               = [ ("app1-canary", ["app1-abc123-x1"; "app1-abc123-x2"]);
                   ("orphan-pod", ["orphan-pod"]) ])
            sampleWalks.
Proof.
  split; [by vm_compute|]. split; [by vm_compute|]. split; [done|].
  split; [by vm_compute|]. repeat constructor; by vm_compute.
Qed.

(** C10, amended: the step of the loop on a replica-set (or
    replication-controller) entry whose live object has a controller
    owner reference deletes the entry, whatever the index holds and
    whatever deployments were fetched. When the replica-set [n] refers to
    a deployment that is not among the fetched deployments (and nothing
    else fetched is named [n] or refers to [n]), no workload named after
    the parent or after [n] is returned; and a pod of the replica-set
    appears under no returned workload, provided the pod-template labels
    of no fetched controller other than [n] select it, it is the only
    fetched pod of its name, and no controller reference names it. The
    walk [order] visits [n]. *)
Theorem fetchWorkloads_parentless_replicaset
    layer sched order namespace labelSelector n rs ref :
  Namespace_GetNamespace layer namespace = None ->
  errChan layer namespace labelSelector sched = [] ->
  let f := fetched layer namespace labelSelector in
  findControllers (pods f) !! n = Some "ReplicaSet" ->
  findByName n (repset f) = Some rs ->
  ref ∈ obj_OwnerReferences rs -> isController ref = true ->
  ref_Kind ref = "Deployment" ->
  hasName (ref_Name ref) (dep f) = false ->
  n ∈ order ->
  namedBy n (repset f) = false -> namedBy n (repcon f) = false ->
  namedBy n (jbs f) = false ->
  noOrphanNamed n f = true ->
  (forall (c : gmap string string) cname child,
     (c !! cname = Some "ReplicaSet" /\ findByName cname (repset f) = Some child)
     \/ (c !! cname = Some "ReplicationController"
         /\ findByName cname (repcon f) = Some child) ->
     existsb isController (obj_OwnerReferences child) = true ->
     resolveStep (repset f) (repcon f) (jbs f) (conjbs f) c cname !! cname = None)
  /\ (forall w, w ∈ workloads layer sched order namespace labelSelector ->
        w_Name w <> ref_Name ref /\ w_Name w <> n)
  /\ (forall p,
        filter (fun q => pod_Name q = pod_Name p) (pods f) = [p] ->
        ownedOnlyBy n p = true ->
        namedByPod (pod_Name p) (pods f) = false ->
        namedBy (pod_Name p) (repset f) = false ->
        namedBy (pod_Name p) (repcon f) = false ->
        namedBy (pod_Name p) (jbs f) = false ->
        selectedByOther n p f = false ->
        forall w mp, w ∈ workloads layer sched order namespace labelSelector ->
          mp ∈ w_Pods w -> mp_Name mp <> pod_Name p).
Proof.
  intros Hns Herr f Hidx Hrs Hin Hctl Hkind Hdp Hord Hnrs Hnrc Hnjb Hfree.
  set (controllers := controllerIndex (parseSelector layer labelSelector) order f).
  assert (existsb isController (obj_OwnerReferences rs) = true) as Hex.
  { apply existsb_exists. exists ref. by rewrite <- list_elem_of_In. }
  destruct (resolveControllers_ReplicaSet (repset f) (repcon f) (jbs f) (conjbs f)
              order (findControllers (pods f)) n rs) as [Hgone Hparent]; try done.
  assert (controllers !! n = None) as Hn.
  { unfold controllers, controllerIndex. by rewrite orphanCompletion_noOrphanNamed. }
  assert (controllers !! ref_Name ref = Some "Deployment") as Hd.
  { unfold controllers, controllerIndex. apply orphanCompletion_keeps. by apply Hparent. }
  assert (forall w, w ∈ workloads layer sched order namespace labelSelector ->
            w_Name w <> ref_Name ref /\ w_Name w <> n) as Hnames.
  { intros w Hw. apply elem_of_workloads in Hw as [Hsome Hb]; [|done..].
    fold f in Hsome, Hb. fold controllers in Hsome, Hb. split; intros Hname.
    - rewrite Hname, buildWorkload_Deployment_missing in Hb; done.
    - rewrite Hname, Hn in Hsome. by destruct Hsome. }
  split; [|split; [done|]].
  - intros c cname child [[Hc Hf]|[Hc Hf]] Hchild.
    + by eapply resolveStep_ReplicaSet_deleted.
    + by eapply resolveStep_ReplicationController_deleted.
  - intros p Honly Hown Hpods Hprs Hprc Hpjb Hsel w mp Hw Hmp Hname.
    destruct (Hnames w Hw) as [_ Hwn].
    apply ownedOnlyBy_true in Hown as [Hlen Hrefs].
    assert (forall q, q ∈ pods f -> pod_Name q = pod_Name p -> q = p) as Huniq.
    { intros q Hq Hqn.
      assert (q ∈ filter (fun q => pod_Name q = pod_Name p) (pods f)) as Hqf
        by (by apply list_elem_of_filter).
      rewrite Honly in Hqf. by apply list_elem_of_singleton in Hqf. }
    apply elem_of_workloads in Hw as [_ Hb]; [|done..].
    fold f in Hb. fold controllers in Hb.
    destruct (buildWorkload_pods _ _ _ _ _ _ _ Hb Hmp)
      as [(o & q & Ho & Hon & Hq & Hs & Hm)|[[Hpod Hm]|(q & Hq & Hr & Hm)]].
    + assert (q = p) as -> by (apply Huniq; [done|congruence]).
      assert (selectedByOther n p f = true) as Ht; [|congruence].
      apply existsb_exists. exists o. rewrite <- list_elem_of_In. split; [done|].
      rewrite Hs, bool_decide_false by congruence. done.
    + apply (controllerIndex_owned_pod (parseSelector layer labelSelector) order f p);
        try done. fold controllers. congruence.
    + assert (q = p) as -> by (apply Huniq; [done|congruence]).
      apply refersTo_true in Hr as (r & Hr & Hrc & Hrn).
      apply Hwn. rewrite <- Hrn. by apply Hrefs.
Qed.

Lemma fetchWorkloads_parentless_replicaset_witness :
  ~ exists w mp,
      w ∈ workloads (clusterLayer headlessCluster) allTasks sampleOrder "ns1" ""
      /\ mp ∈ w_Pods w /\ mp_Name mp = "app1-abc123-x1".
Proof.
  assert ("app1-abc123" ∈ sampleOrder) as Hord
    by (apply (bool_decide_unpack _); reflexivity).
  assert (ownedBy "app1" "Deployment" ∈ obj_OwnerReferences app1ReplicaSet) as Href
    by (apply list_elem_of_singleton; reflexivity).
  intros (w & mp & Hw & Hmp & Hname).
  exact (proj2 (proj2 (fetchWorkloads_parentless_replicaset
                         (clusterLayer headlessCluster) allTasks sampleOrder "ns1" ""
                         "app1-abc123" app1ReplicaSet (ownedBy "app1" "Deployment")
                         eq_refl eq_refl eq_refl eq_refl Href eq_refl eq_refl eq_refl
                         Hord eq_refl eq_refl eq_refl eq_refl))
               (mkPod "app1-abc123-x1" {[ "app" := "app1" ]}
                      [ownedBy "app1-abc123" "ReplicaSet"] [])
               eq_refl eq_refl eq_refl eq_refl eq_refl eq_refl eq_refl
               w mp Hw Hmp Hname).
Defined.

(** * Further properties of the resolver *)

(** ** The order of names: [sort.Strings] *)

Lemma ascii_compare_Lt_trans a b c :
  Ascii.compare a b = Lt -> Ascii.compare b c = Lt -> Ascii.compare a c = Lt.
Proof. unfold Ascii.compare. rewrite !N.compare_lt_iff. lia. Qed.

Lemma string_compare_Lt_trans s1 s2 s3 :
  String.compare s1 s2 = Lt -> String.compare s2 s3 = Lt -> String.compare s1 s3 = Lt.
Proof.
  revert s2 s3. induction s1 as [|a s1 IH]; intros [|b s2] [|c s3]; simpl; try done.
  assert (forall x, Ascii.compare x x = Eq) as Hrefl
    by (intros x; unfold Ascii.compare; apply N.compare_refl).
  destruct (Ascii.compare a b) eqn:Eab; try done;
    destruct (Ascii.compare b c) eqn:Ebc; try done.
  - apply Ascii.compare_eq_iff in Eab, Ebc. subst. rewrite Hrefl. apply IH.
  - apply Ascii.compare_eq_iff in Eab. subst. by rewrite Ebc.
  - apply Ascii.compare_eq_iff in Ebc. subst. by rewrite Eab.
  - by rewrite (ascii_compare_Lt_trans _ _ _ Eab Ebc).
Qed.

Lemma string_le_refl s : string_le s s.
Proof. unfold string_le. destruct (String.leb_total s s) as [H|H]; by rewrite H. Qed.

Lemma string_le_trans : Transitive string_le.
Proof.
  intros a b c. unfold string_le, String.leb.
  destruct (String.compare a b) eqn:Eab; try done;
    destruct (String.compare b c) eqn:Ebc; try done; intros _ _.
  - apply String.compare_eq_iff in Eab, Ebc. subst.
    pose proof (string_le_refl c) as H. by unfold string_le, String.leb in H.
  - apply String.compare_eq_iff in Eab. subst. by rewrite Ebc.
  - apply String.compare_eq_iff in Ebc. subst. by rewrite Eab.
  - by rewrite (string_compare_Lt_trans _ _ _ Eab Ebc).
Qed.

Lemma string_le_total : Total string_le.
Proof.
  intros a b. unfold string_le.
  destruct (String.leb_total a b) as [H|H]; rewrite H; auto.
Qed.

Lemma string_le_antisym : AntiSymm eq string_le.
Proof.
  intros a b Ha Hb. unfold string_le in *.
  apply String.leb_antisym; by apply Is_true_true.
Qed.

Lemma StronglySorted_filter {A} (R : relation A) (P : A -> Prop)
    `{!forall x, Decision (P x)} (l : list A) :
  StronglySorted R l -> StronglySorted R (filter P l).
Proof.
  induction 1 as [|x l Hl IH Hx]; [constructor|].
  rewrite filter_cons. destruct (decide (P x)); [|done].
  constructor; [done|]. apply Forall_forall. intros y Hy.
  apply list_elem_of_filter in Hy as [_ Hy].
  by eapply Forall_forall in Hx.
Qed.

Lemma omap_names (build : string -> option Workload) (l : list string) :
  (forall x w, build x = Some w -> w_Name w = x) ->
  map w_Name (omap build l) = filter (fun x => is_Some (build x)) l.
Proof.
  intros Hname. induction l as [|x l IH]; simpl; [done|].
  rewrite filter_cons. destruct (build x) as [w|] eqn:E.
  - rewrite decide_True by eauto. simpl. rewrite (Hname _ _ E). f_equal. exact IH.
  - rewrite decide_False by (by intros [? ?]). done.
Qed.

(** X1: whatever [fetchWorkloads] returns is ordered by name with
    [sort.Strings]' order, and no two workloads share a name. *)
Theorem fetchWorkloads_sorted_by_name layer sched order namespace labelSelector :
  StronglySorted string_le
    (map w_Name (fst (fetchWorkloads layer sched order namespace labelSelector)))
  /\ NoDup (map w_Name (fst (fetchWorkloads layer sched order namespace labelSelector))).
Proof.
  unfold fetchWorkloads.
  destruct (Namespace_GetNamespace layer namespace); simpl;
    [split; constructor|].
  destruct (errChan layer namespace labelSelector sched); simpl;
    [|split; constructor].
  rewrite omap_names
    by (intros x w Hb; by apply buildWorkload_name in Hb as [? _]).
  split.
  - apply StronglySorted_filter. unfold sortedNames.
    apply StronglySorted_merge_sort; [apply string_le_trans|apply string_le_total].
  - apply NoDup_filter, NoDup_sortedNames.
Qed.

(** ** Where the kinds of the index come from *)

Lemma controllerPriority_cases a b :
  controllerPriority a b = a \/ controllerPriority a b = b.
Proof.
  rewrite controllerPriority_unfold. destruct (rank b <=? rank a); auto.
Qed.

Lemma mergeController_inv (S : string -> string -> Prop) (c : gmap string string) ref :
  (forall n k, c !! n = Some k -> S n k) ->
  S (ref_Name ref) (ref_Kind ref) ->
  forall n k, mergeController c ref !! n = Some k -> S n k.
Proof.
  intros Hc Href n k. unfold mergeController.
  destruct (c !! ref_Name ref) as [k0|] eqn:E.
  - case_bool_decide; [|by apply Hc].
    destruct (decide (ref_Name ref = n)) as [<-|Hne].
    + rewrite lookup_insert_eq. intros [= <-].
      destruct (controllerPriority_cases k0 (ref_Kind ref)) as [-> | ->]; auto.
    + rewrite lookup_insert_ne by done. apply Hc.
  - destruct (decide (ref_Name ref = n)) as [<-|Hne].
    + rewrite lookup_insert_eq. by intros [= <-].
    + rewrite lookup_insert_ne by done. apply Hc.
Qed.

Lemma delete_inv (S : string -> string -> Prop) (c : gmap string string) cname :
  (forall n k, c !! n = Some k -> S n k) ->
  forall n k, delete cname c !! n = Some k -> S n k.
Proof.
  intros Hc n k H. apply lookup_delete_Some in H as [_ H]. by apply Hc.
Qed.

Lemma foldl_inv {A B} (P : A -> Prop) (Q : B -> Prop) (g : A -> B -> A) l a :
  (forall a b, P a -> Q b -> P (g a b)) ->
  P a -> (forall b, b ∈ l -> Q b) -> P (foldl g a l).
Proof.
  intros Hg. revert a. induction l as [|b l IH]; intros a Ha Hl; simpl; [done|].
  apply IH.
  - apply Hg; [done|]. apply Hl. by apply elem_of_cons; left.
  - intros b' Hb'. apply Hl. by apply elem_of_cons; right.
Qed.

Lemma elem_of_flat_map_2 {A B} (g : A -> list B) l x y :
  x ∈ l -> y ∈ g x -> y ∈ flat_map g l.
Proof.
  intros Hx Hy. apply list_elem_of_In, in_flat_map. exists x.
  by rewrite <- !list_elem_of_In.
Qed.

Lemma findControllers_inv f n k :
  findControllers (pods f) !! n = Some k -> kindSource f n k.
Proof.
  unfold findControllers. revert n k.
  apply (foldl_inv (fun c : gmap string string =>
                      forall n k, c !! n = Some k -> kindSource f n k)
                   (fun p => p ∈ pods f)); [|by intros n k; rewrite lookup_empty|done].
  intros c p Hc Hp. unfold scanPod.
  destruct (Nat.eqb (length (pod_OwnerReferences p)) 0) eqn:Hlen; simpl.
  - destruct (c !! pod_Name p) eqn:E; [done|].
    intros n k. destruct (decide (pod_Name p = n)) as [<-|Hne].
    + rewrite lookup_insert_eq. intros [= <-]. left. split; [done|].
      exists p. apply Nat.eqb_eq in Hlen. by destruct (pod_OwnerReferences p).
    + rewrite lookup_insert_ne by done. apply Hc.
  - apply (foldl_inv (fun c : gmap string string =>
                        forall n k, c !! n = Some k -> kindSource f n k)
                     (fun ref => ref ∈ pod_OwnerReferences p)); [|done|done].
    intros c' ref Hc' Href. destruct (isController ref) eqn:Hctl; [|done].
    apply mergeController_inv; [done|].
    right; left. exists ref. split; [|done].
    unfold ownerRefs. apply elem_of_app; left. by eapply elem_of_flat_map_2.
Qed.

Lemma resolveStep_inv f (c : gmap string string) cname :
  (forall n k, c !! n = Some k -> kindSource f n k) ->
  forall n k,
    resolveStep (repset f) (repcon f) (jbs f) (conjbs f) c cname !! n = Some k ->
    kindSource f n k.
Proof.
  intros Hc.
  assert (forall o ref, o ∈ repset f ++ repcon f ++ jbs f ->
            ref ∈ obj_OwnerReferences o -> isController ref = true ->
            kindSource f (ref_Name ref) (ref_Kind ref)) as Hsrc.
  { intros o ref Ho Href Hctl. right; left. exists ref. split; [|done].
    unfold ownerRefs. apply elem_of_app; right. by eapply elem_of_flat_map_2. }
  assert (forall l c', (forall o, o ∈ l -> o ∈ repset f ++ repcon f ++ jbs f) ->
            (forall n k, c' !! n = Some k -> kindSource f n k) ->
            forall n k, resolveChild l cname c' !! n = Some k -> kindSource f n k)
    as Hchild.
  { intros l c' Hl Hc'. unfold resolveChild.
    destruct (findByName cname l) as [o|] eqn:E; [|done].
    apply findByName_Some in E as [Ho _].
    apply (foldl_inv (fun c : gmap string string =>
                        forall n k, c !! n = Some k -> kindSource f n k)
                     (fun ref => ref ∈ obj_OwnerReferences o)); [|done|done].
    intros c0 ref Hc0 Href. destruct (isController ref) eqn:Hctl; [|done].
    apply delete_inv, mergeController_inv; [done|]. eapply Hsrc; eauto. }
  assert (forall c', (forall n k, c' !! n = Some k -> kindSource f n k) ->
            forall n k, resolveJob (jbs f) (conjbs f) cname c' !! n = Some k ->
                        kindSource f n k) as Hjob.
  { intros c' Hc'. unfold resolveJob.
    destruct (findByName cname (jbs f)) as [o|] eqn:E; [|done].
    apply findByName_Some in E as [Ho _].
    apply (foldl_inv (fun c : gmap string string =>
                        forall n k, c !! n = Some k -> kindSource f n k)
                     (fun ref => ref ∈ obj_OwnerReferences o)); [|done|done].
    intros c0 ref Hc0 Href. destruct (isController ref) eqn:Hctl; [|done].
    assert (forall n k, mergeController c0 ref !! n = Some k -> kindSource f n k)
      as Hm.
    { apply mergeController_inv; [done|]. eapply Hsrc; eauto.
      rewrite !elem_of_app. auto. }
    simpl. destruct (existsb _ (conjbs f)); [by apply delete_inv|done]. }
  unfold resolveStep. destruct (c !! cname) as [ctype|]; [|done].
  assert (forall o, o ∈ repset f -> o ∈ repset f ++ repcon f ++ jbs f) as H1
    by (intros o Ho; rewrite !elem_of_app; auto).
  assert (forall o, o ∈ repcon f -> o ∈ repset f ++ repcon f ++ jbs f) as H2
    by (intros o Ho; rewrite !elem_of_app; auto).
  set (c1 := if bool_decide (ctype = kubernetes.ReplicaSetType)
             then resolveChild (repset f) cname c else c).
  assert (forall n k, c1 !! n = Some k -> kindSource f n k) as Hc1.
  { unfold c1. case_bool_decide; [by apply Hchild|done]. }
  set (c2 := if bool_decide (ctype = kubernetes.ReplicationControllerType)
             then resolveChild (repcon f) cname c1 else c1).
  assert (forall n k, c2 !! n = Some k -> kindSource f n k) as Hc2.
  { unfold c2. case_bool_decide; [by apply Hchild|done]. }
  case_bool_decide; [by apply Hjob|done].
Qed.

Lemma orphanCompletion_source selector f (c : gmap string string) n k :
  c !! n = None ->
  orphanCompletion selector (dep f) (repset f) (depcon f) (repcon f)
                   (fulset f) (daeset f) c !! n = Some k ->
  exists l, (k, l) ∈ orphanLists f /\ hasName n l = true.
Proof.
  intros Hc. rewrite orphanCompletion_lookup, Hc. simpl.
  assert (forall P l, hasNamed P n l = true -> hasName n l = true) as Hn.
  { intros P l H. destruct (hasName n l) eqn:E; [done|].
    by rewrite (hasNamed_hasName P) in H. }
  unfold orphanLists.
  repeat (match goal with
          | |- context [hasNamed ?P n ?l] =>
              let E := fresh "E" in
              destruct (hasNamed P n l) eqn:E;
              [ intros [= <-]; exists l; split; [set_solver|by eapply Hn] | ]
          end).
  done.
Qed.

(** X2: the kind the index holds for a name is never invented: it is
    "Pod" for a pod of that name without owner references, or the kind of
    a controller owner reference to that name (on a pod, replica-set,
    replication-controller or job), or the kind of an orphan loop with a
    fetched controller of that name; and a returned workload has the kind
    the index holds for its name. *)
Theorem fetchWorkloads_kind_source layer sched order namespace labelSelector :
  let f := fetched layer namespace labelSelector in
  (forall selector n k,
     controllerIndex selector order f !! n = Some k -> kindSource f n k)
  /\ (forall w, w ∈ fst (fetchWorkloads layer sched order namespace labelSelector) ->
        controllerIndex (parseSelector layer labelSelector) order f !! w_Name w
          = Some (w_Type w)
        /\ kindSource f (w_Name w) (w_Type w)).
Proof.
  intros f.
  assert (forall selector n k,
            controllerIndex selector order f !! n = Some k -> kindSource f n k) as Hidx.
  { intros selector n k. unfold controllerIndex. intros H.
    set (c := resolveControllers (repset f) (repcon f) (jbs f) (conjbs f) order
                (findControllers (pods f))) in *.
    assert (forall n k, c !! n = Some k -> kindSource f n k) as Hc.
    { unfold c, resolveControllers.
      apply (foldl_inv (fun c : gmap string string =>
                          forall n k, c !! n = Some k -> kindSource f n k)
                       (fun _ => True)); [|apply findControllers_inv|done].
      intros c' cname Hc' _. by apply resolveStep_inv. }
    destruct (c !! n) as [k0|] eqn:E.
    - erewrite orphanCompletion_keeps in H by done. injection H as <-. by apply Hc.
    - right; right. by eapply orphanCompletion_source. }
  split; [done|]. intros w Hw.
  unfold fetchWorkloads in Hw.
  destruct (Namespace_GetNamespace layer namespace);
    [by apply elem_of_nil in Hw|].
  destruct (errChan layer namespace labelSelector sched);
    [|by apply elem_of_nil in Hw].
  simpl in Hw. fold f in Hw. apply list_elem_of_omap in Hw as (cname & Hin & Hb).
  apply elem_of_sortedNames in Hin as [k Hk].
  apply buildWorkload_name in Hb as [Hn Ht]. rewrite Hk in Ht. simpl in Ht.
  subst cname k. split; [done|]. by eapply Hidx.
Qed.

Lemma fetchWorkloads_kind_source_witness :
  kindSource (fetched (clusterLayer sampleCluster) "ns1" "") "app1" "Deployment".
Proof.
  apply (proj1 (fetchWorkloads_kind_source (clusterLayer sampleCluster) allTasks
                  sampleOrder "ns1" "") None "app1" "Deployment").
  vm_compute. reflexivity.
Defined.


(** ** What a kind hint does to [fetchWorkload] *)

Lemma controllerType_hint ctype workloadType :
  workloadType <> "" -> controllerType ctype workloadType = workloadType.
Proof.
  intros Hne. unfold controllerType. rewrite (bool_decide_true _ Hne). simpl.
  by case_bool_decide.
Qed.

Lemma fetchWorkload_Some layer sched order namespace workloadName workloadType w :
  fetchWorkload layer sched order namespace workloadName workloadType = (Some w, None) ->
  buildWorkload1 layer namespace (fetched1 layer namespace workloadName workloadType)
    (controllerIndex1 order (fetched1 layer namespace workloadName workloadType))
    workloadName workloadType = Some w.
Proof.
  unfold fetchWorkload.
  destruct (Namespace_GetNamespace layer namespace); [done|].
  destruct (errChan1 layer namespace workloadName workloadType sched); [|done].
  destruct (buildWorkload1 _ _ _ _ _ _); [|done]. by intros [= <-].
Qed.

Lemma fromSingle_type kind o pods cname w :
  snd (fromSingle (parseObject kind) o pods cname w) = true ->
  w_Type (fst (fromSingle (parseObject kind) o pods cname w)) = kind.
Proof.
  unfold fromSingle. destruct o as [x|]; simpl; [|done].
  by case_bool_decide.
Qed.

(** X3: with a hint that names one of the nine kinds of the switch, a
    workload that [fetchWorkload] returns has the requested name and the
    hinted kind, whatever kind the index holds for the name. *)
Theorem fetchWorkload_hint_kind layer sched order namespace workloadName workloadType w :
  workloadType ∈ switchKinds ->
  fetchWorkload layer sched order namespace workloadName workloadType = (Some w, None) ->
  w_Name w = workloadName /\ w_Type w = workloadType.
Proof.
  intros Hin Hres. apply fetchWorkload_Some in Hres.
  set (f := fetched1 layer namespace workloadName workloadType) in *.
  unfold buildWorkload1 in Hres.
  destruct (controllerIndex1 order f !! workloadName) as [ctype|]; [|done].
  assert (workloadType <> "") as Hne.
  { intros ->. by apply (bool_decide_pack _) in Hin. }
  rewrite controllerType_hint in Hres by done.
  pose proof (runBranch_name f workloadName ctype (branchOf workloadType) emptyWorkload)
    as Hname.
  assert (snd (runBranch f workloadName ctype (branchOf workloadType) emptyWorkload)
          = true ->
          w_Type (fst (runBranch f workloadName ctype (branchOf workloadType)
                         emptyWorkload)) = workloadType) as Htype.
  { unfold switchKinds in Hin.
    repeat (apply elem_of_cons in Hin as [->|Hin];
            [simpl; intros H;
             first [ by apply fromSingle_type in H
                   | by apply fromSelector_name in H as [_ ?]
                   | by apply fromPod_name in H as [_ ?] ]|]).
    by apply elem_of_nil in Hin. }
  destruct (runBranch f workloadName ctype (branchOf workloadType) emptyWorkload)
    as [w0 [|]]; [|done].
  injection Hres as <-. simpl in *. split; auto.
Qed.

Lemma fetchWorkload_hint_kind_witness :
  exists w,
    fetchWorkload (clusterLayer sampleCluster) allTasks sampleOrder "ns1" "app1"
      "Deployment" = (Some w, None)
    /\ w_Name w = "app1" /\ w_Type w = "Deployment".
Proof.
  eexists. split; [reflexivity|].
  apply (fetchWorkload_hint_kind (clusterLayer sampleCluster) allTasks sampleOrder
           "ns1" "app1" "Deployment").
  - apply (bool_decide_unpack _). reflexivity.
  - reflexivity.
Defined.

Lemma branchOf_custom kind : kind ∉ switchKinds -> branchOf kind = BDefault.
Proof.
  intros Hk. unfold branchOf.
  repeat (case_bool_decide as H;
          [exfalso; apply Hk; subst kind; apply (bool_decide_unpack _); reflexivity
          |clear H]).
  done.
Qed.

(** X4: with a non-empty hint that names none of the nine kinds, a
    requested name that is a key of the index never comes back as
    Not-Found: the default branch runs, and the workload returned carries
    the kind found in the index, not the hint. *)
Theorem fetchWorkload_custom_hint
    layer sched order namespace workloadName workloadType ctype :
  Namespace_GetNamespace layer namespace = None ->
  errChan1 layer namespace workloadName workloadType sched = [] ->
  workloadType <> "" -> workloadType ∉ switchKinds ->
  controllerIndex1 order (fetched1 layer namespace workloadName workloadType)
    !! workloadName = Some ctype ->
  exists w,
    fetchWorkload layer sched order namespace workloadName workloadType = (Some w, None)
    /\ w_Name w = workloadName /\ w_Type w = ctype.
Proof.
  intros Hns Herr Hne Hcustom Hc.
  unfold fetchWorkload, buildWorkload1. rewrite Hns, Herr, Hc.
  rewrite controllerType_hint, branchOf_custom by done. simpl.
  destruct (fromCustom_name
              (repset1 (fetched1 layer namespace workloadName workloadType))
              (pods1 (fetched1 layer namespace workloadName workloadType))
              workloadName ctype emptyWorkload) as (Hfound & Hn & Ht).
  destruct (fromCustom _ _ workloadName ctype emptyWorkload) as [w0 found].
  simpl in *. subst found. eexists. split; [done|]. by simpl.
Qed.

Lemma fetchWorkload_custom_hint_witness :
  exists w,
    fetchWorkload (clusterLayer rolloutCluster) allTasks ["canary1-796d9"] "ns1"
      "canary1" "Argo" = (Some w, None)
    /\ w_Name w = "canary1" /\ w_Type w = "Rollout".
Proof.
  apply (fetchWorkload_custom_hint (clusterLayer rolloutCluster) allTasks
           ["canary1-796d9"] "ns1" "canary1" "Argo" "Rollout").
  - reflexivity.
  - reflexivity.
  - discriminate.
  - intros H. apply (bool_decide_pack _) in H. exact H.
  - reflexivity.
Defined.

(** ** The orphan loops only add *)

Lemma hasNamed_none (P : Object -> bool) n l :
  (forall o, o ∈ l -> P o = false) -> hasNamed P n l = false.
Proof.
  intros H. unfold hasNamed. induction l as [|o l IH]; simpl; [done|].
  rewrite (H o) by (apply elem_of_cons; auto). rewrite andb_false_r. simpl.
  apply IH. intros o' Ho'. apply H. apply elem_of_cons; auto.
Qed.

(** X5: orphan completion only adds to the index. Every entry is kept
    with its kind; running the loops again on their result changes
    nothing; and with a selector that matches the pod template of none of
    the fetched controllers the index is left as it was. *)
Theorem orphanCompletion_only_adds
    selector dep repset depcon repcon fulset daeset (c : gmap string string) :
  let c' := orphanCompletion selector dep repset depcon repcon fulset daeset c in
  c ⊆ c'
  /\ orphanCompletion selector dep repset depcon repcon fulset daeset c' = c'
  /\ ((forall o, o ∈ dep ++ repset ++ depcon ++ repcon ++ fulset ++ daeset ->
         selectorCheck selector o = false) ->
      c' = c).
Proof.
  intros c'. split; [|split].
  - apply map_subseteq_spec. intros n k Hn. by apply orphanCompletion_keeps.
  - apply map_eq. intros n. rewrite orphanCompletion_lookup.
    destruct (c' !! n) as [k|] eqn:E; [done|].
    unfold c' in E. rewrite orphanCompletion_lookup in E.
    destruct (c !! n); [done|]. exact E.
  - intros Hsel. apply map_eq. intros n. unfold c'.
    rewrite orphanCompletion_lookup. destruct (c !! n); [done|]. simpl.
    rewrite !hasNamed_none; [done|..]; intros o Ho;
      try (rewrite (Hsel o), ?andb_false_r; [done|]);
      try apply Hsel; rewrite !elem_of_app; auto 10.
Qed.

Lemma orphanCompletion_only_adds_witness :
  orphanCompletion (Some (fun _ => false)) (dep sampleCluster) (repset sampleCluster)
    (depcon sampleCluster) (repcon sampleCluster) (fulset sampleCluster)
    (daeset sampleCluster) (findControllers (pods sampleCluster))
  = findControllers (pods sampleCluster).
Proof.
  apply (proj2 (proj2 (orphanCompletion_only_adds (Some (fun _ => false))
                         (dep sampleCluster) (repset sampleCluster)
                         (depcon sampleCluster) (repcon sampleCluster)
                         (fulset sampleCluster) (daeset sampleCluster)
                         (findControllers (pods sampleCluster))))).
  intros o _. reflexivity.
Defined.


(** ** The scan of the pods *)

Lemma mergeController_is_Some_iff (c : gmap string string) ref n :
  is_Some (mergeController c ref !! n) <-> is_Some (c !! n) \/ ref_Name ref = n.
Proof.
  unfold mergeController. destruct (c !! ref_Name ref) as [k|] eqn:E.
  - case_bool_decide.
    + rewrite lookup_insert_is_Some.
      destruct (decide (ref_Name ref = n)); intuition.
    + split; [auto|]. intros [H'|<-]; [done|]. by rewrite E.
  - rewrite lookup_insert_is_Some.
    destruct (decide (ref_Name ref = n)); intuition.
Qed.

Lemma foldl_merge_is_Some refs (c : gmap string string) n :
  is_Some (foldl (fun c ref => if isController ref then mergeController c ref else c)
                 c refs !! n)
  <-> is_Some (c !! n) \/ refersTo n refs = true.
Proof.
  revert c. induction refs as [|ref refs IH]; intros c; simpl.
  - intuition. discriminate.
  - rewrite IH. unfold refersTo. simpl. rewrite orb_true_iff.
    destruct (isController ref); simpl.
    + rewrite mergeController_is_Some_iff, bool_decide_eq_true. tauto.
    + intuition. discriminate.
Qed.

Lemma foldl_scanPod_is_Some l (c : gmap string string) n :
  is_Some (foldl scanPod c l !! n)
  <-> is_Some (c !! n) \/ namedByPod n l = true \/ bareName n l = true.
Proof.
  revert c. induction l as [|p l IH]; intros c; simpl.
  - intuition; discriminate.
  - rewrite IH. clear IH. unfold namedByPod, bareName. simpl.
    rewrite !orb_true_iff. unfold scanPod.
    destruct (Nat.eqb (length (pod_OwnerReferences p)) 0) eqn:Hlen; simpl.
    + rewrite andb_true_r, bool_decide_eq_true.
      assert (refersTo n (pod_OwnerReferences p) = false) as ->.
      { apply Nat.eqb_eq in Hlen. by destruct (pod_OwnerReferences p). }
      destruct (c !! pod_Name p) eqn:E.
      * assert (pod_Name p = n -> is_Some (c !! n)) by (intros <-; by rewrite E).
        intuition; discriminate.
      * rewrite lookup_insert_is_Some.
        destruct (decide (pod_Name p = n)); intuition; discriminate.
    + rewrite andb_false_r, foldl_merge_is_Some. intuition; discriminate.
Qed.

(** X6: the scan of the pods loses no pod and invents no name: the keys
    of the index it builds are exactly the names in the controller owner
    references of the pods and the names of the pods without owner
    references. *)
Theorem findControllers_keys (pods : list Pod) n :
  is_Some (findControllers pods !! n)
  <-> namedByPod n pods = true \/ bareName n pods = true.
Proof.
  unfold findControllers. rewrite foldl_scanPod_is_Some, lookup_empty.
  split; [|auto]. intros [[? ?]|?]; [done|auto].
Qed.

(** ** The list and the single workload agree *)










(** ** [updateWorkload] *)

Lemma updateOne_Some layer patch namespace workloadName jsonPatch wkType e :
  updateOne layer patch namespace workloadName jsonPatch wkType = Some e
  <-> isWorkloadIncluded layer wkType = true
      /\ patch namespace workloadName wkType jsonPatch = Some e
      /\ IsNotFound e = false.
Proof.
  unfold updateOne. destruct (isWorkloadIncluded layer wkType).
  - destruct (patch namespace workloadName wkType jsonPatch) as [e'|].
    + destruct (IsNotFound e') eqn:E; simpl.
      * split; [done|]. intros (_ & [= ->] & ?). congruence.
      * split; [by intros [= ->]|]. by intros (_ & [= ->] & _).
    + split; [done|]. by intros (_ & ? & _).
  - split; [done|]. by intros (? & _).
Qed.

(** X8: [updateWorkload] reports an error only for an answer that is not
    Not-Found. Once the namespace check has passed, it returns nil
    exactly when every patched kind answered nil or Not-Found, so a
    workload that exists under no kind is reported as updated; and an
    error it returns is the answer of an included kind it patched. *)
Theorem updateWorkload_drops_not_found
    layer patch sched namespace workloadName workloadType jsonPatch :
  Namespace_GetNamespace layer namespace = None ->
  sched ≡ₚ updateTargets workloadType ->
  (updateWorkload layer patch sched namespace workloadName workloadType jsonPatch = None
   <-> forall wkType e,
         wkType ∈ updateTargets workloadType ->
         isWorkloadIncluded layer wkType = true ->
         patch namespace workloadName wkType jsonPatch = Some e ->
         IsNotFound e = true)
  /\ (forall e,
        updateWorkload layer patch sched namespace workloadName workloadType jsonPatch
          = Some e ->
        exists wkType,
          wkType ∈ updateTargets workloadType
          /\ isWorkloadIncluded layer wkType = true
          /\ patch namespace workloadName wkType jsonPatch = Some e
          /\ IsNotFound e = false).
Proof.
  intros Hns Hperm. unfold updateWorkload. rewrite Hns.
  set (sent := omap (updateOne layer patch namespace workloadName jsonPatch) sched).
  assert (forall e, e ∈ sent <->
            exists wkType, wkType ∈ updateTargets workloadType
              /\ isWorkloadIncluded layer wkType = true
              /\ patch namespace workloadName wkType jsonPatch = Some e
              /\ IsNotFound e = false) as Hsent.
  { intros e. unfold sent. rewrite list_elem_of_omap. split.
    - intros (k & Hk & Hu). apply updateOne_Some in Hu. exists k.
      by rewrite <- Hperm.
    - intros (k & Hk & Hu). exists k. rewrite Hperm. split; [done|].
      by apply updateOne_Some. }
  split.
  - destruct sent as [|e0 es] eqn:E.
    + split; [|done]. intros _ k e Hk Hinc Hp.
      destruct (IsNotFound e) eqn:Hnf; [done|].
      assert (e ∈ []) as Hin by (apply Hsent; eauto 10).
      by apply elem_of_nil in Hin.
    + split; [done|]. intros Hall.
      assert (e0 ∈ e0 :: es) as Hin by (apply elem_of_cons; auto).
      apply Hsent in Hin as (k & Hk & Hinc & Hp & Hnf).
      rewrite (Hall k e0 Hk Hinc Hp) in Hnf. done.
  - intros e He. apply Hsent. destruct sent as [|e0 es]; [done|].
    injection He as ->. apply elem_of_cons; auto.
Qed.

Lemma updateWorkload_drops_not_found_witness :
  updateWorkload (clusterLayer emptyCluster) nowhere workloadTypes "ns1" "ghost" "" "{}"
  = None.
Proof.
  apply (proj1 (updateWorkload_drops_not_found (clusterLayer emptyCluster) nowhere
                  workloadTypes "ns1" "ghost" "" "{}" eq_refl
                  (reflexivity (updateTargets "")))).
  intros wkType e _ _ Hp. injection Hp as <-. reflexivity.
Defined.

(** X9: an excluded kind is never patched. With a hint that names one of
    the nine kinds and that kind excluded, [updateWorkload] returns nil
    whatever the cluster would answer to the patch. *)
Theorem updateWorkload_excluded_hint
    layer patch sched namespace workloadName workloadType jsonPatch :
  Namespace_GetNamespace layer namespace = None ->
  workloadType ∈ workloadTypes ->
  isWorkloadIncluded layer workloadType = false ->
  sched ≡ₚ updateTargets workloadType ->
  updateWorkload layer patch sched namespace workloadName workloadType jsonPatch = None.
Proof.
  intros Hns Hin Hexcl Hperm. unfold updateWorkload. rewrite Hns.
  assert (updateTargets workloadType = [workloadType]) as Ht.
  { unfold updateTargets. case_bool_decide as Hne.
    - cbv zeta.
      destruct (existsb (fun wt => bool_decide (workloadType = wt)) workloadTypes) eqn:E;
        [done|].
      exfalso. apply not_true_iff_false in E. apply E. apply existsb_exists.
      exists workloadType. split; [by apply list_elem_of_In|by apply bool_decide_eq_true].
    - assert (workloadType = "") as -> by (destruct (decide (workloadType = "")); tauto).
      exfalso. revert Hin. apply (bool_decide_unpack _). reflexivity. }
  rewrite Ht in Hperm. apply Permutation_singleton_r in Hperm as ->.
  simpl. unfold updateOne. by rewrite Hexcl.
Qed.

Lemma updateWorkload_excluded_hint_witness :
  updateWorkload noJobsLayer (fun _ _ _ _ => Some (OtherError "refused"))
    ["Job"] "ns1" "nightly" "Job" "{}" = None.
Proof.
  apply (updateWorkload_excluded_hint noJobsLayer
           (fun _ _ _ _ => Some (OtherError "refused"))
           ["Job"] "ns1" "nightly" "Job" "{}").
  - reflexivity.
  - apply (bool_decide_unpack _). reflexivity.
  - reflexivity.
  - reflexivity.
Defined.

(** ** Applications *)

Lemma existsb_bool_decide_eq (v : string) (l : list string) :
  existsb (fun v1 => bool_decide (v1 = v)) l = bool_decide (v ∈ l).
Proof.
  induction l as [|x l IH]; simpl.
  - done.
  - rewrite IH. destruct (decide (x = v)) as [->|Hne].
    + rewrite (bool_decide_eq_true_2 (v = v)) by done. simpl.
      symmetry. apply bool_decide_eq_true_2. left.
    + rewrite (bool_decide_eq_false_2 (x = v)) by done. simpl.
      apply bool_decide_ext. rewrite elem_of_cons. intuition congruence.
Qed.

Lemma joinEntry_lookup m1 k v2 k' :
  joinEntry m1 (k, v2) !! k'
  = if decide (k' = k)
    then if decide (v2 ∈ default [] (m1 !! k))
         then m1 !! k
         else Some (default [] (m1 !! k) ++ [v2])
    else m1 !! k'.
Proof.
  unfold joinEntry. rewrite existsb_bool_decide_eq.
  destruct (decide (k' = k)) as [->|Hne].
  - destruct (decide (v2 ∈ default [] (m1 !! k))) as [Hin|Hin].
    + by rewrite (bool_decide_eq_true_2 _ Hin).
    + rewrite (bool_decide_eq_false_2 _ Hin). simpl. by rewrite lookup_insert_eq.
  - case_bool_decide; simpl; [done|]. by rewrite lookup_insert_ne.
Qed.

Lemma joinMap_lookup_other (range : list (string * string)) m1 k :
  k ∉ range.*1 -> foldl joinEntry m1 range !! k = m1 !! k.
Proof.
  revert m1. induction range as [|[k0 v0] range IH]; intros m1 Hk; [done|].
  rewrite fmap_cons in Hk. apply not_elem_of_cons in Hk as [Hne Hk].
  change (foldl joinEntry (joinEntry m1 (k0, v0)) range !! k = m1 !! k).
  rewrite IH by done. rewrite joinEntry_lookup. by rewrite decide_False.
Qed.

Lemma joinMap_lookup_entry (range : list (string * string)) m1 k v2 :
  NoDup (range.*1) ->
  (k, v2) ∈ range ->
  foldl joinEntry m1 range !! k
  = if decide (v2 ∈ default [] (m1 !! k))
    then m1 !! k
    else Some (default [] (m1 !! k) ++ [v2]).
Proof.
  revert m1. induction range as [|[k0 v0] range IH]; intros m1 Hnd Hin.
  { by apply elem_of_nil in Hin. }
  rewrite fmap_cons in Hnd. apply NoDup_cons in Hnd as [Hk0 Hnd].
  change (foldl joinEntry (joinEntry m1 (k0, v0)) range !! k
          = if decide (v2 ∈ default [] (m1 !! k))
            then m1 !! k
            else Some (default [] (m1 !! k) ++ [v2])).
  apply elem_of_cons in Hin as [[= -> ->]|Hin].
  - rewrite joinMap_lookup_other by done.
    rewrite joinEntry_lookup. by rewrite decide_True.
  - assert (k <> k0) as Hne.
    { intros ->. apply Hk0. apply list_elem_of_fmap. by exists (k0, v2). }
    rewrite IH by done. rewrite joinEntry_lookup.
    by destruct (decide (k = k0)).
Qed.

(** X10: what [joinMap] leaves under a key. Whatever the order in which
    the loop visits [m2], the list under a key of [m2] gains the value of
    [m2] at its end unless it holds it already, a key new to [m1] starts
    a one-element list, and every other key of [m1] is untouched. *)
Theorem joinMap_lookup (m1 : gmap string (list string)) (m2 : gmap string string)
    (range : list (string * string)) (k : string) :
  range ≡ₚ map_to_list m2 ->
  joinMap m1 range !! k
  = match m2 !! k with
    | Some v2 =>
        if decide (v2 ∈ default [] (m1 !! k))
        then m1 !! k
        else Some (default [] (m1 !! k) ++ [v2])
    | None => m1 !! k
    end.
Proof.
  intros Hperm. unfold joinMap.
  assert (NoDup (range.*1)) as Hnd.
  { rewrite Hperm. apply NoDup_fst_map_to_list. }
  destruct (m2 !! k) as [v2|] eqn:E2.
  - apply joinMap_lookup_entry; [done|].
    rewrite Hperm. by apply elem_of_map_to_list.
  - apply joinMap_lookup_other. intros Hin.
    apply list_elem_of_fmap in Hin as ([k1 v1] & -> & Hin).
    rewrite Hperm in Hin. apply elem_of_map_to_list in Hin. simpl in E2. congruence.
Qed.

Lemma joinMap_lookup_witness :
  joinMap {[ "app" := ["reviews"] ]} [("version", "v1"); ("app", "reviews")] !! "app"
  = Some ["reviews"]
  /\ joinMap {[ "app" := ["reviews"] ]} [("version", "v1"); ("app", "reviews")] !! "version"
     = Some ["v1"].
Proof.
  assert ([("version", "v1"); ("app", "reviews")]
          ≡ₚ map_to_list ({[ "app" := "reviews"; "version" := "v1" ]} : gmap string string))
    as Hperm.
  { apply NoDup_Permutation.
    - apply (bool_decide_unpack _). reflexivity.
    - apply NoDup_map_to_list.
    - intros [k v]. rewrite elem_of_map_to_list.
      rewrite !elem_of_cons, elem_of_nil.
      rewrite lookup_insert_Some, lookup_singleton_Some. intuition congruence. }
  split.
  - rewrite (joinMap_lookup {[ "app" := ["reviews"] ]} _ _ "app" Hperm). reflexivity.
  - rewrite (joinMap_lookup {[ "app" := ["reviews"] ]} _ _ "version" Hperm). reflexivity.
Defined.

Lemma joinMap_holds m1 m2 range (R : string -> string -> Prop) :
  range ≡ₚ map_to_list m2 ->
  holds m1 R ->
  holds (joinMap m1 range) (fun k v => R k v \/ m2 !! k = Some v).
Proof.
  intros Hperm Hm k. rewrite (joinMap_lookup m1 m2 range k Hperm).
  specialize (Hm k). destruct (m2 !! k) as [v2|] eqn:E2.
  - destruct (m1 !! k) as [l|] eqn:E1; simpl.
    + destruct Hm as (Hnd & Hex & Hl). destruct (decide (v2 ∈ l)) as [Hin|Hin].
      * split; [done|]. split.
        { destruct Hex as [v Hv]. eauto. }
        intros v. rewrite Hl. split; [auto|]. intros [?|[= <-]]; [done|]. by apply Hl.
      * split.
        { apply NoDup_app. split; [done|]. split; [|apply NoDup_singleton].
          intros x Hx Hx'. apply list_elem_of_singleton in Hx'. by subst. }
        split; [eauto|].
        intros v. rewrite elem_of_app, list_elem_of_singleton, Hl.
        split; intros [?|?]; auto; [subst; auto|]. right. congruence.
    + split.
      { apply NoDup_singleton. }
      split; [eauto|].
      intros v. rewrite list_elem_of_singleton. split.
      * intros ->. auto.
      * intros [HR|[= <-]]; [by apply Hm in HR|done].
  - destruct (m1 !! k) as [l|] eqn:E1.
    + destruct Hm as (Hnd & Hex & Hl). split; [done|]. split.
      { destruct Hex as [v Hv]. eauto. }
      intros v. rewrite Hl. split; [auto|]. by intros [?|?].
    + intros v [HR|?]; [by apply Hm in HR|done].
Qed.

Lemma holds_ext m (R R' : string -> string -> Prop) :
  (forall k v, R k v <-> R' k v) -> holds m R -> holds m R'.
Proof.
  intros HR Hm k. specialize (Hm k). destruct (m !! k) as [l|].
  - destruct Hm as (Hnd & [v Hv] & Hl). split; [done|]. split.
    + exists v. by apply HR.
    + intros v'. by rewrite Hl.
  - intros v Hv. apply HR in Hv. by apply Hm in Hv.
Qed.

Lemma foldl_joinMap_holds ranges srcs m0 (R : string -> string -> Prop) :
  Forall2 (fun range m => range ≡ₚ map_to_list m) ranges srcs ->
  holds m0 R ->
  holds (foldl joinMap m0 ranges) (fun k v => R k v \/ labelled srcs k v).
Proof.
  intros HF. revert m0 R. induction HF as [|range m ranges srcs Hperm HF IH]; intros m0 R Hm.
  - simpl. eapply holds_ext; [|exact Hm].
    intros k v. split; [auto|]. intros [?|(m & Hin & _)]; [done|].
    by apply elem_of_nil in Hin.
  - simpl. eapply holds_ext; [|apply IH, (joinMap_holds _ m _ _ Hperm Hm)].
    intros k v. unfold labelled. split.
    + intros [[?|?]|(m' & Hin & ?)]; auto.
      * right. exists m. split; [apply elem_of_cons; auto|done].
      * right. exists m'. split; [apply elem_of_cons; auto|done].
    + intros [?|(m' & Hin & ?)]; auto.
      apply elem_of_cons in Hin as [->|Hin]; eauto.
Qed.

Lemma buildFinalLabels_holds m m' (R : string -> string -> Prop) :
  holds m R -> holds m' R -> buildFinalLabels m = buildFinalLabels m'.
Proof.
  intros Hm Hm'. apply map_eq. intros k. unfold buildFinalLabels.
  rewrite !lookup_fmap. specialize (Hm k). specialize (Hm' k).
  destruct (m !! k) as [l|], (m' !! k) as [l'|]; simpl.
  - destruct Hm as (Hnd & _ & Hl), Hm' as (Hnd' & _ & Hl').
    do 2 f_equal.
    assert (l ≡ₚ l') as Hp.
    { apply NoDup_Permutation; [done..|]. intros v. by rewrite Hl, Hl'. }
    pose proof string_le_trans. pose proof string_le_total.
    pose proof string_le_antisym.
    apply (Sorted_unique_strong string_le).
    + intros. by apply (anti_symm string_le).
    + apply Sorted_merge_sort. apply string_le_total.
    + apply Sorted_merge_sort. apply string_le_total.
    + by rewrite !merge_sort_Permutation.
  - destruct Hm as (_ & [v Hv] & _). by apply Hm' in Hv.
  - destruct Hm' as (_ & [v Hv] & _). by apply Hm in Hv.
  - done.
Qed.

(** X11: the labels of an application item depend only on which label
    pairs its services and workloads carry: not on the order of the
    services and workloads, not on how often a pair occurs, and not on
    the order in which the label maps are walked. A key is present
    exactly when some source has it, and its value joins the distinct
    values in ascending order. *)
Theorem appLabels_order_irrelevant
    (srcs srcs' : list (gmap string string))
    (ranges ranges' : list (list (string * string))) :
  Forall2 (fun range m => range ≡ₚ map_to_list m) ranges srcs ->
  Forall2 (fun range m => range ≡ₚ map_to_list m) ranges' srcs' ->
  (forall k v, labelled srcs k v <-> labelled srcs' k v) ->
  appLabels ranges = appLabels ranges'
  /\ forall k,
       match appLabels ranges !! k with
       | Some s =>
           exists l, s = String.concat "," l
                     /\ StronglySorted string_le l /\ NoDup l
                     /\ forall v, v ∈ l <-> labelled srcs k v
       | None => forall v, ~ labelled srcs k v
       end.
Proof.
  intros HF HF' Heq.
  assert (holds ∅ (fun _ _ => False)) as H0.
  { intros k. rewrite lookup_empty. tauto. }
  pose proof (foldl_joinMap_holds ranges srcs ∅ _ HF H0) as Hm.
  pose proof (foldl_joinMap_holds ranges' srcs' ∅ _ HF' H0) as Hm'.
  apply (holds_ext _ _ (labelled srcs)) in Hm; [|tauto].
  apply (holds_ext _ _ (labelled srcs)) in Hm';
    [|intros k v; rewrite Heq; tauto].
  split.
  - unfold appLabels. by apply (buildFinalLabels_holds _ _ (labelled srcs)).
  - intros k. unfold appLabels, buildFinalLabels. rewrite lookup_fmap.
    specialize (Hm k). destruct (foldl joinMap ∅ ranges !! k) as [l|]; simpl; [|done].
    destruct Hm as (Hnd & _ & Hl). exists (merge_sort string_le l).
    split; [done|]. split.
    { apply StronglySorted_merge_sort; [apply string_le_trans|apply string_le_total]. }
    split.
    + by rewrite merge_sort_Permutation.
    + intros v. by rewrite merge_sort_Permutation.
Qed.

Lemma appLabels_order_irrelevant_witness :
  appLabels [[("app", "reviews")]; [("app", "ratings")]]
  = appLabels [[("app", "ratings")]; [("app", "reviews")]].
Proof.
  assert (forall a b : string,
            Forall2 (fun range (m : gmap string string) => range ≡ₚ map_to_list m)
                    [[("app", a)]; [("app", b)]]
                    [{[ "app" := a ]}; {[ "app" := b ]}]) as HF.
  { intros a b. constructor; [by rewrite map_to_list_singleton|].
    constructor; [by rewrite map_to_list_singleton|]. constructor. }
  apply (proj1 (appLabels_order_irrelevant
                  [{[ "app" := "reviews" ]}; {[ "app" := "ratings" ]}]
                  [{[ "app" := "ratings" ]}; {[ "app" := "reviews" ]}]
                  [[("app", "reviews")]; [("app", "ratings")]]
                  [[("app", "ratings")]; [("app", "reviews")]]
                  (HF "reviews" "ratings") (HF "ratings" "reviews")
                  ltac:(intros k v; unfold labelled; split; intros (m & Hin & Hm);
                        exists m; (split; [|exact Hm]);
                        rewrite !elem_of_cons, elem_of_nil in Hin |- *; tauto))).
Defined.

Lemma castService_fold appLabel services (allEntities : gmap string appDetails) a :
  foldl (castService appLabel) allEntities services !! a
  = match allEntities !! a with
    | Some e =>
        Some {| app := app e;
                Services := Services e ++ servicesOf appLabel a services;
                Workloads := Workloads e |}
    | None =>
        match servicesOf appLabel a services with
        | [] => None
        | ss => Some {| app := a; Services := ss; Workloads := [] |}
        end
    end.
Proof.
  revert allEntities. induction services as [|s services IH]; intros allEntities.
  - simpl. destruct (allEntities !! a) as [[? ? ?]|]; [|done].
    simpl. by rewrite app_nil_r.
  - change (foldl (castService appLabel) (castService appLabel allEntities s) services !! a
            = match allEntities !! a with
              | Some e =>
                  Some {| app := app e;
                          Services := Services e ++ servicesOf appLabel a (s :: services);
                          Workloads := Workloads e |}
              | None =>
                  match servicesOf appLabel a (s :: services) with
                  | [] => None
                  | ss => Some {| app := a; Services := ss; Workloads := [] |}
                  end
              end).
    rewrite IH. unfold servicesOf at 3 4. rewrite filter_cons.
    fold (servicesOf appLabel a services).
    unfold castService.
    destruct (svc_Selector s !! appLabel) as [a0|] eqn:E.
    + destruct (decide (a0 = a)) as [->|Hne].
      * rewrite decide_True by done.
        destruct (allEntities !! a) as [e|] eqn:Ea.
        -- rewrite lookup_insert_eq. simpl. by rewrite <- app_assoc.
        -- rewrite lookup_insert_eq. simpl. done.
      * rewrite decide_False by congruence.
        destruct (allEntities !! a0); by rewrite lookup_insert_ne.
    + by rewrite decide_False.
Qed.

Lemma castWorkload_fold appLabel ws (allEntities : gmap string appDetails) a :
  foldl (castWorkload appLabel) allEntities ws !! a
  = match allEntities !! a with
    | Some e =>
        Some {| app := app e;
                Services := Services e;
                Workloads := Workloads e ++ workloadsOf appLabel a ws |}
    | None =>
        match workloadsOf appLabel a ws with
        | [] => None
        | l => Some {| app := a; Services := []; Workloads := l |}
        end
    end.
Proof.
  revert allEntities. induction ws as [|w ws IH]; intros allEntities.
  - simpl. destruct (allEntities !! a) as [[? ? ?]|]; [|done].
    simpl. by rewrite app_nil_r.
  - change (foldl (castWorkload appLabel) (castWorkload appLabel allEntities w) ws !! a
            = match allEntities !! a with
              | Some e =>
                  Some {| app := app e;
                          Services := Services e;
                          Workloads := Workloads e ++ workloadsOf appLabel a (w :: ws) |}
              | None =>
                  match workloadsOf appLabel a (w :: ws) with
                  | [] => None
                  | l => Some {| app := a; Services := []; Workloads := l |}
                  end
              end).
    rewrite IH. unfold workloadsOf at 3 4. rewrite filter_cons.
    fold (workloadsOf appLabel a ws).
    unfold castWorkload.
    destruct (w_Labels w !! appLabel) as [a0|] eqn:E.
    + destruct (decide (a0 = a)) as [->|Hne].
      * rewrite decide_True by done.
        destruct (allEntities !! a) as [e|] eqn:Ea.
        -- rewrite lookup_insert_eq. simpl. by rewrite <- app_assoc.
        -- rewrite lookup_insert_eq. simpl. done.
      * rewrite decide_False by congruence.
        destruct (allEntities !! a0); by rewrite lookup_insert_ne.
    + by rewrite decide_False.
Qed.

(** X12: [castAppDetails] partitions by the application label. An
    application is present exactly when a service selects it or a
    workload is labelled with it; it then holds all those services and
    all those workloads, each once and in the order of the inputs, under
    its own name. Services and workloads without the label are dropped. *)
Theorem castAppDetails_lookup appLabel services ws a :
  castAppDetails appLabel services ws !! a
  = if decide (servicesOf appLabel a services = [] /\ workloadsOf appLabel a ws = [])
    then None
    else Some {| app := a;
                 Services := servicesOf appLabel a services;
                 Workloads := workloadsOf appLabel a ws |}.
Proof.
  unfold castAppDetails. rewrite castWorkload_fold, castService_fold, lookup_empty.
  destruct (servicesOf appLabel a services) as [|s ss] eqn:Es.
  - destruct (workloadsOf appLabel a ws) as [|w l] eqn:Ew.
    + by rewrite decide_True.
    + rewrite decide_False by (intros [_ ?]; done). done.
  - rewrite decide_False by (intros [? _]; done). done.
Qed.

(** ** Properties of the pod logs *)

Example getParsedLogs_three_lines :
  (exists opts,
     BuildLogOptionsCriteria secondsLib "" "" "" "" "" = (Some opts, None)
     /\ option_map (fun l => map le_Message (Entries l))
          match getParsedLogs secondsLib threeLines "ns1" "pod1" opts with
          | Returns (l, _) => l
          | Panics => None
          end
        = Some ["started"; "ready"; "stopped"])
  /\ (exists opts,
        BuildLogOptionsCriteria secondsLib "" "5" "" "" "1" = (Some opts, None)
        /\ option_map (fun l => map le_Message (Entries l))
             match getParsedLogs secondsLib threeLines "ns1" "pod1" opts with
             | Returns (l, _) => l
             | Panics => None
             end
           = Some ["ready"]).
Proof. split; eexists; (split; [reflexivity|]); vm_compute; reflexivity. Qed.

Lemma BuildLogOptionsCriteria_tail_positive
    lib container duration isProxy sinceTime tailLines opts n :
  BuildLogOptionsCriteria lib container duration isProxy sinceTime tailLines
    = (Some opts, None) ->
  plo_TailLines (lo_PodLogOptions opts) = Some n ->
  0 < n.
Proof.
  unfold BuildLogOptionsCriteria. cbv zeta.
  repeat (case_match; try discriminate).
  all: intros [= <-]; simpl; intros Hn; simplify_eq.
  all: match goal with H : (_ >? 0) = true |- _ => apply Z.gtb_lt in H; lia end.
Qed.




Lemma logLine_entries lib opts st line :
  exists new,
    ll_entries match logLine lib opts st line with Next st' | Break st' => st' end
    = ll_entries st ++ new
    /\ Forall nonEmptyMessage new.
Proof.
  assert (exists new, ll_entries st = ll_entries st ++ new /\ Forall nonEmptyMessage new)
    as Hsame.
  { exists []. by rewrite app_nil_r. }
  unfold logLine.
  destruct (SplitN2 line byte_space) as [|s0 [|s1 [|]]]; try exact Hsame.
  cbv zeta.
  destruct (bool_decide (strings_TrimSpace lib s1 = "")) eqn:Hmsg; [exact Hsame|].
  apply bool_decide_eq_false in Hmsg.
  destruct (time_Parse lib _) as [parsedTimestamp [err|]]; [exact Hsame|].
  match goal with |- context [if ?b then Break _ else _] => destruct b end;
    [exact Hsame|].
  match goal with
  | |- context [let '(accessLog, parsedTimestamp) := ?p in _] =>
      destruct p as [accessLog parsedTimestamp']
  end.
  simpl. eexists. split; [reflexivity|].
  constructor; [exact Hmsg|constructor].
Qed.

Lemma logLines_entries lib opts lines st :
  exists new,
    ll_entries (logLines lib opts st lines) = ll_entries st ++ new
    /\ Forall nonEmptyMessage new.
Proof.
  revert st. induction lines as [|line lines IH]; intros st.
  - exists []. by rewrite app_nil_r.
  - simpl. destruct (logLine_entries lib opts st line) as (new & Hnew & HF).
    destruct (logLine lib opts st line) as [st'|st'].
    + destruct (IH st') as (new' & Hnew' & HF').
      exists (new ++ new'). rewrite Hnew', Hnew, app_assoc. split; [done|].
      by apply Forall_app.
    + by exists new.
Qed.

Lemma logLines_withTailLines lib opts t t' lines st :
  logLines lib (withTailLines t opts) st lines
  = logLines lib (withTailLines t' opts) st lines.
Proof.
  revert st. induction lines as [|line lines IH]; intros st; [done|].
  simpl. change (logLine lib (withTailLines t opts) st line)
    with (logLine lib (withTailLines t' opts) st line).
  destruct (logLine lib (withTailLines t' opts) st line); [apply IH|done].
Qed.

Lemma sliceFrom_tail {A} (entries : list A) n :
  0 <= n ->
  Z.of_nat (length entries) > n ->
  sliceFrom entries (Z.of_nat (length entries) - n)
  = Returns (drop (length entries - Z.to_nat n) entries).
Proof.
  intros Hn Hlen. unfold sliceFrom.
  rewrite (proj2 (Z.ltb_ge _ _)) by lia.
  rewrite (proj2 (Z.ltb_ge _ _)) by lia.
  simpl. do 2 f_equal. lia.
Qed.

Lemma sliceFrom_negative {A} (entries : list A) n :
  n < 0 -> sliceFrom entries (Z.of_nat (length entries) - n) = Panics.
Proof.
  intros Hn. unfold sliceFrom.
  rewrite (proj2 (Z.ltb_lt (Z.of_nat (length entries)) _)) by lia.
  by rewrite orb_true_r.
Qed.

(** X14: what [getParsedLogs] can end in. It returns a log or the error
    of the cluster, never both. Every returned entry has a message that
    is not empty, and when the log is bounded by a duration and
    [TailLines] is set, at most that many entries are returned. It panics
    only when the log is bounded and [TailLines] is negative. *)
Theorem getParsedLogs_outcome lib reader namespace name opts :
  match getParsedLogs lib reader namespace name opts with
  | Returns (Some log, None) =>
      Forall nonEmptyMessage (Entries log)
      /\ forall d n,
           lo_Duration opts = Some d ->
           plo_TailLines (lo_PodLogOptions opts) = Some n ->
           Z.of_nat (length (Entries log)) <= n
  | Returns (None, Some err) =>
      exists k8sOpts, snd (reader namespace name k8sOpts) = Some err
  | Returns _ => False
  | Panics =>
      lo_Duration opts <> None
      /\ exists n, plo_TailLines (lo_PodLogOptions opts) = Some n /\ n < 0
  end.
Proof.
  unfold getParsedLogs. cbv zeta.
  match goal with |- context [reader namespace name ?o] =>
    destruct (reader namespace name o) as [logs [err|]] eqn:Er end.
  { eexists. by rewrite Er. }
  match goal with |- context [logLines lib opts ?st ?lines] =>
    destruct (logLines_entries lib opts lines st) as (new & Hnew & HF);
    set (loop := logLines lib opts st lines) in * end.
  simpl in Hnew. subst new.
  destruct (plo_TailLines (lo_PodLogOptions opts)) as [n|] eqn:Et.
  - destruct (lo_Duration opts) as [d|] eqn:Ed.
    + rewrite bool_decide_eq_true_2 by done. simpl.
      destruct (Z.of_nat (length (ll_entries loop)) >? n) eqn:Hlen.
      * apply Z.gtb_lt in Hlen. destruct (Z.ltb_spec n 0) as [Hneg|Hpos].
        -- rewrite sliceFrom_negative by done. split; [done|]. eauto.
        -- rewrite sliceFrom_tail by lia. simpl. split.
           ++ by apply Forall_drop.
           ++ intros _ n' _ [= <-]. rewrite length_drop. lia.
      * simpl. split; [done|]. intros _ n' _ [= <-].
        rewrite Z.gtb_ltb in Hlen. apply Z.ltb_ge in Hlen. done.
    + rewrite bool_decide_eq_false_2 by (intros H; by apply H). simpl.
      split; [done|]. intros ? ? [=].
  - split; [done|]. intros ? ? _ [=].
Qed.

Lemma getParsedLogs_outcome_witness :
  match getParsedLogs secondsLib threeLines "ns1" "pod1"
          {| lo_Duration := Some 5; lo_IsProxy := false;
             lo_PodLogOptions := {| plo_Container := ""; plo_Timestamps := true;
                                    plo_SinceTime := None; plo_TailLines := Some 1 |} |}
  with
  | Returns (Some log, None) => Z.of_nat (length (Entries log)) <= 1
  | _ => False
  end.
Proof.
  exact (proj2 (getParsedLogs_outcome secondsLib threeLines "ns1" "pod1"
                  {| lo_Duration := Some 5; lo_IsProxy := false;
                     lo_PodLogOptions := {| plo_Container := ""; plo_Timestamps := true;
                                            plo_SinceTime := None;
                                            plo_TailLines := Some 1 |} |})
           5 1 eq_refl eq_refl).
Defined.


(** X15: a negative [TailLines] on a log bounded by a duration makes
    [getParsedLogs] panic as soon as the cluster answers, whatever the
    log holds: the length of the entries always exceeds it, and the
    slice expression starts past their end. *)
Theorem getParsedLogs_negative_tail_panics lib reader namespace name opts d n :
  lo_Duration opts = Some d ->
  plo_TailLines (lo_PodLogOptions opts) = Some n ->
  n < 0 ->
  snd (reader namespace name (lo_PodLogOptions (withTailLines None opts))) = None ->
  getParsedLogs lib reader namespace name opts = Panics.
Proof.
  intros Hd Ht Hn Hr. unfold getParsedLogs. cbv zeta.
  rewrite Hd, Ht. rewrite bool_decide_eq_true_2 by done.
  change (lo_PodLogOptions (withTailLines None opts))
    with {| plo_Container := plo_Container (lo_PodLogOptions opts);
            plo_Timestamps := plo_Timestamps (lo_PodLogOptions opts);
            plo_SinceTime := plo_SinceTime (lo_PodLogOptions opts);
            plo_TailLines := None |} in Hr.
  destruct (reader namespace name _) as [logs [err|]]; [done|].
  simpl. rewrite (proj2 (Z.gtb_lt _ _)) by lia.
  by rewrite sliceFrom_negative.
Qed.

Lemma getParsedLogs_negative_tail_panics_witness :
  getParsedLogs secondsLib threeLines "ns1" "pod1"
    {| lo_Duration := Some 5; lo_IsProxy := false;
       lo_PodLogOptions := {| plo_Container := ""; plo_Timestamps := true;
                              plo_SinceTime := None; plo_TailLines := Some (-1) |} |}
  = Panics.
Proof.
  apply (getParsedLogs_negative_tail_panics secondsLib threeLines "ns1" "pod1" _ 5 (-1)).
  - reflexivity.
  - reflexivity.
  - lia.
  - reflexivity.
Defined.

Lemma getParsedLogs_panics_negative lib reader namespace name opts :
  getParsedLogs lib reader namespace name opts = Panics ->
  exists n, plo_TailLines (lo_PodLogOptions opts) = Some n /\ n < 0.
Proof.
  unfold getParsedLogs. cbv zeta.
  destruct (reader namespace name _) as [logs [err|]]; [done|].
  destruct (plo_TailLines (lo_PodLogOptions opts)) as [n|]; [|done].
  destruct (bool_decide (lo_Duration opts <> None) && _) eqn:Hb; [|done].
  apply andb_true_iff in Hb as [_ Hlen]. apply Z.gtb_lt in Hlen.
  destruct (Z.ltb_spec n 0) as [Hneg|Hpos]; [eauto|].
  unfold sliceFrom.
  rewrite (proj2 (Z.ltb_ge _ _)) by lia.
  rewrite (proj2 (Z.ltb_ge _ _)) by lia.
  done.
Qed.

(** X16: options that [BuildLogOptionsCriteria] built never make
    [GetPodLogs] panic: it returns, whatever the cluster answers. *)
Theorem GetPodLogs_built_options_return
    lib reader container duration isProxy sinceTime tailLines namespace name opts :
  BuildLogOptionsCriteria lib container duration isProxy sinceTime tailLines
    = (Some opts, None) ->
  exists r, GetPodLogs lib reader namespace name opts = Returns r.
Proof.
  intros Hb. unfold GetPodLogs.
  destruct (getParsedLogs lib reader namespace name opts) as [r|] eqn:Hg; [by exists r|].
  apply getParsedLogs_panics_negative in Hg as (n & Ht & Hn).
  pose proof (BuildLogOptionsCriteria_tail_positive _ _ _ _ _ _ _ _ Hb Ht). lia.
Qed.

Lemma GetPodLogs_built_options_return_witness :
  exists r, GetPodLogs secondsLib threeLines "ns1" "pod1"
              {| lo_Duration := Some 5; lo_IsProxy := false;
                 lo_PodLogOptions := {| plo_Container := ""; plo_Timestamps := true;
                                        plo_SinceTime := None; plo_TailLines := Some 1 |} |}
            = Returns r.
Proof.
  apply (GetPodLogs_built_options_return secondsLib threeLines "" "5" "" "" "1").
  reflexivity.
Defined.

(** X17: on a log bounded by a duration the tail is cut from the parsed
    entries, not from the lines of the cluster: with [TailLines] set to
    [n] the result holds the last [n] of the entries returned without
    [TailLines], all of them if they are fewer. *)
Theorem getParsedLogs_bounded_tail lib reader namespace name opts d n log :
  lo_Duration opts = Some d ->
  0 <= n ->
  getParsedLogs lib reader namespace name (withTailLines None opts)
    = Returns (Some log, None) ->
  getParsedLogs lib reader namespace name (withTailLines (Some n) opts)
  = Returns (Some {| Entries := drop (length (Entries log) - Z.to_nat n) (Entries log) |},
             None).
Proof.
  intros Hd Hn. unfold getParsedLogs. cbv zeta. simpl.
  rewrite Hd. rewrite bool_decide_eq_true_2 by done. simpl.
  destruct (reader namespace name _) as [logs [err|]]; [done|].
  rewrite (logLines_withTailLines lib opts (Some n) None).
  intros [= <-]. simpl.
  destruct (Z.of_nat (length _) >? n) eqn:Hlen.
  - apply Z.gtb_lt in Hlen. rewrite sliceFrom_tail by lia. done.
  - rewrite Z.gtb_ltb in Hlen. apply Z.ltb_ge in Hlen.
    do 3 f_equal. replace (_ - Z.to_nat n)%nat with 0%nat by lia. done.
Qed.

Lemma getParsedLogs_bounded_tail_witness :
  option_map (fun l => map le_Message (Entries l))
    match getParsedLogs secondsLib threeLines "ns1" "pod1"
            (withTailLines (Some 1)
               {| lo_Duration := Some 5; lo_IsProxy := false;
                  lo_PodLogOptions := {| plo_Container := ""; plo_Timestamps := true;
                                         plo_SinceTime := None;
                                         plo_TailLines := None |} |}) with
    | Returns (l, _) => l
    | Panics => None
    end
  = Some ["ready"].
Proof.
  rewrite (getParsedLogs_bounded_tail secondsLib threeLines "ns1" "pod1"
             {| lo_Duration := Some 5; lo_IsProxy := false;
                lo_PodLogOptions := {| plo_Container := ""; plo_Timestamps := true;
                                       plo_SinceTime := None;
                                       plo_TailLines := None |} |}
             5 1 _ eq_refl ltac:(lia) eq_refl).
  reflexivity.
Defined.

(** ** The pods of a workload *)

Lemma Pods_Parse_nil l : Pods_Parse [] l = map Pod_Parse l.
Proof. done. Qed.

Lemma findPodByName_elem n l p : findPodByName n l = Some p -> p ∈ l.
Proof.
  unfold findPodByName. intros H. apply find_some in H as [H _].
  by apply list_elem_of_In.
Qed.

Lemma switchWorkloads_pods f cname ctype :
  exists ps,
    ps `sublist_of` pods f
    /\ w_Pods (fst (switchWorkloads f cname ctype emptyWorkload)) = map Pod_Parse ps.
Proof.
  assert (forall parse l,
            (forall w o, w_Pods (parse w o) = w_Pods w) ->
            exists ps,
              ps `sublist_of` pods f
              /\ w_Pods (fst (fromSelector parse l (pods f) cname emptyWorkload))
                 = map Pod_Parse ps) as Hsel.
  { intros parse l Hparse. unfold fromSelector.
    destruct (findByName cname l) as [o|].
    - eexists. split; [|simpl; rewrite Hparse; reflexivity].
      apply sublist_filter.
    - exists []. split; [apply sublist_nil_l|done]. }
  unfold switchWorkloads.
  repeat (case_bool_decide; [by apply Hsel|]).
  case_bool_decide.
  { unfold fromPod. destruct (findPodByName cname (pods f)) as [p|] eqn:E.
    - exists [p]. split; [|done].
      apply findPodByName_elem in E. apply list_elem_of_split in E as (l1 & l2 & ->).
      apply sublist_inserts_l. apply sublist_skip, sublist_nil_l.
    - exists []. split; [apply sublist_nil_l|done]. }
  repeat (case_bool_decide; [by apply Hsel|]).
  unfold fromCustom. cbv zeta.
  exists (FilterPodsForController cname
            (if bool_decide (controllerOrder !! ctype = None)
             then kubernetes.ReplicaSetType else ctype) (pods f)).
  split; [apply sublist_filter|].
  destruct (List.find _ (repset f)); reflexivity.
Qed.

(** X18: a workload holds only pods the cluster listed. The pods of each
    returned workload are parsed from a sub-sequence of the fetched pod
    list, in its order: no pod is invented, repeated or reordered. A
    proxy status is attached only to pods with an Istio sidecar. *)
Theorem fetchWorkloads_pods_from_cluster layer sched order namespace labelSelector :
  Forall (fun w =>
            exists ps,
              ps `sublist_of` fst (GetPods (source layer namespace) namespace labelSelector)
              /\ map mp_Name (w_Pods w) = map pod_Name ps
              /\ map mp_Labels (w_Pods w) = map pod_Labels ps
              /\ map mp_CreatedBy (w_Pods w)
                 = map (fun p => map (fun ref => (ref_Name ref, ref_Kind ref))
                                     (pod_OwnerReferences p)) ps
              /\ Forall (fun mp => mp_ProxyStatus mp <> None -> HasIstioSidecar mp = true)
                        (w_Pods w))
         (fst (fetchWorkloads layer sched order namespace labelSelector)).
Proof.
  unfold fetchWorkloads.
  destruct (Namespace_GetNamespace layer namespace); [constructor|].
  destruct (errChan layer namespace labelSelector sched); [|constructor].
  cbv zeta. simpl. apply Forall_forall. intros w Hw.
  apply list_elem_of_omap in Hw as (cname & _ & Hw).
  unfold buildWorkload in Hw. cbv zeta in Hw.
  destruct (switchWorkloads_pods (fetched layer namespace labelSelector) cname
              (default "" (controllerIndex (parseSelector layer labelSelector) order
                             (fetched layer namespace labelSelector) !! cname)))
    as (ps & Hsub & Hps).
  destruct (switchWorkloads _ cname _ emptyWorkload) as [w0 [|]]; [|done].
  injection Hw as <-. simpl in Hps. exists ps. split; [exact Hsub|].
  unfold attachProxyStatus. simpl. rewrite Hps. clear.
  induction ps as [|p ps IH]; [by repeat split|].
  destruct IH as (IH1 & IH2 & IH3 & IH4). simpl.
  destruct (HasIstioSidecar (Pod_Parse p)) eqn:E; simpl;
    rewrite IH1, IH2, IH3; repeat split; constructor; auto; simpl; done.
Qed.

(** ** The earlier revision *)

Lemma Older_scanPod_inv (pods : list Pod) (c : gmap string string) :
  (forall n k, c !! n = Some k ->
     k = "Pod" /\ exists p, p ∈ pods /\ pod_Name p = n /\ pod_OwnerReferences p = []) ->
  forall l, (forall p, p ∈ l -> p ∈ pods) ->
  forall n k, foldl Older.scanPod c l !! n = Some k ->
    k = "Pod" /\ exists p, p ∈ pods /\ pod_Name p = n /\ pod_OwnerReferences p = [].
Proof.
  intros Hc l. revert c Hc. induction l as [|pod l IH]; intros c Hc Hl; [exact Hc|].
  simpl. apply IH.
  - intros n k. unfold Older.scanPod.
    destruct (pod_OwnerReferences pod) as [|r rs] eqn:E; simpl; [|apply Hc].
    destruct (c !! pod_Name pod) eqn:Ec; [apply Hc|].
    destruct (decide (n = pod_Name pod)) as [->|Hne].
    + rewrite lookup_insert_eq. intros [= <-]. split; [done|].
      exists pod. split; [apply Hl; left|done].
    + rewrite lookup_insert_ne by done. apply Hc.
  - intros p Hp. apply Hl. by right.
Qed.

Lemma Older_controllerIndex_inv selector pods dep n k :
  Older.controllerIndex selector pods dep !! n = Some k ->
  (k = "Pod" /\ exists p, p ∈ pods /\ pod_Name p = n /\ pod_OwnerReferences p = [])
  \/ (k = "Deployment" /\ exists d, d ∈ dep /\ obj_Name d = n).
Proof.
  unfold Older.controllerIndex.
  assert (forall n k, foldl Older.scanPod ∅ pods !! n = Some k ->
            (k = "Pod" /\ exists p, p ∈ pods /\ pod_Name p = n
                                   /\ pod_OwnerReferences p = [])
            \/ (k = "Deployment" /\ exists d, d ∈ dep /\ obj_Name d = n)) as H0.
  { intros n' k' H. left. revert n' k' H. apply Older_scanPod_inv; [|done].
    intros ? ?. by rewrite lookup_empty. }
  revert n k. generalize dependent (foldl Older.scanPod ∅ pods).
  assert (forall l, (forall d, d ∈ l -> d ∈ dep) ->
            forall c : gmap string string,
              (forall n k, c !! n = Some k ->
                 (k = "Pod" /\ exists p, p ∈ pods /\ pod_Name p = n
                                        /\ pod_OwnerReferences p = [])
                 \/ (k = "Deployment" /\ exists d, d ∈ dep /\ obj_Name d = n)) ->
              forall n k, foldl (addOrphan selector "Deployment") c l !! n = Some k ->
                 (k = "Pod" /\ exists p, p ∈ pods /\ pod_Name p = n
                                        /\ pod_OwnerReferences p = [])
                 \/ (k = "Deployment" /\ exists d, d ∈ dep /\ obj_Name d = n)) as Hl.
  { induction l as [|d l IH]; intros Hsub c Hc; [exact Hc|].
    simpl. apply IH; [intros ? ?; apply Hsub; by right|].
    intros n k. unfold addOrphan.
    destruct (bool_decide (c !! obj_Name d = None) && selectorCheck selector d);
      [|apply Hc].
    destruct (decide (n = obj_Name d)) as [->|Hne].
    - rewrite lookup_insert_eq. intros [= <-]. right. split; [done|].
      exists d. split; [apply Hsub; left|done].
    - rewrite lookup_insert_ne by done. apply Hc. }
  intros c Hc. by apply Hl.
Qed.

Lemma Older_buildWorkload_name pods dep controllers cname w :
  Older.buildWorkload pods dep controllers cname = Some w ->
  w_Name w = cname /\ w_Type w = default "" (controllers !! cname).
Proof.
  unfold Older.buildWorkload, Older.switchWorkloads. cbv zeta.
  case_bool_decide as Hd.
  - rewrite Hd. unfold fromSelector. destruct (findByName cname dep) as [o|] eqn:E; [|done].
    intros [= <-]. simpl. split; [|done].
    apply findByName_Some in E. tauto.
  - case_bool_decide as Hp.
    + rewrite Hp. unfold fromPod. destruct (findPodByName cname pods) as [p|] eqn:E; [|done].
      intros [= <-]. simpl. split; [|done].
      unfold findPodByName in E. apply find_some in E as [_ E].
      by apply bool_decide_eq_true in E.
    + unfold Older.fromController. cbv zeta. by intros [= <-].
Qed.

(** X19: the earlier [fetchWorkloads] reports deployments and bare pods
    only. Every workload it returns is a listed deployment under its
    name, or has kind Pod and the name of a listed pod without owner
    references; the default case of its switch is never taken. *)
Theorem Older_fetchWorkloads_kinds k8s labels_Parse sched namespace labelSelector :
  Forall (fun w =>
            (w_Type w = "Deployment"
             /\ exists d, d ∈ fst (GetDeployments k8s namespace) /\ obj_Name d = w_Name w)
            \/ (w_Type w = "Pod"
                /\ exists p, p ∈ fst (GetPods k8s namespace labelSelector)
                             /\ pod_Name p = w_Name w
                             /\ pod_OwnerReferences p = []))
         (fst (Older.fetchWorkloads k8s labels_Parse sched namespace labelSelector)).
Proof.
  unfold Older.fetchWorkloads.
  destruct (omap _ sched); [|constructor].
  cbv zeta. simpl. apply Forall_forall. intros w Hw.
  apply list_elem_of_omap in Hw as (cname & Hin & Hw).
  apply elem_of_sortedNames in Hin as [k Hk].
  apply Older_buildWorkload_name in Hw as [Hname Htype].
  rewrite Hk in Htype. simpl in Htype.
  apply Older_controllerIndex_inv in Hk. rewrite Hname, Htype.
  destruct Hk as [[-> Hp]|[-> Hd]]; [right|left]; done.
Qed.

Lemma Older_scan_empty workloadName pods :
  fst (Older.scan workloadName pods) = ""
  <-> Forall (fun pod => ~ Older.leadsTo workloadName pod) pods.
Proof.
  induction pods as [|pod pods IH]; simpl.
  - split; [constructor|done].
  - case_bool_decide as Hn.
    + simpl. split; [done|]. intros H. apply Forall_cons in H as [H _].
      exfalso. apply H. by left.
    + destruct (Older.controllerNamed workloadName pod) as [ref|] eqn:E.
      * case_bool_decide as Hk.
        -- simpl. split; [done|]. intros H. apply Forall_cons in H as [H _].
           exfalso. apply H. right. unfold Older.leadsTo. rewrite E. eauto.
        -- rewrite IH. split.
           ++ intros H. constructor; [|done]. intros [?|(ref' & Hr & Hk')]; [done|].
              rewrite E in Hr. injection Hr as <-. apply Hk' .
              destruct (decide (ref_Kind ref = "")); tauto.
           ++ intros H. by apply Forall_cons in H as [_ H].
      * rewrite bool_decide_eq_false_2 by (intros H; by apply H). rewrite IH. split.
        -- intros H. constructor; [|done]. intros [?|(ref' & Hr & _)]; [done|].
           by rewrite E in Hr.
        -- intros H. by apply Forall_cons in H as [_ H].
Qed.

(** X20: when the earlier [fetchWorkload] answers Not-Found. Once the
    pods are listed, it fails exactly when no deployment of that name is
    read without error and no pod leads to the workload, by its own name
    or by the kind of its first controller reference to that name; the
    error is then the typed Not-Found, and there is no other error. *)
Theorem Older_fetchWorkload_not_found k8s namespace workloadName :
  snd (GetPods k8s namespace "") = None ->
  (snd (Older.fetchWorkload k8s namespace workloadName)
     = Some (NewNotFound "kiali" "workload" workloadName)
   <-> (forall dp, GetDeployment k8s namespace workloadName <> (Some dp, None))
       /\ Forall (fun pod => ~ Older.leadsTo workloadName pod)
                 (fst (GetPods k8s namespace "")))
  /\ (snd (Older.fetchWorkload k8s namespace workloadName) = None
      \/ snd (Older.fetchWorkload k8s namespace workloadName)
         = Some (NewNotFound "kiali" "workload" workloadName)).
Proof.
  intros Hpods. unfold Older.fetchWorkload. cbv zeta.
  destruct (GetPods k8s namespace "") as [pods err]. simpl in Hpods. subst err. simpl.
  destruct (GetDeployment k8s namespace workloadName) as [[dp|] [e|]]; simpl.
  2:{ split; [|auto]. split; [done|]. intros [H _]. by specialize (H dp). }
  all: rewrite <- Older_scan_empty;
    destruct (Older.scan workloadName pods) as [ctype [pod|]] eqn:Es; simpl;
    repeat case_bool_decide; simpl.
  all: split; [|auto].
  all: split.
  all: try (intros Heq; discriminate Heq).
  all: try (intros [_ Hc]; congruence).
  all: try (intros _; split; [by intros ? [=]|]; destruct (decide (ctype = "")); [done|tauto]).
  all: try reflexivity.
Qed.

Lemma Older_fetchWorkload_not_found_witness :
  snd (Older.fetchWorkload (clusterClient sampleCluster) "ns1" "ghost")
  = Some (NewNotFound "kiali" "workload" "ghost").
Proof.
  apply (proj2 (proj1 (Older_fetchWorkload_not_found
                         (clusterClient sampleCluster) "ns1" "ghost" eq_refl))).
  split.
  - intros dp. vm_compute. discriminate.
  - simpl.
    repeat (apply Forall_cons; split;
            [intros [H|(ref & H & _)]; vm_compute in H; discriminate H|]).
    constructor.
Defined.

(** ** Excluded kinds *)

Lemma fromSelector_nil parse pods cname w :
  snd (fromSelector parse [] pods cname w) = false.
Proof. done. Qed.

Lemma buildWorkload_found layer namespace f (c : gmap string string) cname w :
  buildWorkload layer namespace f c cname = Some w ->
  snd (switchWorkloads f cname (w_Type w) emptyWorkload) = true.
Proof.
  intros Hw. pose proof (buildWorkload_name _ _ _ _ _ _ Hw) as [_ ->].
  unfold buildWorkload in Hw. cbv zeta in Hw.
  by destruct (switchWorkloads f cname (default "" (c !! cname)) emptyWorkload)
    as [w0 [|]].
Qed.

(** X21: an excluded kind is not reported. When the configuration
    excludes a replication-controller, deployment-config, stateful-set,
    cron-job, job or daemon-set kind, its listing is skipped and
    [fetchWorkloads] returns no workload of that kind, also when pods or
    other controllers refer to a controller of that kind. *)
Theorem fetchWorkloads_excluded_kinds layer sched order namespace labelSelector kind :
  kind ∈ excludableKinds ->
  isWorkloadIncluded layer kind = false ->
  Forall (fun w => w_Type w <> kind)
         (fst (fetchWorkloads layer sched order namespace labelSelector)).
Proof.
  intros Hin Hexcl. unfold fetchWorkloads.
  destruct (Namespace_GetNamespace layer namespace); [constructor|].
  destruct (errChan layer namespace labelSelector sched); [|constructor].
  cbv zeta. simpl. apply Forall_forall. intros w Hw Hk.
  apply list_elem_of_omap in Hw as (cname & _ & Hw).
  apply buildWorkload_found in Hw. rewrite Hk in Hw. clear Hk.
  set (f := fetched layer namespace labelSelector) in *.
  unfold excludableKinds in Hin.
  rewrite !elem_of_cons, elem_of_nil in Hin.
  destruct Hin as [->|[->|[->|[->|[->|[->|[]]]]]]].
  - change (snd (fromSelector ParseReplicationController (repcon f) (pods f) cname
                   emptyWorkload) = true) in Hw.
    assert (repcon f = []) as Hl
      by (unfold f, fetched, goReplicationControllers; simpl; by rewrite Hexcl).
    by rewrite Hl in Hw.
  - change (snd (fromSelector ParseDeploymentConfig (depcon f) (pods f) cname
                   emptyWorkload) = true) in Hw.
    assert (depcon f = []) as Hl
      by (unfold f, fetched, goDeploymentConfigs; simpl;
          by rewrite Hexcl, andb_false_r).
    by rewrite Hl in Hw.
  - change (snd (fromSelector ParseStatefulSet (fulset f) (pods f) cname
                   emptyWorkload) = true) in Hw.
    assert (fulset f = []) as Hl
      by (unfold f, fetched, goStatefulSets; simpl; by rewrite Hexcl).
    by rewrite Hl in Hw.
  - change (snd (fromSelector ParseCronJob (conjbs f) (pods f) cname
                   emptyWorkload) = true) in Hw.
    assert (conjbs f = []) as Hl
      by (unfold f, fetched, goCronJobs; simpl; by rewrite Hexcl).
    by rewrite Hl in Hw.
  - change (snd (fromSelector ParseJob (jbs f) (pods f) cname emptyWorkload) = true)
      in Hw.
    assert (jbs f = []) as Hl
      by (unfold f, fetched, goJobs; simpl; by rewrite Hexcl).
    by rewrite Hl in Hw.
  - change (snd (fromSelector ParseDaemonSet (daeset f) (pods f) cname
                   emptyWorkload) = true) in Hw.
    assert (daeset f = []) as Hl
      by (unfold f, fetched, goDaemonSets; simpl; by rewrite Hexcl).
    by rewrite Hl in Hw.
Qed.

Lemma fetchWorkloads_excluded_kinds_witness :
  Forall (fun w => w_Type w <> "Job")
         (fst (fetchWorkloads (excluding {[ "Job" := true ]} (clusterLayer jobCluster))
                 allTasks jobOrder "ns1" "")).
Proof.
  apply (fetchWorkloads_excluded_kinds
           (excluding {[ "Job" := true ]} (clusterLayer jobCluster))
           allTasks jobOrder "ns1" "" "Job").
  - apply (bool_decide_unpack _). reflexivity.
  - reflexivity.
Defined.

(** ** The index keeps the kind of highest rank *)

Lemma controllerPriority_rank a b :
  rank a <= rank (controllerPriority a b) /\ rank b <= rank (controllerPriority a b).
Proof.
  rewrite controllerPriority_unfold.
  destruct (Z.leb_spec (rank b) (rank a)); lia.
Qed.

Lemma mergeController_rank c ref n k :
  c !! n = Some k ->
  exists k', mergeController c ref !! n = Some k' /\ rank k <= rank k'.
Proof.
  intros Hk. unfold mergeController.
  destruct (decide (n = ref_Name ref)) as [->|Hne].
  - rewrite Hk. case_bool_decide.
    + rewrite lookup_insert_eq. eexists. split; [done|].
      apply controllerPriority_rank.
    + exists k. split; [done|lia].
  - destruct (c !! ref_Name ref) as [k0|].
    + case_bool_decide; [rewrite lookup_insert_ne by done|]; exists k; split; done || lia.
    + rewrite lookup_insert_ne by done. exists k. split; [done|lia].
Qed.

Lemma mergeController_covers c seen ref :
  covers c seen -> covers (mergeController c ref) (seen ++ [ref]).
Proof.
  intros Hc r Hr Hctl. apply elem_of_app in Hr as [Hr|Hr].
  - destruct (Hc r Hr Hctl) as (k & Hk & Hle).
    destruct (mergeController_rank c ref _ _ Hk) as (k' & Hk' & Hle').
    exists k'. split; [done|lia].
  - apply list_elem_of_singleton in Hr as ->. unfold mergeController.
    destruct (c !! ref_Name ref) as [k0|] eqn:E.
    + case_bool_decide as Hne.
      * rewrite lookup_insert_eq. eexists. split; [done|].
        apply controllerPriority_rank.
      * exists k0. split; [done|].
        assert (k0 = ref_Kind ref) as -> by (destruct (decide (k0 = ref_Kind ref)); tauto).
        lia.
    + rewrite lookup_insert_eq. eexists. split; [done|lia].
Qed.

Lemma foldl_merge_covers refs c seen :
  covers c seen ->
  covers (foldl (fun c ref => if isController ref then mergeController c ref else c)
                c refs)
         (seen ++ refs).
Proof.
  revert c seen. induction refs as [|ref refs IH]; intros c seen Hc.
  - by rewrite app_nil_r.
  - simpl. replace (seen ++ ref :: refs) with ((seen ++ [ref]) ++ refs)
      by (by rewrite <- app_assoc).
    apply IH.
    destruct (isController ref) eqn:Hctl.
    + by apply mergeController_covers.
    + intros r Hr Hr'. apply elem_of_app in Hr as [Hr|Hr]; [by apply Hc|].
      apply list_elem_of_singleton in Hr as ->. congruence.
Qed.

Lemma scanPod_covers c seen pod :
  covers c seen -> covers (scanPod c pod) (seen ++ pod_OwnerReferences pod).
Proof.
  intros Hc. unfold scanPod.
  destruct (pod_OwnerReferences pod) as [|r rs] eqn:E.
  - simpl. rewrite app_nil_r. destruct (c !! pod_Name pod) eqn:Ep; [done|].
    intros ref Hr Hctl. destruct (Hc ref Hr Hctl) as (k & Hk & Hle).
    exists k. split; [|done]. rewrite lookup_insert_ne; [done|]. congruence.
  - change (negb (Nat.eqb (length (r :: rs)) 0)) with true. cbv iota.
    by apply foldl_merge_covers.
Qed.

Lemma findControllers_covers pods c seen :
  covers c seen ->
  covers (foldl scanPod c pods) (seen ++ flat_map pod_OwnerReferences pods).
Proof.
  revert c seen. induction pods as [|pod pods IH]; intros c seen Hc.
  - simpl. by rewrite app_nil_r.
  - simpl. rewrite (assoc_L (++)). apply IH. by apply scanPod_covers.
Qed.

(** X22: the scan of the pods keeps the kind of highest rank. The kind
    the index holds for a name after "Find controllers from pods" has at
    least the rank of every controller owner reference to that name on
    any fetched pod, whatever the order of the pods and of their
    references (a kind missing from the rank table counts with rank 0). *)
Theorem findControllers_highest_rank (pods : list Pod) n k ref :
  findControllers pods !! n = Some k ->
  ref ∈ flat_map pod_OwnerReferences pods ->
  isController ref = true ->
  ref_Name ref = n ->
  rank (ref_Kind ref) <= rank k.
Proof.
  intros Hk Hin Hctl Hn.
  pose proof (findControllers_covers pods ∅ []) as Hc.
  unfold findControllers in Hk.
  destruct (Hc ltac:(intros r Hr; by apply elem_of_nil in Hr) ref Hin Hctl)
    as (k' & Hk' & Hle).
  rewrite Hn, Hk in Hk'. by injection Hk' as <-.
Qed.

Lemma findControllers_highest_rank_witness :
  rank "ReplicaSet" <= rank "Deployment".
Proof.
  apply (findControllers_highest_rank
           [ mkPod "p1" ∅ [ownedBy "web" "ReplicaSet"] [];
             mkPod "p2" ∅ [ownedBy "web" "Deployment"] [] ]
           "web" "Deployment" (ownedBy "web" "ReplicaSet")).
  - reflexivity.
  - apply (bool_decide_unpack _). reflexivity.
  - reflexivity.
  - reflexivity.
Defined.
